(** * round1b: document segmentation and relevance ranking (src/main.py)

    A shallow embedding of the section extractor
    ([extract_sections_from_text]), the relevance ranker
    ([find_relevant_sections]) and the report assembler
    ([create_output_json]) of [src/main.py], followed by the properties
    the specification states about them.

    Python strings are sequences of Unicode code points, so a character is
    a code point ([N]) and a string a list of them.  Python floats are
    IEEE-754 values and are modelled by [spec_float], whose comparisons
    treat NaN and signed zeros as IEEE does.  Python integers are [Z]. *)

From Stdlib Require Import List ZArith NArith Bool Lia.
From Stdlib Require Strings.Ascii Strings.String.
Import String.StringSyntax.
Delimit Scope string_scope with string.
From Stdlib Require Import Sorting.Sorted Sorting.Permutation.
From Stdlib Require Import Floats.SpecFloat.
Import ListNotations.

Local Open Scope Z_scope.
Local Open Scope list_scope.

(** ** Python strings *)

Module PyStr.

Definition char := N.
Definition str := list char.

(** ASCII literals of the source, as code points. *)
Definition of_string (s : String.string) : str :=
  map Ascii.N_of_ascii (String.list_ascii_of_string s).
Arguments of_string s%_string.

Definition chr_nl : char := 10%N.       (* '\n' *)
Definition chr_space : char := 32%N.    (* ' ' *)
Definition chr_colon : char := 58%N.    (* ':' *)
Definition chr_dot : char := 46%N.      (* '.' *)
Definition chr_bang : char := 33%N.     (* '!' *)
Definition chr_quest : char := 63%N.    (* '?' *)
Definition chr_rparen : char := 41%N.   (* ')' *)
Definition chr_minus : char := 45%N.    (* '-' *)
Definition chr_star : char := 42%N.     (* '*' *)
Definition chr_bullet : char := 8226%N. (* U+2022 *)

Definition in_range (lo hi c : N) : bool := (N.leb lo c && N.leb c hi)%bool.

(** [Py_UNICODE_ISSPACE]: the predicate behind [str.strip()],
    [str.split()] and the regular expression class [\s] on [str]
    patterns. *)
Definition isspace (c : char) : bool :=
  (in_range 9 13 c || in_range 28 32 c || N.eqb c 133 || N.eqb c 160
   || N.eqb c 5760 || in_range 8192 8202 c || N.eqb c 8232 || N.eqb c 8233
   || N.eqb c 8239 || N.eqb c 8287 || N.eqb c 12288)%bool.

(** [[A-Z]] *)
Definition is_AZ (c : char) : bool := in_range 65 90 c.

(** [len(s)] *)
Definition len {A} (s : list A) : Z := Z.of_nat (length s).

(** Truthiness of a string or list: non-empty. *)
Definition truthy {A} (s : list A) : bool :=
  match s with [] => false | _ :: _ => true end.

(** [s.lstrip()], [s.rstrip()], [s.strip()] *)
Fixpoint lstrip (s : str) : str :=
  match s with
  | [] => []
  | c :: s' => if isspace c then lstrip s' else s
  end.

Definition rstrip (s : str) : str := rev (lstrip (rev s)).

Definition strip (s : str) : str := rstrip (lstrip s).

(** [s[:n]] for a Python integer [n]: a negative [n] counts from the
    end. *)
Definition slice_to {A} (n : Z) (s : list A) : list A :=
  if 0 <=? n then firstn (Z.to_nat n) s
  else firstn (length s - Z.to_nat (- n)) s.

Fixpoint is_prefix (p s : str) : bool :=
  match p, s with
  | [], _ => true
  | _ :: _, [] => false
  | a :: p', b :: s' => (N.eqb a b && is_prefix p' s')%bool
  end.

(** [s.split(sep)] for a non-empty separator: a left-to-right scan for
    non-overlapping occurrences.  [skip] counts the characters of an
    occurrence still to be passed over, [cur] is the piece being built
    (reversed). *)
Fixpoint split_aux (sep : str) (skip : nat) (cur : str) (s : str) : list str :=
  match s with
  | [] => [rev cur]
  | c :: s' =>
      match skip with
      | S k => split_aux sep k cur s'
      | O =>
          if is_prefix sep s
          then rev cur :: split_aux sep (length sep - 1) [] s'
          else split_aux sep 0 (c :: cur) s'
      end
  end.

Definition split (sep : str) (s : str) : list str := split_aux sep 0 [] s.

(** [s.split()]: the maximal runs of non-whitespace characters. *)
Fixpoint words_aux (cur : str) (s : str) : list str :=
  match s with
  | [] => match cur with [] => [] | _ => [rev cur] end
  | c :: s' =>
      if isspace c
      then match cur with
           | [] => words_aux [] s'
           | _ => rev cur :: words_aux [] s'
           end
      else words_aux (c :: cur) s'
  end.

Definition split_ws (s : str) : list str := words_aux [] s.

(** [sep.join(l)] *)
Fixpoint join (sep : str) (l : list str) : str :=
  match l with
  | [] => []
  | [w] => w
  | w :: l' => w ++ sep ++ join sep l'
  end.

(** [s.endswith(c)] for a one-character suffix. *)
Definition endswith_char (c : char) (s : str) : bool :=
  match rev s with
  | [] => false
  | d :: _ => N.eqb d c
  end.

(** [re.sub(r'\s+', ' ', s)]: every maximal run of whitespace is replaced
    by one space.  [in_run] tells that the previous character belonged to
    a run already replaced. *)
Fixpoint sub_ws_aux (in_run : bool) (s : str) : str :=
  match s with
  | [] => []
  | c :: s' =>
      if isspace c
      then if in_run then sub_ws_aux true s' else chr_space :: sub_ws_aux true s'
      else c :: sub_ws_aux false s'
  end.

Definition sub_ws (s : str) : str := sub_ws_aux false s.

(** The first, respectively last, character is whitespace. *)
Definition starts_with_ws (s : str) : bool :=
  match s with
  | [] => false
  | c :: _ => isspace c
  end.

Definition ends_with_ws (s : str) : bool := starts_with_ws (rev s).

(** No whitespace anywhere: a word, or a fragment of one. *)
Definition solid (w : str) : bool := forallb (fun c => negb (isspace c)) w.

End PyStr.
Import PyStr.

(** ** Regular expressions

    The patterns of the source are written in a small regular-expression
    syntax and matched by derivatives. *)

Module Regex.

Inductive re : Type :=
| Void
| Eps
| Cls (p : char -> bool)
| Cat (r1 r2 : re)
| Alt (r1 r2 : re)
| Star (r : re).

(** [r+] *)
Definition Plus (r : re) : re := Cat r (Star r).

Fixpoint nullable (r : re) : bool :=
  match r with
  | Void => false
  | Eps => true
  | Cls _ => false
  | Cat r1 r2 => nullable r1 && nullable r2
  | Alt r1 r2 => nullable r1 || nullable r2
  | Star _ => true
  end.

Fixpoint deriv (c : char) (r : re) : re :=
  match r with
  | Void => Void
  | Eps => Void
  | Cls p => if p c then Eps else Void
  | Cat r1 r2 =>
      Alt (Cat (deriv c r1) r2) (if nullable r1 then deriv c r2 else Void)
  | Alt r1 r2 => Alt (deriv c r1) (deriv c r2)
  | Star r1 => Cat (deriv c r1) (Star r1)
  end.

(** The whole of [s] matches [r]. *)
Fixpoint fullmatch (r : re) (s : str) : bool :=
  match s with
  | [] => nullable r
  | c :: s' => fullmatch (deriv c r) s'
  end.

(** [re.match(r'^r', s)]: some prefix of [s] matches [r]. *)
Fixpoint match_prefix (r : re) (s : str) : bool :=
  nullable r ||
  match s with
  | [] => false
  | c :: s' => match_prefix (deriv c r) s'
  end.

(** [re.match(r'^r$', s)]: [$] matches at the end of the string and just
    before a newline that ends the string. *)
Definition match_to_end (r : re) (s : str) : bool :=
  fullmatch r s ||
  (endswith_char chr_nl s && fullmatch r (removelast s)).

(** What it means for a string to match, as a relation. *)
Inductive matches : re -> str -> Prop :=
| MEps : matches Eps []
| MCls p c : p c = true -> matches (Cls p) [c]
| MCat r1 r2 s1 s2 :
    matches r1 s1 -> matches r2 s2 -> matches (Cat r1 r2) (s1 ++ s2)
| MAltL r1 r2 s : matches r1 s -> matches (Alt r1 r2) s
| MAltR r1 r2 s : matches r2 s -> matches (Alt r1 r2) s
| MStar0 r : matches (Star r) []
| MStarS r s1 s2 :
    matches r s1 -> matches (Star r) s2 -> matches (Star r) (s1 ++ s2).

End Regex.
Import Regex.

(** ** Configuration and data *)

(** IEEE-754 double nearest to [0.1]. *)
Definition float_0_1 : spec_float := S754_finite false 7205759403792794 (-56).

(** The class [Config]: a record of the settings the functions read. *)
Record Config := {
  MIN_SECTION_LENGTH : Z;
  MAX_REFINED_TEXT_LENGTH : Z;
  SIMILARITY_MODEL : str;
  TOP_N_SECTIONS : Z;
  MIN_SIMILARITY_THRESHOLD : spec_float;
  MAX_HEADING_LENGTH : Z;
  MAX_HEADING_WORDS : Z
}.

Definition default_config : Config := {|
  MIN_SECTION_LENGTH := 50;
  MAX_REFINED_TEXT_LENGTH := 1000;
  SIMILARITY_MODEL := of_string "all-MiniLM-L6-v2";
  TOP_N_SECTIONS := 5;
  MIN_SIMILARITY_THRESHOLD := float_0_1;
  MAX_HEADING_LENGTH := 200;
  MAX_HEADING_WORDS := 10
|}.

(** The character tables of the Python runtime that [str.isupper()] and the
    class [\d] consult; they are not part of the repository. *)
Class UnicodeTables := {
  uni_isupper : char -> bool;
  uni_islower : char -> bool;
  uni_istitle : char -> bool;
  uni_isdecimal : char -> bool
}.

(** The tables restricted to ASCII, for running the functions. *)
Definition ascii_tables : UnicodeTables := {|
  uni_isupper := in_range 65 90;
  uni_islower := in_range 97 122;
  uni_istitle := fun _ => false;
  uni_isdecimal := in_range 48 57
|}.

(** A section dictionary: [title], [content] and [page_number] are set by
    the extractor, [document] is added by the loader. *)
Record DocSection := {
  title : str;
  content : str;
  page_number : Z;
  document : option str
}.

(** ** Section extractor *)

Section Extractor.

Context {U : UnicodeTables}.
Variable cfg : Config.

(** [s.isupper()]: no lower-case or title-case character and at least one
    upper-case character. *)
Fixpoint isupper_aux (cased : bool) (s : str) : bool :=
  match s with
  | [] => cased
  | c :: s' =>
      if uni_islower c || uni_istitle c then false
      else isupper_aux (cased || uni_isupper c) s'
  end.

Definition isupper (s : str) : bool := isupper_aux false s.

Definition not_sentence_end (c : char) : bool :=
  negb (N.eqb c chr_dot || N.eqb c chr_bang || N.eqb c chr_quest).

(** [^[A-Z][^.!?]*[^.!?]$] *)
Definition pat_title_case : re :=
  Cat (Cls is_AZ) (Cat (Star (Cls not_sentence_end)) (Cls not_sentence_end)).

(** [^\d+[\.\)]\s*[A-Z]] *)
Definition pat_numbered : re :=
  Cat (Plus (Cls uni_isdecimal))
    (Cat (Cls (fun c => N.eqb c chr_dot || N.eqb c chr_rparen))
       (Cat (Star (Cls isspace)) (Cls is_AZ))).

(** [^[•\-\*]\s*[A-Z]] *)
Definition pat_bullet : re :=
  Cat (Cls (fun c => N.eqb c chr_bullet || N.eqb c chr_minus || N.eqb c chr_star))
    (Cat (Star (Cls isspace)) (Cls is_AZ)).

(** The five patterns of the heading test. *)
Definition pattern_all_caps (line : str) : bool :=
  isupper line && (3 <? len line).

Definition pattern_title_case (line : str) : bool :=
  match_to_end pat_title_case line
  && (len (split_ws line) <=? MAX_HEADING_WORDS cfg).

Definition pattern_colon (line : str) : bool :=
  endswith_char chr_colon line && (len (split_ws line) <=? 8).

Definition pattern_numbered (line : str) : bool :=
  match_prefix pat_numbered line.

Definition pattern_bullet (line : str) : bool :=
  match_prefix pat_bullet line && (len (split_ws line) <=? 8).

(** The [if]/[elif] chain that sets [is_heading]. *)
Definition is_heading (line : str) : bool :=
  if len line <? MAX_HEADING_LENGTH cfg then
    if pattern_all_caps line then true
    else if pattern_title_case line then true
    else if pattern_colon line then true
    else if pattern_numbered line then true
    else if pattern_bullet line then true
    else false
  else false.

(** The variables of the line loop. *)
Record LoopState := {
  sections : list DocSection;
  current_title : str;
  current_section : str
}.

Definition mk_section (t c : str) (page_number : Z) : DocSection :=
  {| title := t; content := c; page_number := page_number; document := None |}.

(** The guarded [sections.append] used on a new heading and after the
    loop. *)
Definition flush (page_number min_section_length : Z) (st : LoopState)
  : list DocSection :=
  if truthy (current_title st) && truthy (current_section st)
     && (min_section_length <=? len (strip (current_section st)))
  then sections st
       ++ [mk_section (current_title st) (strip (current_section st)) page_number]
  else sections st.

(** One iteration of [for line in lines]. *)
Definition line_step (page_number min_section_length : Z)
           (st : LoopState) (line : str) : LoopState :=
  let line := strip line in
  if negb (truthy line) then st
  else if is_heading line then
    {| sections := flush page_number min_section_length st;
       current_title := line;
       current_section := [] |}
  else
    {| sections := sections st;
       current_title := current_title st;
       current_section := current_section st ++ line ++ [chr_space] |}.

Definition initial_state : LoopState :=
  {| sections := []; current_title := []; current_section := [] |}.

(** Strategy 2 with its final flush: the sections found by headings. *)
Definition heading_sections (text : str) (page_number min_section_length : Z)
  : list DocSection :=
  let lines := split [chr_nl] text in
  flush page_number min_section_length
    (fold_left (line_step page_number min_section_length) lines initial_state).

(** [[p.strip() for p in text.split('\n\n') if p.strip()]] *)
Definition paragraphs_of (text : str) : list str :=
  flat_map (fun p => if truthy (strip p) then [strip p] else [])
           (split [chr_nl; chr_nl] text).

(** [' '.join(words[:k]) + ('...' if len(words) > k else '')] *)
Definition title_of_words (k : nat) (words : list str) : str :=
  join [chr_space] (firstn k words)
  ++ (if Z.of_nat k <? len words then of_string "..." else []).

(** Body of the paragraph loop: what one paragraph appends. *)
Definition paragraph_section (page_number min_section_length : Z)
           (paragraph : str) : list DocSection :=
  if min_section_length <=? len paragraph
  then [mk_section (title_of_words 8 (split_ws paragraph)) paragraph page_number]
  else [].

(** Strategy 3: what the paragraph block appends to [sections]. *)
Definition strategy3_added (text : str) (page_number min_section_length : Z)
           (sections : list DocSection) : list DocSection :=
  let paragraphs := paragraphs_of text in
  if negb (truthy sections) && truthy paragraphs
  then flat_map (paragraph_section page_number min_section_length) paragraphs
  else [].

Definition whole_page_section (text : str) (page_number : Z) : DocSection :=
  mk_section (title_of_words 10 (split_ws (strip text))) (strip text) page_number.

(** Strategy 4: what the whole-page block appends to [sections]. *)
Definition strategy4_added (text : str) (page_number min_section_length : Z)
           (sections : list DocSection) : list DocSection :=
  if negb (truthy sections) && (min_section_length <=? len (strip text))
  then [whole_page_section text page_number]
  else [].

(** The threshold in force: the argument, or the configured default when
    the argument is [None]. *)
Definition effective_min (min_section_length : option Z) : Z :=
  match min_section_length with
  | None => MIN_SECTION_LENGTH cfg
  | Some m => m
  end.

Definition extract_sections_from_text (text : str) (page_number : Z)
           (min_section_length : option Z) : list DocSection :=
  let min_section_length := effective_min min_section_length in
  let sections := heading_sections text page_number min_section_length in
  let sections :=
    sections ++ strategy3_added text page_number min_section_length sections in
  let sections :=
    sections ++ strategy4_added text page_number min_section_length sections in
  sections.

End Extractor.

(** The heading test as the specification words it: the length gate and
    the disjunction of the five criteria, in no particular order. *)
Definition is_heading_spec {U : UnicodeTables} (cfg : Config) (line : str) : bool :=
  (len line <? MAX_HEADING_LENGTH cfg)
  && (pattern_all_caps line || pattern_title_case cfg line || pattern_colon line
      || pattern_numbered line || pattern_bullet line).

(** First match wins over a list of criteria. *)
Fixpoint first_match (criteria : list (str -> bool)) (line : str) : bool :=
  match criteria with
  | [] => false
  | c :: rest => if c line then true else first_match rest line
  end.

(** What the content of a section must satisfy for threshold [m]. *)
Definition long_enough (m : Z) (s : DocSection) : Prop :=
  m <= len (strip (content s)) /\ strip (content s) = content s.

(** The criteria in the order of the source. *)
Definition heading_criteria {U : UnicodeTables} (cfg : Config) : list (str -> bool) :=
  [pattern_all_caps; pattern_title_case cfg; pattern_colon; pattern_numbered;
   pattern_bullet].

(** ** Relevance ranker *)

(** An entry of [scored_sections]. *)
Record ScoredSection := {
  section : DocSection;
  similarity : spec_float;
  index : Z
}.

(** The external text encoder: [SentenceTransformer(name)] may raise (no
    model is returned), [model.encode] embeds one text or a list of texts,
    and [cos_sim_row] is [util.cos_sim(a, b)[0]] with each entry converted by
    [float]. *)
Class Encoder := {
  model : Type;
  embedding : Type;
  batch : Type;
  SentenceTransformer : str -> option model;
  encode : model -> str -> embedding;
  encode_batch : model -> list str -> batch;
  cos_sim_row : embedding -> batch -> list spec_float
}.

(** What a run does to the encoder, in order. *)
Inductive Event : Type :=
| EvConstruct (model_name : str)
| EvEncode (text : str)
| EvEncodeBatch (texts : list str)
| EvCosSim.

(** Computations that log encoder events and may raise. *)
Module Run.

Definition M (A : Type) : Type := list Event -> list Event * option A.

Definition ret {A} (a : A) : M A := fun tr => (tr, Some a).

Definition bind {A B} (m : M A) (k : A -> M B) : M B :=
  fun tr =>
    match m tr with
    | (tr', Some a) => k a tr'
    | (tr', None) => (tr', None)
    end.

Definition emit (e : Event) : M unit := fun tr => (tr ++ [e], Some tt).

Definition raise {A} : M A := fun tr => (tr, None).

(** Runs from an empty log. *)
Definition trace {A} (m : M A) : list Event := fst (m []).
Definition result {A} (m : M A) : option A := snd (m []).

End Run.

Notation "x <- m ;; k" := (Run.bind m (fun x => k))
  (at level 61, m at next level, right associativity).

Section Ranker.

Context {E : Encoder}.

Definition construct_model (model_name : str) : Run.M model :=
  _ <- Run.emit (EvConstruct model_name) ;;
  match SentenceTransformer model_name with
  | Some m => Run.ret m
  | None => Run.raise
  end.

Definition call_encode (m : model) (text : str) : Run.M embedding :=
  _ <- Run.emit (EvEncode text) ;; Run.ret (encode m text).

Definition call_encode_batch (m : model) (texts : list str) : Run.M batch :=
  _ <- Run.emit (EvEncodeBatch texts) ;; Run.ret (encode_batch m texts).

Definition call_cos_sim (a : embedding) (b : batch) : Run.M (list spec_float) :=
  _ <- Run.emit EvCosSim ;; Run.ret (cos_sim_row a b).

(** [f"{section['title']} {section['content']}"] *)
Definition combined_text (s : DocSection) : str :=
  title s ++ [chr_space] ++ content s.

(** The loop over [enumerate(zip(sections, similarities))], from index
    [i]: an entry is kept when [float(similarity) >= min_similarity]. *)
Fixpoint score_loop (min_similarity : spec_float) (i : Z)
         (l : list (DocSection * spec_float)) : list ScoredSection :=
  match l with
  | [] => []
  | (s, sim) :: l' =>
      if SFleb min_similarity sim
      then {| section := s; similarity := sim; index := i |}
           :: score_loop min_similarity (i + 1) l'
      else score_loop min_similarity (i + 1) l'
  end.

Definition scored_sections (min_similarity : spec_float)
           (sections : list DocSection) (similarities : list spec_float)
  : list ScoredSection :=
  score_loop min_similarity 0 (combine sections similarities).

(** The comparison [list.sort] makes between two entries: [<] on the
    keys [x['similarity']]. *)
Definition key_lt (a b : ScoredSection) : bool :=
  SFltb (similarity a) (similarity b).

(** [list.sort] is a stable sort that only asks [<].  Here an entry is
    placed after the entries that are smaller than it and before the
    others; on keys that are numbers every stable sort returns the same
    list. *)
Fixpoint sort_insert (x : ScoredSection) (l : list ScoredSection)
  : list ScoredSection :=
  match l with
  | [] => [x]
  | y :: l' => if key_lt y x then y :: sort_insert x l' else x :: y :: l'
  end.

Fixpoint list_sort (l : list ScoredSection) : list ScoredSection :=
  match l with
  | [] => []
  | x :: l' => sort_insert x (list_sort l')
  end.

(** [l.sort(key=..., reverse=True)]: the list is reversed, sorted and
    reversed again, which keeps entries with equal keys in their
    original order. *)
Definition list_sort_reverse (l : list ScoredSection) : list ScoredSection :=
  rev (list_sort (rev l)).

Definition find_relevant_sections (task : str) (sections : list DocSection)
           (model_name : str) (top_n : Z) (min_similarity : spec_float)
  : Run.M (list ScoredSection) :=
  m <- construct_model model_name ;;
  if negb (truthy sections) then Run.ret []
  else
    let section_texts := map combined_text sections in
    task_embedding <- call_encode m task ;;
    section_embeddings <- call_encode_batch m section_texts ;;
    similarities <- call_cos_sim task_embedding section_embeddings ;;
    let scored := scored_sections min_similarity sections similarities in
    Run.ret (slice_to top_n (list_sort_reverse scored)).

End Ranker.

(** The order of the ranking: [a] goes before [b] when its similarity is
    greater, or equal with a smaller pool index. *)
Definition before (a b : ScoredSection) : Prop :=
  SFltb (similarity b) (similarity a) = true \/
  (SFeqb (similarity a) (similarity b) = true /\ index a < index b).

Definition is_nan (x : spec_float) : bool :=
  match x with
  | S754_nan => true
  | _ => false
  end.

(** A key that orders the floats other than NaN as [SFcompare] does: the
    class (infinities, negative, zero, positive), then exponent and
    mantissa. *)
Definition float_key (x : spec_float) : Z * Z * Z :=
  match x with
  | S754_zero _ => (0, 0, 0)
  | S754_infinity s => (if s then -2 else 2, 0, 0)
  | S754_nan => (0, 0, 0)
  | S754_finite s m e => if s then (-1, - e, Z.neg m) else (1, e, Z.pos m)
  end.

(** An entry whose similarity is a number. *)
Definition valid (a : ScoredSection) : Prop := is_nan (similarity a) = false.

Definition key_lt3 (a b : Z * Z * Z) : Prop :=
  let '(a1, a2, a3) := a in
  let '(b1, b2, b3) := b in
  a1 < b1 \/ (a1 = b1 /\ (a2 < b2 \/ (a2 = b2 /\ a3 < b3))).

(** ** Report assembler *)

Record DocInfo := { filename : str; doc_title : str }.

(** [input_data]; [challenge_info] is [None] when the key is absent and
    [Some None] when it has no ['description']. *)
Record InputData := {
  documents : list DocInfo;
  persona_role : str;
  job_task : str;
  challenge_info : option (option str)
}.

Record Metadata := {
  input_documents : list str;
  persona : str;
  job_to_be_done : str;
  processing_timestamp : str;
  description : option str
}.

Record ExtractedSection := {
  es_document : str;
  section_title : str;
  importance_rank : Z;
  es_page_number : Z
}.

Record SubsectionAnalysis := {
  sa_document : str;
  refined_text : str;
  sa_page_number : Z
}.

Record Report := {
  metadata : Metadata;
  extracted_sections : list ExtractedSection;
  subsection_analysis : list SubsectionAnalysis
}.

Section Assembler.

Variable cfg : Config.

(** [content[:Config.MAX_REFINED_TEXT_LENGTH].strip()] followed by
    [re.sub(r'\s+', ' ', ...)]. *)
Definition refine_text (content : str) : str :=
  let refined_text := strip (slice_to (MAX_REFINED_TEXT_LENGTH cfg) content) in
  sub_ws refined_text.

(** [for i, item in enumerate(relevant_sections, 1)], from rank [i];
    [None] when a section has no ['document'] (the lookup raises). *)
Fixpoint extracted_loop (i : Z) (l : list ScoredSection)
  : option (list ExtractedSection) :=
  match l with
  | [] => Some []
  | item :: l' =>
      match document (section item) with
      | None => None
      | Some d =>
          match extracted_loop (i + 1) l' with
          | None => None
          | Some rest =>
              Some ({| es_document := d;
                       section_title := title (section item);
                       importance_rank := i;
                       es_page_number := page_number (section item) |} :: rest)
          end
      end
  end.

Fixpoint analysis_loop (l : list ScoredSection)
  : option (list SubsectionAnalysis) :=
  match l with
  | [] => Some []
  | item :: l' =>
      match document (section item) with
      | None => None
      | Some d =>
          match analysis_loop l' with
          | None => None
          | Some rest =>
              Some ({| sa_document := d;
                       refined_text := refine_text (content (section item));
                       sa_page_number := page_number (section item) |} :: rest)
          end
      end
  end.

(** [now] is [datetime.now().isoformat()]. *)
Definition create_output_json (now : str) (input_data : InputData)
           (relevant_sections : list ScoredSection) : option Report :=
  let metadata :=
    {| input_documents := map filename (documents input_data);
       persona := persona_role input_data;
       job_to_be_done := job_task input_data;
       processing_timestamp := now;
       description :=
         match challenge_info input_data with
         | Some (Some d) => Some d
         | _ => None
         end |} in
  match extracted_loop 1 relevant_sections with
  | None => None
  | Some extracted =>
      match analysis_loop relevant_sections with
      | None => None
      | Some analysis =>
          Some {| metadata := metadata;
                  extracted_sections := extracted;
                  subsection_analysis := analysis |}
      end
  end.

End Assembler.

(** ** A toy encoder for running the ranker

    Its only model is the default one; the similarity of a text is its
    length as a float, and texts that start with ['?'] score NaN. *)

Definition float_of_nat (n : nat) : spec_float :=
  match n with
  | O => S754_zero false
  | S _ => S754_finite false (Pos.of_nat n) 0
  end.

Definition toy_similarity (text : str) : spec_float :=
  match text with
  | c :: _ => if N.eqb c chr_quest then S754_nan else float_of_nat (length text)
  | [] => float_of_nat 0
  end.

Definition toy_encoder : Encoder := {|
  model := unit;
  embedding := str;
  batch := list str;
  SentenceTransformer := fun name =>
    if list_eq_dec N.eq_dec name (SIMILARITY_MODEL default_config)
    then Some tt else None;
  encode := fun _ text => text;
  encode_batch := fun _ texts => texts;
  cos_sim_row := fun _ texts => map toy_similarity texts
|}.

Definition toy_section (t c : String.string) : DocSection :=
  {| title := of_string t; content := of_string c; page_number := 1;
     document := Some (of_string "a.pdf") |}.
Arguments toy_section (t c)%_string.

Definition toy_pool : list DocSection :=
  [ toy_section "a" "bb"; toy_section "?" "x"; toy_section "cc" "ddd";
    toy_section "e" "ff"; toy_section "g" ""; toy_section "hhhh" "iiii" ].

(** The ranking of [toy_pool] with threshold 3 and at most 3 entries. *)
Definition toy_ranking : list ScoredSection :=
  [ {| section := toy_section "hhhh" "iiii";
       similarity := S754_finite false 9 0; index := 5 |};
    {| section := toy_section "cc" "ddd";
       similarity := S754_finite false 6 0; index := 2 |};
    {| section := toy_section "a" "bb";
       similarity := S754_finite false 4 0; index := 0 |} ].

Definition toy_input : InputData :=
  {| documents := [ {| filename := of_string "a.pdf"; doc_title := of_string "A" |} ];
     persona_role := of_string "Analyst";
     job_task := of_string "task";
     challenge_info := Some (Some (of_string "demo")) |}.

(** A configuration whose refined texts have at most 7 characters. *)
Definition short_config : Config :=
  {| MIN_SECTION_LENGTH := 50;
     MAX_REFINED_TEXT_LENGTH := 7;
     SIMILARITY_MODEL := SIMILARITY_MODEL default_config;
     TOP_N_SECTIONS := 5;
     MIN_SIMILARITY_THRESHOLD := float_0_1;
     MAX_HEADING_LENGTH := 200;
     MAX_HEADING_WORDS := 10 |}.

(** A page with one heading followed by a body, then a heading whose body
    is too short. *)
Definition demo_page : str :=
  of_string "INTRODUCTION" ++ [chr_nl]
  ++ of_string "this is the body of the first section." ++ [chr_nl]
  ++ of_string "2. Next part" ++ [chr_nl]
  ++ of_string "short.".

Definition demo_section : DocSection :=
  {| title := of_string "INTRODUCTION";
     content := of_string "this is the body of the first section.";
     page_number := 1;
     document := None |}.

(** One ranked section whose content has whitespace where the cut of
    [short_config] lands, and the report made from it. *)
Definition padded_ranking : list ScoredSection :=
  [ {| section := toy_section "T" "  ab   cdefgh  ";
       similarity := S754_finite false 9 0; index := 0 |} ].

Definition padded_entry : SubsectionAnalysis :=
  {| sa_document := of_string "a.pdf";
     refined_text := of_string "ab";
     sa_page_number := 1 |}.

Definition padded_report : Report :=
  {| metadata :=
       {| input_documents := [of_string "a.pdf"];
          persona := of_string "Analyst";
          job_to_be_done := of_string "task";
          processing_timestamp := of_string "2026-01-01T00:00:00";
          description := Some (of_string "demo") |};
     extracted_sections :=
       [ {| es_document := of_string "a.pdf";
            section_title := of_string "T";
            importance_rank := 1;
            es_page_number := 1 |} ];
     subsection_analysis := [padded_entry] |}.

(** Nine sections that all clear the threshold 1. *)
Definition nine_pool : list DocSection :=
  [ toy_section "a" "b"; toy_section "a" "bbbbbbb"; toy_section "a" "bb";
    toy_section "a" "bbbbb"; toy_section "a" "bbbb"; toy_section "a" "bbbbbbbb";
    toy_section "a" "bbb"; toy_section "a" "bbbbbb"; toy_section "a" "bbbbbbbbb" ].

(** A page that is one paragraph of 30 characters. *)
Definition short_page : str := of_string "just thirty characters in all.".

(** ** Documents on disk and the loader *)

(** [s.endswith(suffix)] *)
Definition endswith (suffix s : str) : bool := is_prefix (rev suffix) (rev s).

(** A PDF as PyMuPDF presents it: the text of its pages, in order.  [None]
    stands for a page whose reading raises. *)
Definition PdfDocument : Type := list (option str).

(** The file system: [os.path.join], [os.path.exists] and [fitz.open],
    which raises ([None]) on a file it cannot read. *)
Class FileSystem := {
  path_join : str -> str -> str;
  path_exists : str -> bool;
  fitz_open : str -> option PdfDocument
}.

(** The lines the functions print, with the values they interpolate. *)
Inductive Message : Type :=
| MsgPdfError (pdf_path : str)
| MsgFileNotFound (filename : str)
| MsgUnsupported (filename : str)
| MsgUnknownParameter (key : str)
| MsgExtracted (n_sections n_documents : Z)
| MsgNoSections
| MsgFinding (task : str)
| MsgSaved (output_file : str).

(** The path settings of the class [Config]. *)
Record ConfigPaths := {
  FOLDER_PATH : str;
  INPUT_FILE : str;
  OUTPUT_FILE : str
}.

Definition default_paths : ConfigPaths := {|
  FOLDER_PATH := of_string "./pdfs";
  INPUT_FILE := of_string "input.json";
  OUTPUT_FILE := of_string "output.json"
|}.

Section Loader.

Context {U : UnicodeTables} {F : FileSystem}.
Variable cfg : Config.

(** [for page_num, page in enumerate(doc, 1)], from [page_num], with the
    pages collected so far.  The flag tells whether a page raised, which
    ends the loop. *)
Fixpoint pages_loop (page_num : Z) (doc : PdfDocument) (pages : list (Z * str))
  : list (Z * str) * bool :=
  match doc with
  | [] => (pages, false)
  | None :: _ => (pages, true)
  | Some raw :: doc' =>
      let text := strip raw in
      if truthy text
      then pages_loop (page_num + 1) doc' (pages ++ [(page_num, text)])
      else pages_loop (page_num + 1) doc' pages
  end.

(** The [try] block catches every exception: the message is printed and the
    pages collected before it are returned. *)
Definition extract_text_with_pages_from_pdf (pdf_path : str)
  : list Message * list (Z * str) :=
  match fitz_open pdf_path with
  | None => ([MsgPdfError pdf_path], [])
  | Some doc =>
      let '(pages, raised) := pages_loop 1 doc [] in
      (if raised then [MsgPdfError pdf_path] else [], pages)
  end.

(** [section['document'] = filename] *)
Definition set_document (filename : str) (s : DocSection) : DocSection :=
  {| title := title s;
     content := content s;
     page_number := page_number s;
     document := Some filename |}.

(** The sections of the pages of one document, tagged. *)
Definition page_sections (filename : str) (page : Z * str) : list DocSection :=
  let '(page_num, text) := page in
  map (set_document filename) (extract_sections_from_text cfg text page_num None).

(** The body of [for doc_info in input_documents]: what one document
    prints and what it appends to [all_sections]. *)
Definition load_document (folder_path : str) (doc_info : DocInfo)
  : list Message * list DocSection :=
  let filename := filename doc_info in
  let path := path_join folder_path filename in
  if negb (path_exists path) then ([MsgFileNotFound filename], [])
  else if endswith (of_string ".pdf") filename then
    let '(messages, pages) := extract_text_with_pages_from_pdf path in
    (messages, flat_map (page_sections filename) pages)
  else ([MsgUnsupported filename], []).

Definition load_step (folder_path : str) (acc : list Message * list DocSection)
           (doc_info : DocInfo) : list Message * list DocSection :=
  let '(messages, sections) := load_document folder_path doc_info in
  (fst acc ++ messages, snd acc ++ sections).

Definition load_documents_with_sections (folder_path : str)
           (input_documents : list DocInfo) : list Message * list DocSection :=
  fold_left (load_step folder_path) input_documents ([], []).

End Loader.

(** ** The run: from loading to saving *)

(** What a run does, in order: lines printed, uses of the encoder, the
    report written to a file. *)
Inductive MainEvent : Type :=
| Printed (m : Message)
| Encoder_use (e : Event)
| Written (output_file : str) (output_data : Report).

Inductive Outcome : Type :=
| Finished
| Exited
| Raised.

(** What else can raise in a run, besides the constructor of the model: a
    call of the encoder ([model.encode], [util.cos_sim]) and the writing of
    the report ([open(output_file, 'w')] and [json.dump]).  Each field
    tells whether the call raises on these arguments. *)
Class Faults {E : Encoder} := {
  encode_raises : model -> str -> bool;
  encode_batch_raises : model -> list str -> bool;
  cos_sim_raises : embedding -> batch -> bool;
  write_raises : str -> Report -> bool
}.

Section Main.

Context {U : UnicodeTables} {F : FileSystem} {E : Encoder} {X : Faults}.
Variable cfg : Config.
Variable paths : ConfigPaths.

(** The calls of the encoder in a run: the call is logged, then it raises
    or returns. *)
Definition run_encode (m : model) (text : str) : Run.M embedding :=
  _ <- Run.emit (EvEncode text) ;;
  if encode_raises m text then Run.raise else Run.ret (encode m text).

Definition run_encode_batch (m : model) (texts : list str) : Run.M batch :=
  _ <- Run.emit (EvEncodeBatch texts) ;;
  if encode_batch_raises m texts then Run.raise
  else Run.ret (encode_batch m texts).

Definition run_cos_sim (a : embedding) (b : batch) : Run.M (list spec_float) :=
  _ <- Run.emit EvCosSim ;;
  if cos_sim_raises a b then Run.raise else Run.ret (cos_sim_row a b).

(** [find_relevant_sections] as the main program runs it: the same
    statements, where every call of the encoder may raise. *)
Definition run_find_relevant_sections (task : str) (sections : list DocSection)
           (model_name : str) (top_n : Z) (min_similarity : spec_float)
  : Run.M (list ScoredSection) :=
  m <- construct_model model_name ;;
  if negb (truthy sections) then Run.ret []
  else
    let section_texts := map combined_text sections in
    task_embedding <- run_encode m task ;;
    section_embeddings <- run_encode_batch m section_texts ;;
    similarities <- run_cos_sim task_embedding section_embeddings ;;
    let scored := scored_sections min_similarity sections similarities in
    Run.ret (slice_to top_n (list_sort_reverse scored)).

(** The part of the main program from [load_documents_with_sections] to the
    message that the output is saved.  [exit()] ends the run when no
    section was found; an exception of the ranker, of the assembler or of
    the writing of the report ends it as [Raised], and nothing is printed
    after it. *)
Definition main_process (now : str) (input_data : InputData)
  : list MainEvent * Outcome :=
  let '(warnings, sections) :=
    load_documents_with_sections cfg (FOLDER_PATH paths) (documents input_data) in
  let log :=
    map Printed warnings
    ++ [Printed (MsgExtracted (len sections) (len (documents input_data)))] in
  if negb (truthy sections) then (log ++ [Printed MsgNoSections], Exited)
  else
    let task := job_task input_data in
    let log := log ++ [Printed (MsgFinding task)] in
    let run :=
      run_find_relevant_sections task sections (SIMILARITY_MODEL cfg)
        (TOP_N_SECTIONS cfg) (MIN_SIMILARITY_THRESHOLD cfg) in
    let log := log ++ map Encoder_use (Run.trace run) in
    match Run.result run with
    | None => (log, Raised)
    | Some relevant_sections =>
        match create_output_json cfg now input_data relevant_sections with
        | None => (log, Raised)
        | Some output_data =>
            if write_raises (OUTPUT_FILE paths) output_data then (log, Raised)
            else
              (log ++ [Written (OUTPUT_FILE paths) output_data;
                       Printed (MsgSaved (OUTPUT_FILE paths))],
               Finished)
        end
    end.

End Main.

(** ** [Config.update_config] *)

Section UpdateConfig.

(** The values of Python, and [str.upper()]. *)
Variable PyValue : Type.
Variable upper : str -> str.

Definition str_eqb (a b : str) : bool :=
  if list_eq_dec N.eq_dec a b then true else false.

(** The attributes of the class, by name. *)
Definition Attributes : Type := list (str * PyValue).

(** [getattr], [hasattr] *)
Fixpoint getattr (attrs : Attributes) (name : str) : option PyValue :=
  match attrs with
  | [] => None
  | (n, v) :: attrs' => if str_eqb n name then Some v else getattr attrs' name
  end.

Definition hasattr (attrs : Attributes) (name : str) : bool :=
  match getattr attrs name with
  | Some _ => true
  | None => false
  end.

(** [setattr]: the value of the attribute is replaced, or the attribute
    is added. *)
Fixpoint setattr (attrs : Attributes) (name : str) (value : PyValue) : Attributes :=
  match attrs with
  | [] => [(name, value)]
  | (n, v) :: attrs' =>
      if str_eqb n name then (n, value) :: attrs'
      else (n, v) :: setattr attrs' name value
  end.

(** One iteration of [for key, value in kwargs.items()]. *)
Definition update_step (acc : list Message * Attributes) (kv : str * PyValue)
  : list Message * Attributes :=
  let '(key, value) := kv in
  if hasattr (snd acc) (upper key)
  then (fst acc, setattr (snd acc) (upper key) value)
  else (fst acc ++ [MsgUnknownParameter key], snd acc).

Definition update_config (attrs : Attributes) (kwargs : list (str * PyValue))
  : list Message * Attributes :=
  fold_left update_step kwargs ([], attrs).

End UpdateConfig.

(** ** A toy disk for running the loader *)

Definition toy_body : str :=
  of_string "this is the body of the first section, long enough to be kept.".

(** Page 1 is blank, page 2 has a heading and a body, page 3 cannot be
    read. *)
Definition toy_page2 : str :=
  of_string "  INTRODUCTION" ++ [chr_nl] ++ toy_body ++ [chr_nl].

Definition toy_pdf : PdfDocument :=
  [ Some (of_string "   "); Some toy_page2; None; Some toy_body ].

Definition toy_path : str := of_string "./pdfs/a.pdf".

Definition toy_disk : FileSystem := {|
  path_join := fun a b => a ++ of_string "/" ++ b;
  path_exists := fun path =>
    str_eqb path (of_string "./pdfs/a.pdf")
    || str_eqb path (of_string "./pdfs/B.PDF")
    || str_eqb path (of_string "./pdfs/notes.txt");
  fitz_open := fun path =>
    if str_eqb path (of_string "./pdfs/a.pdf") then Some toy_pdf else None
|}.

(** A run in which no call raises, one in which the report cannot be
    written, and one in which the encoding of the sections raises. *)
Definition no_faults {E : Encoder} : Faults := {|
  encode_raises := fun _ _ => false;
  encode_batch_raises := fun _ _ => false;
  cos_sim_raises := fun _ _ => false;
  write_raises := fun _ _ => false
|}.

Definition unwritable {E : Encoder} : Faults := {|
  encode_raises := fun _ _ => false;
  encode_batch_raises := fun _ _ => false;
  cos_sim_raises := fun _ _ => false;
  write_raises := fun _ _ => true
|}.

Definition batch_fails {E : Encoder} : Faults := {|
  encode_raises := fun _ _ => false;
  encode_batch_raises := fun _ _ => true;
  cos_sim_raises := fun _ _ => false;
  write_raises := fun _ _ => false
|}.

Definition toy_doc (name : String.string) : DocInfo :=
  {| filename := of_string name; doc_title := of_string name |}.
Arguments toy_doc name%_string.

Definition toy_request : InputData :=
  {| documents := [toy_doc "a.pdf"; toy_doc "missing.pdf"; toy_doc "B.PDF";
                   toy_doc "notes.txt"];
     persona_role := of_string "Analyst";
     job_task := of_string "task";
     challenge_info := None |}.

Definition toy_loaded_section : DocSection :=
  {| title := of_string "INTRODUCTION";
     content := toy_body;
     page_number := 2;
     document := Some (of_string "a.pdf") |}.

(** The ranking of the pool loaded from the toy disk. *)
Definition toy_loaded_ranking : list ScoredSection :=
  [ {| section := toy_loaded_section;
       similarity := toy_similarity (combined_text toy_loaded_section);
       index := 0 |} ].

(** The whole ranking of [toy_pool] with threshold 4. *)
Definition toy_full_ranking : list ScoredSection :=
  toy_ranking
  ++ [ {| section := toy_section "e" "ff";
          similarity := S754_finite false 4 0; index := 3 |} ].

(** ** Notions used in the statements about the loader *)

(** A page that can be read. *)
Definition page_readable (p : option str) : bool :=
  match p with
  | Some _ => true
  | None => false
  end.

(** The numbered pages of a document, from number [page_num]: the pages
    before the first one that cannot be read, without the blank ones. *)
Fixpoint read_pages (page_num : Z) (doc : PdfDocument) : list (Z * str) :=
  match doc with
  | [] => []
  | None :: _ => []
  | Some raw :: doc' =>
      (if truthy (strip raw) then [(page_num, strip raw)] else [])
      ++ read_pages (page_num + 1) doc'
  end.

(** A requested document that the loader reads: it exists and its name
    ends with [".pdf"]. *)
Definition usable {F : FileSystem} (folder_path : str) (doc_info : DocInfo) : bool :=
  path_exists (path_join folder_path (filename doc_info))
  && endswith (of_string ".pdf") (filename doc_info).

(** The warning for a document that is not read. *)
Definition skip_warning {F : FileSystem} (folder_path : str) (doc_info : DocInfo)
  : Message :=
  if path_exists (path_join folder_path (filename doc_info))
  then MsgUnsupported (filename doc_info)
  else MsgFileNotFound (filename doc_info).

(** ** Notions used in the statements about refined texts *)

(** Every whitespace character is a plain space that is not followed by
    another whitespace character. *)
Fixpoint single_spaced (s : str) : bool :=
  match s with
  | [] => true
  | c :: s' =>
      (if isspace c then N.eqb c chr_space && negb (starts_with_ws s') else true)
      && single_spaced s'
  end.

(** ** Pages for running the fallbacks *)

Definition two_par_1 : str :=
  of_string "the first paragraph of this page has sixty characters in it.".

Definition two_par_2 : str :=
  of_string "and the second one is a little longer than that, as it happens.".

(** Two paragraphs that reach the default threshold, and no heading. *)
Definition two_paragraph_page : str :=
  two_par_1 ++ [chr_nl; chr_nl] ++ two_par_2.

Definition two_par_section_1 : DocSection :=
  {| title := of_string "the first paragraph of this page has sixty...";
     content := two_par_1;
     page_number := 1;
     document := None |}.

Definition two_par_section_2 : DocSection :=
  {| title := of_string "and the second one is a little longer...";
     content := two_par_2;
     page_number := 1;
     document := None |}.

(** Two paragraphs below the default threshold on a page that reaches
    it. *)
Definition short_paragraphs_page : str :=
  of_string "a short first paragraph." ++ [chr_nl; chr_nl]
  ++ of_string "a short second paragraph, too.".

Definition short_paragraphs_section : DocSection :=
  {| title := of_string "a short first paragraph. a short second paragraph, too.";
     content := short_paragraphs_page;
     page_number := 1;
     document := None |}.

(** * Properties *)

(** ** Regular expressions: the matcher decides the matching relation *)

Section RegexFacts.

Lemma nullable_matches r : nullable r = true <-> matches r [].
Proof.
  induction r as [| |p|r1 IH1 r2 IH2|r1 IH1 r2 IH2|r IH]; simpl.
  - split; [discriminate | inversion 1].
  - split; [constructor | reflexivity].
  - split; [discriminate | inversion 1].
  - rewrite andb_true_iff, IH1, IH2; split.
    + intros [H1 H2]; exact (MCat _ _ [] [] H1 H2).
    + inversion 1 as [| |? ? s1 s2 H1 H2 Hs| | | |]; subst.
      apply app_eq_nil in H3 as [-> ->]; now split.
  - rewrite orb_true_iff, IH1, IH2; split.
    + intros [H|H]; [now apply MAltL | now apply MAltR].
    + inversion 1; subst; [now left | now right].
  - split; [constructor | reflexivity].
Qed.

Lemma deriv_sound c r s : matches (deriv c r) s -> matches r (c :: s).
Proof.
  revert s; induction r as [| |p|r1 IH1 r2 IH2|r1 IH1 r2 IH2|r IH];
    simpl; intros s H.
  - inversion H.
  - inversion H.
  - destruct (p c) eqn:Hp; inversion H; subst; now constructor.
  - inversion H as [| | |? ? ? H1|? ? ? H1| |]; subst.
    + inversion H1; subst.
      change (c :: s1 ++ s2) with ((c :: s1) ++ s2); constructor; auto.
    + destruct (nullable r1) eqn:Hn; [|inversion H1].
      apply nullable_matches in Hn.
      exact (MCat _ _ [] (c :: s) Hn (IH2 _ H1)).
  - inversion H; subst; [apply MAltL | apply MAltR]; auto.
  - inversion H; subst.
    change (c :: s1 ++ s2) with ((c :: s1) ++ s2); constructor; auto.
Qed.

Lemma deriv_complete r s' :
  matches r s' -> forall c s, s' = c :: s -> matches (deriv c r) s.
Proof.
  induction 1 as [|p d Hp|r1 r2 s1 s2 H1 IH1 H2 IH2|r1 r2 s0 H1 IH1
                  |r1 r2 s0 H1 IH1| |r s1 s2 H1 IH1 H2 IH2];
    intros c s Heq; simpl.
  - discriminate.
  - injection Heq as -> <-; rewrite Hp; constructor.
  - destruct s1 as [|d s1]; simpl in Heq.
    + apply MAltR.
      apply nullable_matches in H1; rewrite H1; now apply IH2.
    + injection Heq as -> <-; apply MAltL; constructor; auto.
  - apply MAltL; auto.
  - apply MAltR; auto.
  - discriminate.
  - destruct s1 as [|d s1]; simpl in Heq.
    + now apply IH2.
    + injection Heq as -> <-; constructor; auto.
Qed.

Lemma fullmatch_matches r s : fullmatch r s = true <-> matches r s.
Proof.
  revert r; induction s as [|c s IH]; intros r; simpl.
  - apply nullable_matches.
  - rewrite IH; split; [apply deriv_sound|].
    intros H; eapply deriv_complete; eauto.
Qed.

(** [match_prefix] finds a prefix that matches. *)
Lemma match_prefix_matches r s :
  match_prefix r s = true <-> exists p q, s = p ++ q /\ matches r p.
Proof.
  revert r; induction s as [|c s IH]; intros r; simpl.
  - rewrite orb_false_r, nullable_matches; split.
    + intros H; now exists [], [].
    + intros [p [q [Hs H]]]; symmetry in Hs.
      apply app_eq_nil in Hs as [-> _]; exact H.
  - rewrite orb_true_iff, nullable_matches, IH; split.
    + intros [H|[p [q [-> H]]]].
      * now exists [], (c :: s).
      * exists (c :: p), q; split; [reflexivity | now apply deriv_sound].
    + intros [[|d p] [q [Hs H]]]; [now left|].
      injection Hs as <- ->; right; exists p, q; split; [reflexivity|].
      eapply deriv_complete; eauto.
Qed.

End RegexFacts.

(** ** Strings: stripping and whitespace collapsing *)

Section StringFacts.

Lemma isspace_space : isspace chr_space = true.
Proof. reflexivity. Qed.

Lemma lstrip_fixed s : starts_with_ws s = false -> lstrip s = s.
Proof. destruct s as [|c s]; simpl; intros H; [reflexivity | now rewrite H]. Qed.

Lemma lstrip_starts s : starts_with_ws (lstrip s) = false.
Proof.
  induction s as [|c s IH]; simpl; [reflexivity|].
  destruct (isspace c) eqn:Hc; [exact IH | simpl; exact Hc].
Qed.

(** [lstrip] removes a prefix made of whitespace. *)
Lemma lstrip_split s :
  exists p, s = p ++ lstrip s /\ forallb isspace p = true.
Proof.
  induction s as [|c s [p [Hs Hp]]]; simpl.
  - exists []; split; reflexivity.
  - destruct (isspace c) eqn:Hc.
    + exists (c :: p); simpl; rewrite Hc, Hp; split; [now f_equal | reflexivity].
    + exists []; split; reflexivity.
Qed.

Lemma lstrip_length s : (length (lstrip s) <= length s)%nat.
Proof.
  destruct (lstrip_split s) as [p [Hs _]].
  rewrite Hs at 2; rewrite length_app; lia.
Qed.

Lemma rstrip_length s : (length (rstrip s) <= length s)%nat.
Proof.
  unfold rstrip; rewrite length_rev.
  etransitivity; [apply lstrip_length | now rewrite length_rev].
Qed.

Lemma strip_length s : (length (strip s) <= length s)%nat.
Proof.
  unfold strip; etransitivity; [apply rstrip_length | apply lstrip_length].
Qed.

Lemma rstrip_ends s : ends_with_ws (rstrip s) = false.
Proof. unfold ends_with_ws, rstrip; rewrite rev_involutive; apply lstrip_starts. Qed.

Lemma rstrip_fixed s : ends_with_ws s = false -> rstrip s = s.
Proof.
  unfold ends_with_ws, rstrip; intros H.
  rewrite (lstrip_fixed _ H); apply rev_involutive.
Qed.

(** [rstrip] removes a suffix made of whitespace. *)
Lemma rstrip_split s :
  exists q, s = rstrip s ++ q /\ forallb isspace q = true.
Proof.
  destruct (lstrip_split (rev s)) as [p [Hs Hp]].
  exists (rev p); split.
  - unfold rstrip; rewrite <- rev_app_distr, <- Hs; symmetry; apply rev_involutive.
  - rewrite forallb_forall in *; intros x Hx; apply Hp; now apply in_rev.
Qed.

(** Stripping the right end keeps a non-whitespace first character. *)
Lemma rstrip_starts s : starts_with_ws s = false -> starts_with_ws (rstrip s) = false.
Proof.
  intros H; destruct (rstrip_split s) as [q [Hs Hq]].
  destruct (rstrip s) as [|c r] eqn:Hr; [reflexivity|].
  rewrite Hs in H; exact H.
Qed.

Lemma strip_starts s : starts_with_ws (strip s) = false.
Proof. unfold strip; apply rstrip_starts, lstrip_starts. Qed.

Lemma strip_ends s : ends_with_ws (strip s) = false.
Proof. unfold strip; apply rstrip_ends. Qed.

Lemma strip_fixed s :
  starts_with_ws s = false -> ends_with_ws s = false -> strip s = s.
Proof.
  intros H1 H2; unfold strip; rewrite (lstrip_fixed _ H1); now apply rstrip_fixed.
Qed.

Lemma strip_idempotent s : strip (strip s) = strip s.
Proof. apply strip_fixed; [apply strip_starts | apply strip_ends]. Qed.

Lemma ends_with_ws_app s w c :
  ends_with_ws (s ++ w ++ [c]) = isspace c.
Proof.
  unfold ends_with_ws; rewrite !rev_app_distr; reflexivity.
Qed.

(** Collapsing: the result is no longer than the argument. *)
Lemma sub_ws_aux_length b s : (length (sub_ws_aux b s) <= length s)%nat.
Proof.
  revert b; induction s as [|c s IH]; intros b; simpl; [lia|].
  pose proof (IH true); pose proof (IH false).
  destruct (isspace c); [destruct b|]; simpl; lia.
Qed.

Lemma sub_ws_aux_idempotent b s :
  sub_ws_aux b (sub_ws_aux b s) = sub_ws_aux b s.
Proof.
  revert b; induction s as [|c s IH]; intros b; simpl; [reflexivity|].
  destruct (isspace c) eqn:Hc.
  - destruct b; [apply IH|].
    cbn [sub_ws_aux]; rewrite isspace_space; f_equal; apply IH.
  - simpl; rewrite Hc; f_equal; apply IH.
Qed.

Lemma sub_ws_idempotent s : sub_ws (sub_ws s) = sub_ws s.
Proof. apply sub_ws_aux_idempotent. Qed.

(** A piece without whitespace is copied as it is. *)
Lemma sub_ws_aux_solid b w :
  forallb (fun c => negb (isspace c)) w = true -> sub_ws_aux b w = w.
Proof.
  revert b; induction w as [|c w IH]; intros b H; simpl in *; [reflexivity|].
  apply andb_prop in H as [Hc Hw].
  apply negb_true_iff in Hc; rewrite Hc; f_equal; now apply IH.
Qed.

(** Collapsing a string that ends with such a piece. *)
Lemma sub_ws_aux_app_solid b s w :
  forallb (fun c => negb (isspace c)) w = true ->
  sub_ws_aux b (s ++ w) = sub_ws_aux b s ++ w.
Proof.
  intros Hw; revert b; induction s as [|c s IH]; intros b; simpl.
  - now apply sub_ws_aux_solid.
  - destruct (isspace c); [destruct b|]; simpl; now rewrite IH.
Qed.

Lemma sub_ws_starts s : starts_with_ws s = false -> starts_with_ws (sub_ws s) = false.
Proof.
  destruct s as [|c s]; simpl; [reflexivity|].
  intros Hc; unfold sub_ws; simpl; rewrite Hc; simpl; exact Hc.
Qed.

Lemma sub_ws_ends s : ends_with_ws s = false -> ends_with_ws (sub_ws s) = false.
Proof.
  destruct (rev s) as [|c r] eqn:Hr.
  - intros _. apply (f_equal (@rev char)) in Hr; rewrite rev_involutive in Hr.
    subst s; reflexivity.
  - apply (f_equal (@rev char)) in Hr; rewrite rev_involutive in Hr; simpl in Hr.
    subst s; unfold ends_with_ws at 1; rewrite rev_app_distr; simpl; intros Hc.
    unfold sub_ws; rewrite sub_ws_aux_app_solid by (simpl; now rewrite Hc).
    rewrite <- (app_nil_l [c]) at 1.
    rewrite ends_with_ws_app; exact Hc.
Qed.

(** [s[:n]] *)
Lemma slice_to_length {A} n (s : list A) : 0 <= n -> len (slice_to n s) <= n.
Proof.
  intros Hn; unfold slice_to, len.
  destruct (Z.leb_spec 0 n); [|lia].
  rewrite length_firstn; lia.
Qed.

Lemma slice_to_all {A} n (s : list A) : len s <= n -> slice_to n s = s.
Proof.
  unfold slice_to, len; intros H.
  destruct (Z.leb_spec 0 n); [|lia].
  apply firstn_all2; lia.
Qed.

Lemma slice_to_firstn {A} n (s : list A) :
  0 <= n -> slice_to n s = firstn (Z.to_nat n) s.
Proof. unfold slice_to; intros H; destruct (Z.leb_spec 0 n); [reflexivity | lia]. Qed.

(** A slice is a prefix. *)
Lemma slice_to_prefix {A} n (s : list A) : exists r, s = slice_to n s ++ r.
Proof.
  unfold slice_to; destruct (0 <=? n);
    eexists; symmetry; apply firstn_skipn.
Qed.

End StringFacts.

(** ** Report assembler *)

Section AssemblerFacts.

Variable cfg : Config.

Lemma refine_text_starts content : starts_with_ws (refine_text cfg content) = false.
Proof. unfold refine_text; apply sub_ws_starts, strip_starts. Qed.

Lemma refine_text_ends content : ends_with_ws (refine_text cfg content) = false.
Proof. unfold refine_text; apply sub_ws_ends, strip_ends. Qed.

Lemma refine_text_length content :
  0 <= MAX_REFINED_TEXT_LENGTH cfg ->
  len (refine_text cfg content) <= MAX_REFINED_TEXT_LENGTH cfg.
Proof.
  intros H; unfold refine_text, sub_ws.
  pose proof (sub_ws_aux_length false
                (strip (slice_to (MAX_REFINED_TEXT_LENGTH cfg) content))).
  pose proof (strip_length (slice_to (MAX_REFINED_TEXT_LENGTH cfg) content)).
  pose proof (slice_to_length (MAX_REFINED_TEXT_LENGTH cfg) content H).
  unfold len in *; lia.
Qed.

(** The strings the transform leaves alone. *)
Lemma refine_text_fixed s :
  len s <= MAX_REFINED_TEXT_LENGTH cfg ->
  starts_with_ws s = false -> ends_with_ws s = false -> sub_ws s = s ->
  refine_text cfg s = s.
Proof.
  intros Hl H1 H2 H3; unfold refine_text.
  rewrite (slice_to_all _ _ Hl), (strip_fixed _ H1 H2); exact H3.
Qed.

(** Stripping a string that ends with a solid piece keeps the piece. *)
Lemma strip_keeps_solid_end pre w :
  w <> [] -> solid w = true -> exists r, strip (pre ++ w) = r ++ w.
Proof.
  intros Hne Hw.
  assert (Hend : forall x, ends_with_ws (x ++ w) = false).
  { intros x; destruct (rev w) as [|c r] eqn:Hr.
    - apply (f_equal (@rev char)) in Hr; rewrite rev_involutive in Hr; now subst.
    - apply (f_equal (@rev char)) in Hr; rewrite rev_involutive in Hr; simpl in Hr.
      subst w; rewrite ends_with_ws_app.
      unfold solid in Hw; rewrite forallb_app in Hw.
      apply andb_prop in Hw as [_ Hc]; simpl in Hc.
      now destruct (isspace c). }
  assert (Hl : exists r, lstrip (pre ++ w) = r ++ w).
  { induction pre as [|c pre IH]; simpl.
    - exists []; simpl; apply lstrip_fixed.
      destruct w as [|d w]; [congruence|]; simpl in *.
      apply andb_prop in Hw as [Hd _]; now destruct (isspace d).
    - destruct (isspace c); [exact IH | now exists (c :: pre)]. }
  destruct Hl as [r Hr]; exists r.
  unfold strip; rewrite Hr; apply rstrip_fixed, Hend.
Qed.

Lemma analysis_loop_nth l out :
  analysis_loop cfg l = Some out ->
  length out = length l /\
  forall i item, nth_error l i = Some item ->
    exists d, document (section item) = Some d /\
      nth_error out i =
        Some {| sa_document := d;
                refined_text := refine_text cfg (content (section item));
                sa_page_number := page_number (section item) |}.
Proof.
  revert out; induction l as [|x l IH]; simpl; intros out H.
  - injection H as <-; split; [reflexivity|].
    intros [|i] item Hi; discriminate.
  - destruct (document (section x)) as [d|] eqn:Hd; [|discriminate].
    destruct (analysis_loop cfg l) as [rest|]; [|discriminate].
    injection H as <-; destruct (IH rest eq_refl) as [Hlen Hnth].
    split; [simpl; now f_equal|].
    intros [|i] item Hi; simpl in *.
    + injection Hi as <-; exists d; split; [exact Hd | reflexivity].
    + now apply Hnth.
Qed.

Lemma extracted_loop_nth k l out :
  extracted_loop k l = Some out ->
  length out = length l /\
  forall i item, nth_error l i = Some item ->
    exists d, document (section item) = Some d /\
      nth_error out i =
        Some {| es_document := d;
                section_title := title (section item);
                importance_rank := k + Z.of_nat i;
                es_page_number := page_number (section item) |}.
Proof.
  revert k out; induction l as [|x l IH]; simpl; intros k out H.
  - injection H as <-; split; [reflexivity|].
    intros [|i] item Hi; discriminate.
  - destruct (document (section x)) as [d|] eqn:Hd; [|discriminate].
    destruct (extracted_loop (k + 1) l) as [rest|] eqn:Hrest; [|discriminate].
    injection H as <-; destruct (IH _ _ Hrest) as [Hlen Hnth].
    split; [simpl; now f_equal|].
    intros [|i] item Hi; cbn [nth_error] in *.
    + injection Hi as <-; exists d; split; [exact Hd|].
      now rewrite Z.add_0_r.
    + destruct (Hnth _ _ Hi) as [d' [Hd' Hout]]; exists d'; split; [exact Hd'|].
      rewrite Hout.
      replace (k + Z.of_nat (S i)) with (k + 1 + Z.of_nat i) by lia.
      reflexivity.
Qed.

(** Neither loop raises when every section carries its document. *)
Lemma extracted_loop_total k l :
  (forall item, In item l -> document (section item) <> None) ->
  exists out, extracted_loop k l = Some out.
Proof.
  revert k; induction l as [|x l IH]; simpl; intros k H; [now eexists|].
  destruct (document (section x)) eqn:Hd; [|now destruct (H x (or_introl eq_refl))].
  destruct (IH (k + 1)) as [rest ->]; [intros; apply H; now right | now eexists].
Qed.

Lemma analysis_loop_total l :
  (forall item, In item l -> document (section item) <> None) ->
  exists out, analysis_loop cfg l = Some out.
Proof.
  induction l as [|x l IH]; simpl; intros H; [now eexists|].
  destruct (document (section x)) eqn:Hd; [|now destruct (H x (or_introl eq_refl))].
  destruct IH as [rest ->]; [intros; apply H; now right | now eexists].
Qed.

(** Every entry of the analysis list comes from an entry of the input. *)
Lemma analysis_loop_In l out a :
  analysis_loop cfg l = Some out -> In a out ->
  exists item, In item l /\
    refined_text a = refine_text cfg (content (section item)).
Proof.
  intros H Ha; apply In_nth_error in Ha as [i Hi].
  destruct (analysis_loop_nth _ _ H) as [Hlen Hnth].
  assert (Hlt : (i < length l)%nat).
  { rewrite <- Hlen; apply nth_error_Some; congruence. }
  destruct (nth_error l i) as [item|] eqn:Hitem;
    [|apply nth_error_None in Hitem; lia].
  destruct (Hnth _ _ Hitem) as [d [_ Hout]].
  exists item; split; [eapply nth_error_In; eauto|].
  rewrite Hi in Hout; injection Hout as ->; reflexivity.
Qed.

Lemma create_output_json_analysis now input_data relevant report :
  create_output_json cfg now input_data relevant = Some report ->
  extracted_loop 1 relevant = Some (extracted_sections report) /\
  analysis_loop cfg relevant = Some (subsection_analysis report).
Proof.
  unfold create_output_json.
  destruct (extracted_loop 1 relevant); [|discriminate].
  destruct (analysis_loop cfg relevant); [|discriminate].
  intros H; injection H as <-; split; reflexivity.
Qed.

End AssemblerFacts.

(** C5. Whenever every ranked section carries its document, the report is
    produced; its two lists are as long as the ranked list, entry [i] of
    each is built from the section of the [i]-th ranked entry (same
    document, same page number), and the [importance_rank] of entry [i] is
    [i + 1]. *)
Theorem create_output_json_aligned :
  forall cfg now input_data relevant,
    (forall item, In item relevant -> document (section item) <> None) ->
    exists report,
      create_output_json cfg now input_data relevant = Some report /\
      length (extracted_sections report) = length (subsection_analysis report) /\
      length (extracted_sections report) = length relevant /\
      forall i item, nth_error relevant i = Some item ->
        exists e a,
          nth_error (extracted_sections report) i = Some e /\
          nth_error (subsection_analysis report) i = Some a /\
          document (section item) = Some (es_document e) /\
          document (section item) = Some (sa_document a) /\
          es_document e = sa_document a /\
          es_page_number e = page_number (section item) /\
          sa_page_number a = page_number (section item) /\
          es_page_number e = sa_page_number a /\
          section_title e = title (section item) /\
          refined_text a = refine_text cfg (content (section item)) /\
          importance_rank e = Z.of_nat i + 1.
Proof.
  intros cfg now input_data relevant Hdoc.
  destruct (extracted_loop_total 1 relevant Hdoc) as [ex Hex].
  destruct (analysis_loop_total cfg relevant Hdoc) as [an Han].
  eexists; split; [unfold create_output_json; rewrite Hex, Han; reflexivity|].
  simpl.
  destruct (extracted_loop_nth _ _ _ Hex) as [Hlen1 Hn1].
  destruct (analysis_loop_nth _ _ _ Han) as [Hlen2 Hn2].
  split; [congruence|]; split; [exact Hlen1|].
  intros i item Hi.
  destruct (Hn1 _ _ Hi) as [d [Hd He]], (Hn2 _ _ Hi) as [d' [Hd' Ha]].
  assert (d' = d) by congruence; subst d'.
  do 2 eexists; split; [exact He|]; split; [exact Ha|].
  cbn [es_document sa_document es_page_number sa_page_number section_title
       refined_text importance_rank].
  repeat split; try assumption; lia.
Qed.

(** C8. With a non-negative limit, applying the transform to one of its
    own outputs gives that output back; more generally it leaves alone
    every string that is within the limit, has no whitespace at either end
    and is already collapsed. *)
Theorem refine_text_idempotent :
  forall cfg content,
    0 <= MAX_REFINED_TEXT_LENGTH cfg ->
    refine_text cfg (refine_text cfg content) = refine_text cfg content /\
    (forall s,
        len s <= MAX_REFINED_TEXT_LENGTH cfg ->
        strip s = s -> sub_ws s = s ->
        refine_text cfg s = s).
Proof.
  intros cfg content Hmax; split.
  - apply refine_text_fixed.
    + now apply refine_text_length.
    + apply refine_text_starts.
    + apply refine_text_ends.
    + unfold refine_text; apply sub_ws_idempotent.
  - intros s Hl Hs Hc; unfold refine_text.
    now rewrite (slice_to_all _ _ Hl), Hs.
Qed.

(** C10. No refined text of a produced report starts or ends with a
    whitespace character, whatever the limit and wherever the cut lands. *)
Theorem refined_text_stripped :
  forall cfg now input_data relevant report a,
    create_output_json cfg now input_data relevant = Some report ->
    In a (subsection_analysis report) ->
    starts_with_ws (refined_text a) = false /\
    ends_with_ws (refined_text a) = false /\
    strip (refined_text a) = refined_text a.
Proof.
  intros cfg now input_data relevant report a Hrep Ha.
  apply create_output_json_analysis in Hrep as [_ Han].
  destruct (analysis_loop_In _ _ _ _ Han Ha) as [item [_ ->]].
  pose proof (refine_text_starts cfg (content (section item))) as H1.
  pose proof (refine_text_ends cfg (content (section item))) as H2.
  repeat split; try assumption; now apply strip_fixed.
Qed.

(** ** Section extractor *)

Section ExtractorFacts.

Context {U : UnicodeTables}.
Variable cfg : Config.

Lemma first_match_existsb criteria line :
  first_match criteria line = existsb (fun c => c line) criteria.
Proof.
  induction criteria as [|c rest IH]; simpl; [reflexivity|].
  rewrite IH; now destruct (c line).
Qed.

Lemma first_match_perm criteria criteria' line :
  Permutation criteria criteria' ->
  first_match criteria line = first_match criteria' line.
Proof.
  intros H; rewrite !first_match_existsb.
  apply eq_true_iff_eq; rewrite !existsb_exists.
  split; intros [c [Hin Hc]]; exists c; split; try assumption.
  - eapply Permutation_in; eauto.
  - eapply Permutation_in; [apply Permutation_sym|]; eauto.
Qed.

Lemma is_heading_first_match line :
  is_heading cfg line
  = (len line <? MAX_HEADING_LENGTH cfg) && first_match (heading_criteria cfg) line.
Proof.
  unfold is_heading, heading_criteria; simpl.
  destruct (len line <? MAX_HEADING_LENGTH cfg); reflexivity.
Qed.

Lemma flush_long_enough page m st :
  Forall (long_enough m) (sections st) ->
  Forall (long_enough m) (flush page m st).
Proof.
  intros H; unfold flush.
  destruct (truthy (current_title st) && truthy (current_section st)
            && (m <=? len (strip (current_section st)))) eqn:Hc;
    [|exact H].
  apply Forall_app; split; [exact H|].
  constructor; [|constructor].
  apply andb_prop in Hc as [_ Hc]; apply Z.leb_le in Hc.
  unfold long_enough; simpl; rewrite strip_idempotent; now split.
Qed.

Lemma line_step_long_enough page m st line :
  Forall (long_enough m) (sections st) ->
  Forall (long_enough m) (sections (line_step cfg page m st line)).
Proof.
  intros H; unfold line_step.
  destruct (negb (truthy (strip line))); [exact H|].
  destruct (is_heading cfg (strip line)); simpl; [|exact H].
  now apply flush_long_enough.
Qed.

Lemma loop_long_enough page m lines st :
  Forall (long_enough m) (sections st) ->
  Forall (long_enough m)
         (sections (fold_left (line_step cfg page m) lines st)).
Proof.
  revert st; induction lines as [|l lines IH]; simpl; intros st H; [exact H|].
  now apply IH, line_step_long_enough.
Qed.

Lemma heading_sections_long_enough text page m :
  Forall (long_enough m) (heading_sections cfg text page m).
Proof.
  unfold heading_sections; apply flush_long_enough, loop_long_enough.
  constructor.
Qed.

Lemma paragraphs_of_stripped text p :
  In p (paragraphs_of text) -> strip p = p /\ p <> [].
Proof.
  unfold paragraphs_of; rewrite in_flat_map; intros [q [_ Hq]].
  destruct (strip q) as [|c r] eqn:Hs; simpl in Hq; [contradiction|].
  destruct Hq as [<-|[]]; rewrite <- Hs; split; [apply strip_idempotent|].
  rewrite Hs; discriminate.
Qed.

(** The sections the paragraph loop makes. *)
Lemma in_paragraph_sections page m paragraphs s :
  In s (flat_map (paragraph_section page m) paragraphs) <->
  exists p, In p paragraphs /\ m <= len p /\
    s = mk_section (title_of_words 8 (split_ws p)) p page.
Proof.
  rewrite in_flat_map; unfold paragraph_section; split.
  - intros [p [Hp Hs]]; exists p; split; [exact Hp|].
    destruct (Z.leb_spec m (len p)); simpl in Hs; [|contradiction].
    destruct Hs as [<-|[]]; now split.
  - intros [p [Hp [Hm ->]]]; exists p; split; [exact Hp|].
    destruct (Z.leb_spec m (len p)); [now left | lia].
Qed.

Lemma strategy3_added_long_enough text page m secs :
  Forall (long_enough m) (strategy3_added text page m secs).
Proof.
  unfold strategy3_added.
  destruct (negb (truthy secs) && truthy (paragraphs_of text)); [|constructor].
  apply Forall_forall; intros s Hs.
  apply in_paragraph_sections in Hs as [p [Hp [Hm ->]]].
  apply paragraphs_of_stripped in Hp as [Hp _].
  unfold long_enough; simpl; rewrite Hp; now split.
Qed.

Lemma strategy4_added_long_enough text page m secs :
  Forall (long_enough m) (strategy4_added text page m secs).
Proof.
  unfold strategy4_added.
  destruct (negb (truthy secs)); simpl; [|constructor].
  destruct (Z.leb_spec m (len (strip text))); constructor; [|constructor].
  unfold long_enough; simpl; rewrite strip_idempotent; now split.
Qed.

Lemma truthy_false {A} (l : list A) : truthy l = false <-> l = [].
Proof. destruct l; simpl; split; congruence. Qed.

Lemma truthy_true {A} (l : list A) : truthy l = true <-> l <> [].
Proof. destruct l; simpl; split; congruence. Qed.

End ExtractorFacts.

(** C3. Every section that [extract_sections_from_text] returns, from
    whichever strategy, has a content whose stripped length is at least the
    threshold in force (the argument, or the configured default); the
    content is in fact already stripped. *)
Theorem extract_sections_min_length :
  forall (U : UnicodeTables) cfg text page_number min_section_length s,
    In s (extract_sections_from_text cfg text page_number min_section_length) ->
    effective_min cfg min_section_length <= len (strip (content s)) /\
    strip (content s) = content s.
Proof.
  intros U cfg text page m s; unfold extract_sections_from_text.
  set (min := effective_min cfg m).
  set (hs := heading_sections cfg text page min).
  set (ps := strategy3_added text page min hs).
  intros Hs.
  assert (H : Forall (long_enough min) ((hs ++ ps)
                      ++ strategy4_added text page min (hs ++ ps))).
  { repeat (apply Forall_app; split).
    - apply heading_sections_long_enough.
    - apply strategy3_added_long_enough.
    - apply strategy4_added_long_enough. }
  rewrite Forall_forall in H; exact (H s Hs).
Qed.

(** The three blocks: what each adds, and when. *)
Lemma extract_sections_blocks :
  forall (U : UnicodeTables) cfg text page_number min_section_length,
    let m := effective_min cfg min_section_length in
    let hs := heading_sections cfg text page_number m in
    let ps := strategy3_added text page_number m hs in
    let ws := strategy4_added text page_number m (hs ++ ps) in
    extract_sections_from_text cfg text page_number min_section_length
      = hs ++ ps ++ ws /\
    (ps <> [] <->
       hs = [] /\ exists p, In p (paragraphs_of text) /\ m <= len p) /\
    (forall s, In s ps <->
       hs = [] /\
       exists p, In p (paragraphs_of text) /\ m <= len p /\
         s = {| title :=
                  join [chr_space] (firstn 8 (split_ws p))
                  ++ (if 8 <? len (split_ws p) then of_string "..." else []);
                content := p;
                page_number := page_number;
                document := None |}) /\
    (ws <> [] <-> hs = [] /\ ps = [] /\ m <= len (strip text)) /\
    (ws <> [] -> ws = [whole_page_section text page_number]) /\
    (hs <> [] -> ps = [] /\ ws = []) /\
    (ps <> [] -> ws = []).
Proof.
  intros U cfg text page msl m hs ps ws.
  assert (Hin : forall s, In s ps <->
       hs = [] /\
       exists p, In p (paragraphs_of text) /\ m <= len p /\
         s = mk_section (title_of_words 8 (split_ws p)) p page).
  { intros s; unfold ps, strategy3_added.
    destruct hs as [|h hs'] eqn:Hhs; simpl.
    - destruct (paragraphs_of text) as [|q qs] eqn:Hq.
      + simpl; split; [contradiction|]. intros [_ [p [[] _]]].
      + cbn [truthy]; rewrite in_paragraph_sections; split.
        * intros H; split; [reflexivity | exact H].
        * intros [_ H]; exact H.
    - split; [contradiction | intros [H _]; discriminate]. }
  assert (Hps : ps <> [] <->
       hs = [] /\ exists p, In p (paragraphs_of text) /\ m <= len p).
  { split.
    - intros Hne; destruct ps as [|s ps'] eqn:Hp; [congruence|].
      destruct (proj1 (Hin s) (or_introl eq_refl)) as [Hh [p [Hp1 [Hp2 _]]]].
      split; [exact Hh | now exists p].
    - intros [Hh [p [Hp1 Hp2]]] Hnil.
      assert (In (mk_section (title_of_words 8 (split_ws p)) p page) ps)
        by (apply Hin; split; [exact Hh | now exists p]).
      rewrite Hnil in H; contradiction. }
  assert (Hws : ws <> [] <-> hs = [] /\ ps = [] /\ m <= len (strip text)).
  { unfold ws, strategy4_added.
    destruct (hs ++ ps) as [|x xs] eqn:Happ; simpl.
    - apply app_eq_nil in Happ as [-> ->].
      destruct (Z.leb_spec m (len (strip text))); split.
      + intros _; now repeat split.
      + intros _; discriminate.
      + congruence.
      + intros [_ [_ H']]; lia.
    - split; [congruence|]. intros [H1 [H2 _]]; rewrite H1, H2 in Happ; discriminate. }
  split; [unfold extract_sections_from_text; fold m hs ps ws; now rewrite app_assoc|].
  split; [exact Hps|]; split; [exact Hin|]; split; [exact Hws|].
  repeat split.
  - unfold ws, strategy4_added.
    destruct (negb (truthy (hs ++ ps)) && (m <=? len (strip text)));
      [reflexivity | congruence].
  - destruct ps as [|s ps'] eqn:Hp; [reflexivity|].
    destruct (proj1 Hps) as [Hh _]; [discriminate | contradiction].
  - destruct ws as [|w ws'] eqn:Hw; [reflexivity|].
    destruct (proj1 Hws) as [Hh _]; [discriminate | contradiction].
  - intros Hne; destruct ws as [|w ws'] eqn:Hw; [reflexivity|].
    destruct (proj1 Hws) as [_ [Hp _]]; [discriminate | contradiction].
Qed.

Lemma paragraphs_of_filter text :
  paragraphs_of text
  = filter (fun p => match p with [] => false | _ :: _ => true end)
           (map strip (split [chr_nl; chr_nl] text)).
Proof.
  unfold paragraphs_of.
  induction (split [chr_nl; chr_nl] text) as [|q l IH]; simpl; [reflexivity|].
  destruct (strip q); simpl; now rewrite IH.
Qed.

Lemma paragraph_loop_map page m l :
  flat_map (paragraph_section page m) l
  = map (fun p => mk_section (title_of_words 8 (split_ws p)) p page)
        (filter (fun p => m <=? len p) l).
Proof.
  induction l as [|p l IH]; simpl; [reflexivity|].
  unfold paragraph_section at 1.
  destruct (m <=? len p); simpl; now rewrite IH.
Qed.

(** C4. The strategies fall back in a fixed order.  The paragraphs of a
    page are the pieces of the text between blank lines (two newline
    characters), stripped, without the empty ones.  The result is the
    heading sections when there are any.  Otherwise it is the paragraph
    sections when there are any: one section for each paragraph that
    reaches the threshold, in page order, whose content is the paragraph
    and whose title is its first 8 words joined by spaces, with ["..."]
    appended exactly when it has more than 8 words.  Otherwise it is the
    single whole-page section, whose content is the stripped page text and
    whose title is its first 10 words, when that text reaches the
    threshold; and nothing when it does not.  So the paragraph block adds
    something exactly when there is no heading section and some paragraph
    reaches the threshold, and the whole-page block exactly when both
    earlier strategies gave nothing and the stripped page text reaches the
    threshold. *)
Theorem extract_sections_fallback_order :
  forall (U : UnicodeTables) cfg text page_number min_section_length,
    let m := effective_min cfg min_section_length in
    let hs := heading_sections cfg text page_number m in
    let paragraphs :=
      filter (fun p => match p with [] => false | _ :: _ => true end)
             (map strip (split [chr_nl; chr_nl] text)) in
    let section_of := fun p : str =>
      {| title :=
           join [chr_space] (firstn 8 (split_ws p))
           ++ (if 8 <? len (split_ws p) then of_string "..." else []);
         content := p;
         page_number := page_number;
         document := None |} in
    let from_paragraphs :=
      map section_of (filter (fun p => m <=? len p) paragraphs) in
    let whole :=
      {| title :=
           join [chr_space] (firstn 10 (split_ws (strip text)))
           ++ (if 10 <? len (split_ws (strip text)) then of_string "..." else []);
         content := strip text;
         page_number := page_number;
         document := None |} in
    let ps := strategy3_added text page_number m hs in
    let ws := strategy4_added text page_number m (hs ++ ps) in
    extract_sections_from_text cfg text page_number min_section_length
      = hs ++ ps ++ ws /\
    extract_sections_from_text cfg text page_number min_section_length
      = match hs with
        | _ :: _ => hs
        | [] =>
            match from_paragraphs with
            | _ :: _ => from_paragraphs
            | [] => if m <=? len (strip text) then [whole] else []
            end
        end /\
    paragraphs_of text = paragraphs /\
    (forall p, In p paragraphs <->
       p <> [] /\
       exists piece, In piece (split [chr_nl; chr_nl] text) /\ p = strip piece) /\
    ps = match hs with [] => from_paragraphs | _ :: _ => [] end /\
    ws = match hs, from_paragraphs with
         | [], [] => if m <=? len (strip text) then [whole] else []
         | _, _ => []
         end /\
    (ps <> [] <->
       hs = [] /\ exists p, In p paragraphs /\ m <= len p) /\
    (forall s, In s ps <->
       hs = [] /\
       exists p, In p paragraphs /\ m <= len p /\ s = section_of p) /\
    (ws <> [] <-> hs = [] /\ ps = [] /\ m <= len (strip text)) /\
    (ws <> [] -> ws = [whole]) /\
    (hs <> [] -> ps = [] /\ ws = []) /\
    (ps <> [] -> ws = []).
Proof.
  intros U cfg text page msl m hs paragraphs section_of from_paragraphs whole
         ps ws.
  destruct (extract_sections_blocks U cfg text page msl)
    as [H1 [H2 [H3 [H4 [H5 [H6 H7]]]]]].
  fold m hs ps ws in H1, H2, H3, H4, H5, H6, H7.
  assert (Hpar : paragraphs_of text = paragraphs) by apply paragraphs_of_filter.
  rewrite Hpar in H2, H3.
  assert (Hps : ps = match hs with [] => from_paragraphs | _ :: _ => [] end).
  { unfold ps, strategy3_added; rewrite Hpar.
    destruct hs as [|h hs']; simpl; [|reflexivity].
    destruct paragraphs as [|q qs] eqn:Hq; [reflexivity|].
    cbn [truthy]; rewrite paragraph_loop_map; unfold from_paragraphs.
    reflexivity. }
  assert (Hws : ws = match hs, from_paragraphs with
                     | [], [] => if m <=? len (strip text) then [whole] else []
                     | _, _ => []
                     end).
  { unfold ws, strategy4_added; rewrite Hps.
    destruct hs as [|h hs']; [|reflexivity].
    destruct from_paragraphs as [|f fs]; simpl; [|reflexivity].
    destruct (m <=? len (strip text)); reflexivity. }
  split; [exact H1|]; split.
  { rewrite H1, Hws, Hps.
    destruct hs as [|h hs']; simpl.
    - destruct from_paragraphs; simpl; [reflexivity | now rewrite app_nil_r].
    - now rewrite app_nil_r. }
  split; [exact Hpar|]; split.
  { intros p; unfold paragraphs; rewrite filter_In, in_map_iff; split.
    - intros [[piece [<- Hp]] Hne]; split; [|now exists piece].
      destruct (strip piece); [discriminate | discriminate].
    - intros [Hne [piece [Hp ->]]]; split; [now exists piece|].
      destruct (strip piece); [congruence | reflexivity]. }
  split; [exact Hps|]; split; [exact Hws|].
  split; [exact H2|]; split; [exact H3|]; split; [exact H4|].
  split; [exact H5|]; split; [exact H6 | exact H7].
Qed.

(** C9. The [if]/[elif] chain of the heading test computes the length gate
    and the disjunction of the five criteria: a line is a heading exactly
    when it is shorter than [MAX_HEADING_LENGTH] and some criterion holds,
    and trying the criteria first-match-wins in any other order classifies
    every line the same way. *)
Theorem is_heading_order_independent :
  forall (U : UnicodeTables) cfg line,
    is_heading cfg line = is_heading_spec cfg line /\
    (is_heading cfg line = true <->
       len line < MAX_HEADING_LENGTH cfg /\
       (pattern_all_caps line = true \/ pattern_title_case cfg line = true \/
        pattern_colon line = true \/ pattern_numbered line = true \/
        pattern_bullet line = true)) /\
    (forall criteria,
        Permutation (heading_criteria cfg) criteria ->
        (len line <? MAX_HEADING_LENGTH cfg) && first_match criteria line
          = is_heading cfg line).
Proof.
  intros U cfg line.
  assert (Hspec : is_heading cfg line = is_heading_spec cfg line).
  { unfold is_heading, is_heading_spec.
    destruct (len line <? MAX_HEADING_LENGTH cfg); [|reflexivity].
    destruct (pattern_all_caps line), (pattern_title_case cfg line),
      (pattern_colon line), (pattern_numbered line), (pattern_bullet line);
      reflexivity. }
  split; [exact Hspec|]; split.
  - rewrite Hspec; unfold is_heading_spec.
    rewrite andb_true_iff, !orb_true_iff, Z.ltb_lt; tauto.
  - intros criteria Hperm.
    rewrite is_heading_first_match; f_equal.
    symmetry; now apply first_match_perm.
Qed.

(** ** Float comparisons *)

Section FloatFacts.

Lemma SFcompare_key x y :
  is_nan x = false -> is_nan y = false ->
  exists c, SFcompare x y = Some c /\
    CompareSpec (float_key x = float_key y)
                (key_lt3 (float_key x) (float_key y))
                (key_lt3 (float_key y) (float_key x)) c.
Proof.
  intros Hx Hy; destruct x as [sx|sx| |sx mx ex], y as [sy|sy| |sy my ey];
    try discriminate; simpl;
    try (destruct sx); try (destruct sy); eexists; (split; [reflexivity|]);
    try (constructor; simpl; first [reflexivity | lia]).
  - destruct (Z.compare_spec ex ey) as [He|He|He]; simpl;
      try (constructor; simpl; lia).
    subst ey; change (Pos.compare_cont Eq mx my) with (Pos.compare mx my).
    destruct (Pos.compare_spec mx my) as [Hm|Hm|Hm]; simpl; constructor; simpl;
      first [now subst | lia].
  - destruct (Z.compare_spec ex ey) as [He|He|He]; simpl;
      try (constructor; simpl; lia).
    subst ey; change (Pos.compare_cont Eq mx my) with (Pos.compare mx my).
    destruct (Pos.compare_spec mx my) as [Hm|Hm|Hm]; simpl; constructor; simpl;
      first [now subst | lia].
Qed.

Lemma SFleb_not_nan x y : SFleb x y = true -> is_nan x = false /\ is_nan y = false.
Proof.
  unfold SFleb; destruct x, y; simpl; try discriminate; now split.
Qed.

Lemma SFltb_not_nan x y : SFltb x y = true -> is_nan x = false /\ is_nan y = false.
Proof.
  unfold SFltb; destruct x, y; simpl; try discriminate; now split.
Qed.

Lemma SFeqb_not_nan x y : SFeqb x y = true -> is_nan x = false /\ is_nan y = false.
Proof.
  unfold SFeqb; destruct x, y; simpl; try discriminate; now split.
Qed.

Lemma key_lt3_irrefl a : ~ key_lt3 a a.
Proof. destruct a as [[a1 a2] a3]; simpl; lia. Qed.

Lemma key_lt3_trans a b c : key_lt3 a b -> key_lt3 b c -> key_lt3 a c.
Proof.
  destruct a as [[a1 a2] a3], b as [[b1 b2] b3], c as [[c1 c2] c3]; simpl; lia.
Qed.

Lemma key_lt3_asym a b : key_lt3 a b -> ~ key_lt3 b a.
Proof. intros H1 H2; exact (key_lt3_irrefl a (key_lt3_trans _ _ _ H1 H2)). Qed.

(** The three comparisons, read on the keys. *)
Lemma SFltb_key x y :
  is_nan x = false -> is_nan y = false ->
  (SFltb x y = true <-> key_lt3 (float_key x) (float_key y)).
Proof.
  intros Hx Hy; destruct (SFcompare_key x y Hx Hy) as [c [Hc Hs]].
  unfold SFltb; rewrite Hc; destruct Hs as [H|H|H]; split; intros H';
    try discriminate; try reflexivity; try assumption.
  - rewrite H in H'; now apply key_lt3_irrefl in H'.
  - now apply key_lt3_asym in H'.
Qed.

Lemma SFeqb_key x y :
  is_nan x = false -> is_nan y = false ->
  (SFeqb x y = true <-> float_key x = float_key y).
Proof.
  intros Hx Hy; destruct (SFcompare_key x y Hx Hy) as [c [Hc Hs]].
  unfold SFeqb; rewrite Hc; destruct Hs as [H|H|H]; split; intros H';
    try discriminate; try reflexivity; try assumption;
    rewrite H' in H; now apply key_lt3_irrefl in H.
Qed.

Lemma SFleb_key x y :
  is_nan x = false -> is_nan y = false ->
  (SFleb x y = true <-> ~ key_lt3 (float_key y) (float_key x)).
Proof.
  intros Hx Hy; destruct (SFcompare_key x y Hx Hy) as [c [Hc Hs]].
  unfold SFleb; rewrite Hc; destruct Hs as [H|H|H]; split; intros H';
    try discriminate; try reflexivity; try assumption.
  - rewrite H; apply key_lt3_irrefl.
  - now apply key_lt3_asym.
  - contradiction.
Qed.

Lemma key_lt3_total a b : ~ key_lt3 a b -> ~ key_lt3 b a -> a = b.
Proof.
  destruct a as [[a1 a2] a3], b as [[b1 b2] b3]; simpl; intros H1 H2.
  assert (a1 = b1 /\ a2 = b2 /\ a3 = b3) as [-> [-> ->]] by lia; reflexivity.
Qed.

Lemma key_le3_trans a b c :
  ~ key_lt3 b a -> ~ key_lt3 c b -> ~ key_lt3 c a.
Proof.
  destruct a as [[a1 a2] a3], b as [[b1 b2] b3], c as [[c1 c2] c3]; simpl; lia.
Qed.

Lemma SFleb_trans x y z : SFleb x y = true -> SFleb y z = true -> SFleb x z = true.
Proof.
  intros H1 H2.
  destruct (SFleb_not_nan _ _ H1) as [Hx Hy], (SFleb_not_nan _ _ H2) as [_ Hz].
  rewrite SFleb_key in * by assumption; eapply key_le3_trans; eauto.
Qed.

Lemma SFltb_false_leb x y :
  is_nan x = false -> is_nan y = false -> SFltb x y = false -> SFleb y x = true.
Proof.
  intros Hx Hy H; apply SFleb_key; try assumption.
  intros Hk; apply (SFltb_key x y Hx Hy) in Hk; congruence.
Qed.

Lemma SFleb_ltb_false x y : SFleb x y = true -> SFltb y x = false.
Proof.
  intros H; destruct (SFleb_not_nan _ _ H) as [Hx Hy].
  apply (SFleb_key x y Hx Hy) in H.
  destruct (SFltb y x) eqn:Hl; [|reflexivity].
  apply (SFltb_key y x Hy Hx) in Hl; contradiction.
Qed.

Lemma SFeqb_leb x y : SFeqb x y = true -> SFleb x y = true /\ SFleb y x = true.
Proof.
  intros H; destruct (SFeqb_not_nan _ _ H) as [Hx Hy].
  apply (SFeqb_key x y Hx Hy) in H.
  split; apply SFleb_key; try assumption; rewrite H; apply key_lt3_irrefl.
Qed.

End FloatFacts.

(** ** Relevance ranker *)

Section RankerFacts.

Context {E : Encoder}.



Lemma before_trans a b c : before a b -> before b c -> before a c.
Proof.
  unfold before; intros Hab Hbc.
  assert (Ha : valid a /\ valid b).
  { destruct Hab as [H|[H _]];
      [apply SFltb_not_nan in H | apply SFeqb_not_nan in H]; tauto. }
  assert (Hc : valid b /\ valid c).
  { destruct Hbc as [H|[H _]];
      [apply SFltb_not_nan in H | apply SFeqb_not_nan in H]; tauto. }
  destruct Ha as [Ha Hb], Hc as [_ Hc]; unfold valid in *.
  rewrite !SFltb_key, !SFeqb_key in * by assumption.
  destruct Hab as [H1|[H1 H1']], Hbc as [H2|[H2 H2']].
  - left; eapply key_lt3_trans; eauto.
  - left; now rewrite <- H2.
  - left; now rewrite H1.
  - right; split; [congruence | lia].
Qed.

(** Two valid entries of which the second is not smaller and has the
    larger index. *)
Lemma before_of_not_lt x y :
  valid x -> valid y -> key_lt y x = false -> index y < index x -> before y x.
Proof.
  unfold valid, key_lt, before; intros Hx Hy Hlt Hidx.
  destruct (SFltb (similarity x) (similarity y)) eqn:Hxy; [now left|].
  right; split; [|exact Hidx].
  apply SFeqb_key; try assumption.
  apply key_lt3_total; intros Hk.
  - apply (SFltb_key _ _ Hy Hx) in Hk; congruence.
  - apply (SFltb_key _ _ Hx Hy) in Hk; congruence.
Qed.

Lemma sort_insert_perm x l : Permutation (sort_insert x l) (x :: l).
Proof.
  induction l as [|y l IH]; simpl; [reflexivity|].
  destruct (key_lt y x); [|reflexivity].
  rewrite IH; apply perm_swap.
Qed.

Lemma list_sort_perm l : Permutation (list_sort l) l.
Proof.
  induction l as [|x l IH]; simpl; [reflexivity|].
  rewrite sort_insert_perm; now constructor.
Qed.

Lemma list_sort_reverse_perm l : Permutation (list_sort_reverse l) l.
Proof.
  unfold list_sort_reverse.
  rewrite <- Permutation_rev, list_sort_perm; symmetry; apply Permutation_rev.
Qed.

(** Inserting into a list ranked backwards an entry whose index is above
    all of its indices. *)
Lemma sort_insert_sorted x l :
  valid x -> Forall valid l -> Forall (fun z => index z < index x) l ->
  StronglySorted (fun a b => before b a) l ->
  StronglySorted (fun a b => before b a) (sort_insert x l).
Proof.
  intros Hx; induction l as [|y l IH]; simpl; intros Hv Hi Hs.
  - repeat constructor.
  - inversion Hv as [|? ? Hy Hv']; inversion Hi as [|? ? Hiy Hi'];
      inversion Hs as [|? ? Hs' Hall]; subst.
    destruct (key_lt y x) eqn:Hlt.
    + constructor; [now apply IH|].
      eapply Permutation_Forall; [symmetry; apply sort_insert_perm|].
      constructor; [now left | exact Hall].
    + pose proof (before_of_not_lt x y Hx Hy Hlt Hiy) as Hyx.
      constructor; [exact Hs|].
      constructor; [exact Hyx|].
      eapply Forall_impl; [|exact Hall].
      intros z Hz; simpl in Hz; eapply before_trans; eauto.
Qed.

Lemma list_sort_sorted l :
  Forall valid l ->
  StronglySorted (fun a b => index b < index a) l ->
  StronglySorted (fun a b => before b a) (list_sort l).
Proof.
  induction l as [|x l IH]; simpl; intros Hv Hs; [constructor|].
  inversion Hv; inversion Hs; subst.
  apply sort_insert_sorted; try assumption.
  - eapply Permutation_Forall; [symmetry; apply list_sort_perm | assumption].
  - eapply Permutation_Forall; [symmetry; apply list_sort_perm | assumption].
  - now apply IH.
Qed.

Lemma StronglySorted_snoc {A} (R : A -> A -> Prop) l x :
  StronglySorted R l -> Forall (fun y => R y x) l -> StronglySorted R (l ++ [x]).
Proof.
  induction l as [|y l IH]; simpl; intros Hs Hall; [repeat constructor|].
  inversion Hs; inversion Hall; subst.
  constructor; [now apply IH|].
  apply Forall_app; split; [assumption | now constructor].
Qed.

Lemma StronglySorted_rev {A} (R : A -> A -> Prop) l :
  StronglySorted R l -> StronglySorted (fun a b => R b a) (rev l).
Proof.
  induction l as [|x l IH]; simpl; intros Hs; [constructor|].
  inversion Hs; subst.
  apply StronglySorted_snoc; [now apply IH|].
  apply Forall_forall; intros y Hy; apply in_rev in Hy.
  rewrite Forall_forall in H2; now apply H2.
Qed.




(** The entries the threshold loop keeps. *)
Lemma score_loop_In t i l a :
  In a (score_loop t i l) <->
  exists k s sim, nth_error l k = Some (s, sim) /\ SFleb t sim = true /\
    a = {| section := s; similarity := sim; index := i + Z.of_nat k |}.
Proof.
  revert i; induction l as [|[s sim] l IH]; intros i; simpl.
  - split; [contradiction|]. intros [[|k] [s [sim [H _]]]]; discriminate.
  - assert (Hrest : In a (score_loop t (i + 1) l) <->
      exists k s' sim', nth_error ((s, sim) :: l) (S k) = Some (s', sim') /\
        SFleb t sim' = true /\
        a = {| section := s'; similarity := sim';
               index := i + Z.of_nat (S k) |}).
    { rewrite IH; split; intros [k [s' [sim' [H1 [H2 H3]]]]];
        exists k, s', sim'; (split; [exact H1|]); (split; [exact H2|]);
        rewrite H3; f_equal; lia. }
    destruct (SFleb t sim) eqn:Hle; simpl; rewrite Hrest; split.
    + intros [<-|[k H]].
      * exists 0%nat, s, sim; repeat split; try assumption.
        now rewrite Z.add_0_r.
      * now exists (S k).
    + intros [[|k] [s' [sim' [H1 [H2 H3]]]]].
      * left; simpl in H1; injection H1 as <- <-.
        now rewrite H3, Z.add_0_r.
      * right; now exists k, s', sim'.
    + intros [k H]; now exists (S k).
    + intros [[|k] [s' [sim' [H1 [H2 H3]]]]].
      * simpl in H1; injection H1 as <- <-; congruence.
      * now exists k, s', sim'.
Qed.

Lemma score_loop_sorted t i l :
  StronglySorted (fun a b => index a < index b) (score_loop t i l) /\
  Forall (fun a => i <= index a) (score_loop t i l).
Proof.
  revert i; induction l as [|[s sim] l IH]; intros i; simpl.
  - split; constructor.
  - destruct (IH (i + 1)) as [Hs Hall].
    assert (Hall' : Forall (fun a => i < index a) (score_loop t (i + 1) l)).
    { eapply Forall_impl; [|exact Hall]; simpl; intros; lia. }
    destruct (SFleb t sim).
    + split; constructor; simpl; try assumption; try lia.
      eapply Forall_impl; [|exact Hall']; simpl; intros; lia.
    + split; [exact Hs|].
      eapply Forall_impl; [|exact Hall']; simpl; intros; lia.
Qed.

Lemma scored_sections_cleared t sections sims a :
  In a (scored_sections t sections sims) ->
  SFleb t (similarity a) = true /\ valid a.
Proof.
  unfold scored_sections; rewrite score_loop_In.
  intros [k [s [sim [_ [H ->]]]]]; simpl; split; [exact H|].
  unfold valid; simpl; now apply SFleb_not_nan in H.
Qed.

Lemma nth_error_combine {A B} (l1 : list A) (l2 : list B) k x y :
  nth_error (combine l1 l2) k = Some (x, y) <->
  nth_error l1 k = Some x /\ nth_error l2 k = Some y.
Proof.
  revert l2 k; induction l1 as [|a l1 IH]; intros [|b l2] [|k]; simpl;
    try (split; [discriminate | intros [? ?]; discriminate]).
  - split; [intros H; injection H as <- <-; now split|].
    intros [H1 H2]; congruence.
  - apply IH.
Qed.

(** The ranking before the cut: every kept entry, in ranking order. *)
Lemma ranked_sorted t sections sims :
  StronglySorted before (list_sort_reverse (scored_sections t sections sims)).
Proof.
  unfold list_sort_reverse.
  apply (StronglySorted_rev (fun a b => before b a)).
  apply list_sort_sorted.
  - apply Forall_forall; intros a Ha; apply in_rev in Ha.
    now apply scored_sections_cleared in Ha.
  - apply (StronglySorted_rev (fun a b => index a < index b)).
    apply score_loop_sorted.
Qed.

Lemma before_irrefl a : ~ before a a.
Proof.
  intros [H|[_ H]]; [|lia].
  destruct (SFltb_not_nan _ _ H) as [Ha _].
  apply (SFltb_key _ _ Ha Ha) in H; now apply key_lt3_irrefl in H.
Qed.

(** A list has one arrangement in ranking order. *)
Lemma ranking_order_unique l1 l2 :
  StronglySorted before l1 -> StronglySorted before l2 ->
  Permutation l1 l2 -> l1 = l2.
Proof.
  revert l2; induction l1 as [|a l1 IH]; intros l2 H1 H2 Hp.
  - apply Permutation_nil in Hp; now subst.
  - destruct l2 as [|b l2];
      [apply Permutation_sym, Permutation_nil in Hp; discriminate|].
    inversion H1 as [|? ? H1' Ha]; inversion H2 as [|? ? H2' Hb]; subst.
    rewrite Forall_forall in Ha, Hb.
    assert (Hab : a = b).
    { assert (Hin1 : In a (b :: l2))
        by (eapply Permutation_in; [exact Hp | now left]).
      assert (Hin2 : In b (a :: l1))
        by (eapply Permutation_in; [apply Permutation_sym; exact Hp | now left]).
      destruct Hin1 as [->|Hin1]; [reflexivity|].
      destruct Hin2 as [->|Hin2]; [reflexivity|].
      destruct (before_irrefl a).
      eapply before_trans; [apply Ha | apply Hb]; assumption. }
    subst b; f_equal; apply IH; try assumption.
    now apply Permutation_cons_inv in Hp.
Qed.

(** Whatever stable sort [list.sort] runs, its result is the one of
    [list_sort_reverse]: the arrangement of the kept entries by decreasing
    similarity, entries of equal similarity in pool order. *)
Lemma list_sort_reverse_unique t sections sims l :
  Permutation l (scored_sections t sections sims) ->
  StronglySorted before l ->
  l = list_sort_reverse (scored_sections t sections sims).
Proof.
  intros Hp Hs; apply ranking_order_unique; [exact Hs | apply ranked_sorted|].
  rewrite Hp; symmetry; apply list_sort_reverse_perm.
Qed.

(** What a run returns and what it logs. *)
Lemma find_relevant_sections_result task sections model_name top_n t :
  Run.result (find_relevant_sections task sections model_name top_n t)
  = match SentenceTransformer model_name with
    | None => None
    | Some m =>
        Some (if truthy sections
              then slice_to top_n
                     (list_sort_reverse
                        (scored_sections t sections
                           (cos_sim_row (encode m task)
                              (encode_batch m (map combined_text sections)))))
              else [])
    end.
Proof.
  unfold Run.result, find_relevant_sections, construct_model, Run.bind,
    Run.emit, Run.ret, Run.raise; simpl.
  destruct (SentenceTransformer model_name); [|reflexivity].
  destruct sections; reflexivity.
Qed.

Lemma find_relevant_sections_trace task sections model_name top_n t :
  Run.trace (find_relevant_sections task sections model_name top_n t)
  = EvConstruct model_name
    :: match SentenceTransformer model_name with
       | None => []
       | Some m =>
           if truthy sections
           then [EvEncode task; EvEncodeBatch (map combined_text sections);
                 EvCosSim]
           else []
       end.
Proof.
  unfold Run.trace, find_relevant_sections, construct_model, Run.bind,
    Run.emit, Run.ret, Run.raise; simpl.
  destruct (SentenceTransformer model_name); [|reflexivity].
  destruct sections; reflexivity.
Qed.

End RankerFacts.


(** C2. No entry that [find_relevant_sections] returns has a similarity
    below the threshold.  The test is inclusive: a section whose similarity
    is at least the threshold, and so one whose similarity equals it, is
    kept by the filter, and it is returned whenever [top_n] does not cut the
    list. *)
Theorem find_relevant_sections_threshold :
  forall (E : Encoder) task sections model_name top_n min_similarity result,
    Run.result
      (find_relevant_sections task sections model_name top_n min_similarity)
      = Some result ->
    (forall a, In a result ->
               SFltb (similarity a) min_similarity = false /\
               SFleb min_similarity (similarity a) = true) /\
    exists m,
      SentenceTransformer model_name = Some m /\
      forall i s sim,
        nth_error sections i = Some s ->
        nth_error (cos_sim_row (encode m task)
                     (encode_batch m (map combined_text sections))) i = Some sim ->
        (SFeqb sim min_similarity = true -> SFleb min_similarity sim = true) /\
        (SFleb min_similarity sim = true ->
         In {| section := s; similarity := sim; index := Z.of_nat i |}
            (scored_sections min_similarity sections
               (cos_sim_row (encode m task)
                  (encode_batch m (map combined_text sections)))) /\
         (len (scored_sections min_similarity sections
                 (cos_sim_row (encode m task)
                    (encode_batch m (map combined_text sections)))) <= top_n ->
          In {| section := s; similarity := sim; index := Z.of_nat i |} result)).
Proof.
  intros E task sections model_name top_n t result Hres.
  rewrite find_relevant_sections_result in Hres.
  destruct (SentenceTransformer model_name) as [m|] eqn:Hm; [|discriminate].
  injection Hres as Hres.
  set (sims := cos_sim_row (encode m task)
                 (encode_batch m (map combined_text sections))) in *.
  set (cleared := scored_sections t sections sims) in *.
  assert (Hresult : result = slice_to top_n (list_sort_reverse cleared)).
  { rewrite <- Hres; destruct sections; [|reflexivity].
    unfold cleared, slice_to; simpl.
    destruct (0 <=? top_n); rewrite ?firstn_nil; reflexivity. }
  split.
  - intros a Ha.
    assert (Hc : In a cleared).
    { apply (Permutation_in a (list_sort_reverse_perm cleared)).
      destruct (slice_to_prefix top_n (list_sort_reverse cleared)) as [r Hr].
      rewrite Hr; apply in_or_app; left; now rewrite <- Hresult. }
    apply scored_sections_cleared in Hc as [Hc _].
    split; [now apply SFleb_ltb_false | exact Hc].
  - exists m; split; [reflexivity|].
    intros i s sim Hs Hsim; split; [intros H; now apply SFeqb_leb in H|].
    intros Hle.
    assert (Hin : In {| section := s; similarity := sim; index := Z.of_nat i |}
                     cleared).
    { unfold cleared, scored_sections; apply score_loop_In.
      exists i, s, sim; split; [now apply nth_error_combine|].
      split; [exact Hle | reflexivity]. }
    split; [exact Hin|].
    intros Hlen; rewrite Hresult, slice_to_all.
    + apply (Permutation_in _ (Permutation_sym (list_sort_reverse_perm cleared))).
      exact Hin.
    + unfold len in *.
      now rewrite (Permutation_length (list_sort_reverse_perm cleared)).
Qed.

(** C6, as the code has it.  Called with an empty list of sections,
    [find_relevant_sections] first constructs the model, and that is its
    only use of the encoder: nothing is encoded and no similarity is
    computed.  It returns the empty list when the construction succeeds,
    and the failure of the construction otherwise. *)
Theorem find_relevant_sections_empty :
  forall (E : Encoder) task model_name top_n min_similarity,
    Run.trace (find_relevant_sections task [] model_name top_n min_similarity)
      = [EvConstruct model_name] /\
    Run.result (find_relevant_sections task [] model_name top_n min_similarity)
      = match SentenceTransformer model_name with
        | Some _ => Some []
        | None => None
        end.
Proof.
  intros E task model_name top_n t.
  rewrite find_relevant_sections_trace, find_relevant_sections_result; simpl.
  destruct (SentenceTransformer model_name); split; reflexivity.
Qed.

(** C6 as stated fails: with an empty list the model is still constructed,
    so the log of encoder uses is not empty, and with a model that cannot
    be constructed nothing is returned. *)
Lemma find_relevant_sections_empty_uses_model :
  Run.trace (find_relevant_sections (E := toy_encoder) (of_string "task") []
               (of_string "all-MiniLM-L6-v2") 5 float_0_1) <> [] /\
  Run.result (find_relevant_sections (E := toy_encoder) (of_string "task") []
                (of_string "no-such-model") 5 float_0_1) <> Some [].
Proof. split; vm_compute; discriminate. Qed.

(** ** The functions at concrete inputs *)


Lemma find_relevant_sections_threshold_witness :
  Run.result
    (find_relevant_sections (E := toy_encoder) (of_string "task") toy_pool
       (SIMILARITY_MODEL default_config) 3 (float_of_nat 4))
    = Some toy_ranking /\
  ((forall a, In a toy_ranking ->
              SFltb (similarity a) (float_of_nat 4) = false /\
              SFleb (float_of_nat 4) (similarity a) = true) /\
   exists (m : @model toy_encoder),
     @SentenceTransformer toy_encoder (SIMILARITY_MODEL default_config) = Some m /\
     forall i s sim,
       nth_error toy_pool i = Some s ->
       nth_error (@cos_sim_row toy_encoder (@encode toy_encoder m (of_string "task"))
                    (@encode_batch toy_encoder m (map combined_text toy_pool))) i
         = Some sim ->
       (SFeqb sim (float_of_nat 4) = true -> SFleb (float_of_nat 4) sim = true) /\
       (SFleb (float_of_nat 4) sim = true ->
        In {| section := s; similarity := sim; index := Z.of_nat i |}
           (scored_sections (float_of_nat 4) toy_pool
              (@cos_sim_row toy_encoder (@encode toy_encoder m (of_string "task"))
                 (@encode_batch toy_encoder m (map combined_text toy_pool)))) /\
        (len (scored_sections (float_of_nat 4) toy_pool
                (@cos_sim_row toy_encoder (@encode toy_encoder m (of_string "task"))
                   (@encode_batch toy_encoder m (map combined_text toy_pool)))) <= 3 ->
         In {| section := s; similarity := sim; index := Z.of_nat i |} toy_ranking))).
Proof.
  split; [reflexivity|].
  apply (find_relevant_sections_threshold toy_encoder (of_string "task") toy_pool
           (SIMILARITY_MODEL default_config) 3 (float_of_nat 4) toy_ranking).
  reflexivity.
Defined.

Lemma extract_sections_min_length_witness :
  In demo_section
     (extract_sections_from_text (U := ascii_tables) default_config demo_page 1
        (Some 10)) /\
  effective_min default_config (Some 10) <= len (strip (content demo_section)) /\
  strip (content demo_section) = content demo_section.
Proof.
  split; [vm_compute; left; reflexivity|].
  apply (extract_sections_min_length ascii_tables default_config demo_page 1
           (Some 10) demo_section).
  vm_compute; left; reflexivity.
Defined.

Lemma create_output_json_aligned_witness :
  (forall item, In item toy_ranking -> document (section item) <> None) /\
  exists report,
    create_output_json default_config (of_string "2026-01-01T00:00:00")
      toy_input toy_ranking = Some report /\
    length (extracted_sections report) = length (subsection_analysis report) /\
    length (extracted_sections report) = length toy_ranking /\
    forall i item, nth_error toy_ranking i = Some item ->
      exists e a,
        nth_error (extracted_sections report) i = Some e /\
        nth_error (subsection_analysis report) i = Some a /\
        document (section item) = Some (es_document e) /\
        document (section item) = Some (sa_document a) /\
        es_document e = sa_document a /\
        es_page_number e = page_number (section item) /\
        sa_page_number a = page_number (section item) /\
        es_page_number e = sa_page_number a /\
        section_title e = title (section item) /\
        refined_text a = refine_text default_config (content (section item)) /\
        importance_rank e = Z.of_nat i + 1.
Proof.
  assert (H : forall item, In item toy_ranking -> document (section item) <> None).
  { intros item [<-|[<-|[<-|[]]]]; discriminate. }
  split; [exact H|].
  apply (create_output_json_aligned default_config
           (of_string "2026-01-01T00:00:00") toy_input toy_ranking H).
Defined.

Lemma refine_text_idempotent_witness :
  0 <= MAX_REFINED_TEXT_LENGTH short_config /\
  refine_text short_config (refine_text short_config (of_string "ab   cdefgh"))
    = refine_text short_config (of_string "ab   cdefgh") /\
  (forall s,
      len s <= MAX_REFINED_TEXT_LENGTH short_config ->
      strip s = s -> sub_ws s = s ->
      refine_text short_config s = s).
Proof.
  split; [simpl; lia|].
  apply (refine_text_idempotent short_config (of_string "ab   cdefgh")).
  simpl; lia.
Defined.

Lemma refined_text_stripped_witness :
  create_output_json short_config (of_string "2026-01-01T00:00:00") toy_input
    padded_ranking = Some padded_report /\
  In padded_entry (subsection_analysis padded_report) /\
  starts_with_ws (refined_text padded_entry) = false /\
  ends_with_ws (refined_text padded_entry) = false /\
  strip (refined_text padded_entry) = refined_text padded_entry.
Proof.
  split; [reflexivity|]; split; [left; reflexivity|].
  apply (refined_text_stripped short_config (of_string "2026-01-01T00:00:00")
           toy_input padded_ranking padded_report padded_entry);
    [reflexivity | left; reflexivity].
Defined.

(** The examples of the specification. *)

(** With the default threshold of 50, a page that is one paragraph of 30
    characters gives no section. *)
Example short_page_no_section :
  len short_page = 30 /\
  extract_sections_from_text (U := ascii_tables) default_config short_page 1 None
    = [].
Proof. split; reflexivity. Qed.

(** With [top_n = 5] and nine sections above the threshold, the five most
    similar are returned, most similar first. *)
Example top_five_of_nine :
  option_map (map (fun x => (index x, similarity x)))
    (Run.result
       (find_relevant_sections (E := toy_encoder) (of_string "task") nine_pool
          (SIMILARITY_MODEL default_config) 5 (float_of_nat 1)))
  = Some [ (8, float_of_nat 11); (5, float_of_nat 10); (1, float_of_nat 9);
           (7, float_of_nat 8); (3, float_of_nat 7) ].
Proof. reflexivity. Qed.

(** The heading test on some lines. *)
Example is_heading_lines :
  map (is_heading (U := ascii_tables) default_config)
      (map of_string
           [ "INTRODUCTION"; "ABC"; "Hello world"; "Hello world."; "A"; "note:";
             "1) Abc def."; "12.Abc."; "- Abc."; "-abc."; "hello there." ]%string)
  = [ true; true; true; false; false; true; true; true; true; false; false ].
Proof. reflexivity. Qed.

(** The fragment left by the cut is kept: ["ab   cdefgh"] cut at 7 gives
    ["ab cd"], while collapsing before cutting would give ["ab cdef"]. *)
Example refine_text_order :
  refine_text short_config (of_string "ab   cdefgh") = of_string "ab cd" /\
  slice_to (MAX_REFINED_TEXT_LENGTH short_config)
    (sub_ws (strip (of_string "ab   cdefgh"))) = of_string "ab cdef".
Proof. split; reflexivity. Qed.

(** A string that is within the limit and collapsed but starts with a
    space is not an output of the transform, and is changed by it. *)
Example refine_text_leading_space :
  refine_text short_config (of_string " a") = of_string "a".
Proof. reflexivity. Qed.

(** A negative [top_n] is a slice that counts from the end. *)
Example find_relevant_sections_negative_top_n :
  option_map (map index)
    (Run.result
       (find_relevant_sections (E := toy_encoder) (of_string "task") toy_pool
          (SIMILARITY_MODEL default_config) (-1) (float_of_nat 4)))
  = Some [5; 2; 0].
Proof. reflexivity. Qed.

(** A similarity that is not a number never clears the threshold. *)
Example find_relevant_sections_nan :
  option_map (map index)
    (Run.result
       (find_relevant_sections (E := toy_encoder) (of_string "task") toy_pool
          (SIMILARITY_MODEL default_config) 10 (S754_infinity true)))
  = Some [5; 2; 0; 3; 4].
Proof. reflexivity. Qed.



(** * Further properties of the code *)

(** ** Reading the pages of a PDF *)

Section PdfFacts.

Context {F : FileSystem}.

Lemma pages_loop_read page_num doc pages :
  pages_loop page_num doc pages
  = (pages ++ read_pages page_num doc, negb (forallb page_readable doc)).
Proof.
  revert page_num pages; induction doc as [|[raw|] doc IH]; intros n pages; simpl.
  - now rewrite app_nil_r.
  - destruct (truthy (strip raw)); rewrite IH; [|reflexivity].
    now rewrite <- app_assoc.
  - now rewrite app_nil_r.
Qed.

Lemma extract_text_pages_read pdf_path doc :
  fitz_open pdf_path = Some doc ->
  extract_text_with_pages_from_pdf pdf_path
  = (if forallb page_readable doc then [] else [MsgPdfError pdf_path],
     read_pages 1 doc).
Proof.
  intros H; unfold extract_text_with_pages_from_pdf; rewrite H, pages_loop_read.
  simpl; now destruct (forallb page_readable doc).
Qed.

Lemma read_pages_In n text page_num doc :
  In (n, text) (read_pages page_num doc) ->
  exists k raw,
    n = page_num + Z.of_nat k /\
    nth_error doc k = Some (Some raw) /\
    text = strip raw /\ text <> [] /\
    forallb page_readable (firstn k doc) = true.
Proof.
  revert page_num; induction doc as [|[raw|] doc IH]; intros p; simpl;
    try contradiction.
  intros H; apply in_app_or in H as [H|H].
  - destruct (strip raw) as [|c r] eqn:Hs; simpl in H; [contradiction|].
    destruct H as [H|[]]; injection H as <- <-.
    exists 0%nat, raw; simpl; rewrite Hs; repeat split; try lia; discriminate.
  - destruct (IH _ H) as [k [raw' [Hn [Hk [Ht [Hne Hr]]]]]].
    exists (S k), raw'; simpl; repeat split; try assumption; lia.
Qed.

Lemma read_pages_complete k raw page_num doc :
  nth_error doc k = Some (Some raw) ->
  forallb page_readable (firstn k doc) = true ->
  strip raw <> [] ->
  In (page_num + Z.of_nat k, strip raw) (read_pages page_num doc).
Proof.
  revert page_num k; induction doc as [|[r|] doc IH]; intros p [|k] Hk Hr Hne;
    simpl in *; try discriminate.
  - injection Hk as ->; apply in_or_app; left.
    destruct (strip raw); [congruence|]; left; f_equal; lia.
  - apply in_or_app; right.
    replace (p + Z.pos (Pos.of_succ_nat k)) with (p + 1 + Z.of_nat k) by lia.
    now apply IH.
Qed.

Lemma read_pages_sorted page_num doc :
  StronglySorted (fun a b => fst a < fst b) (read_pages page_num doc) /\
  Forall (fun a => page_num <= fst a) (read_pages page_num doc).
Proof.
  revert page_num; induction doc as [|[raw|] doc IH]; intros p; simpl;
    try (split; constructor).
  destruct (IH (p + 1)) as [Hs Hall].
  assert (Hall' : Forall (fun a => p < fst a) (read_pages (p + 1) doc)).
  { eapply Forall_impl; [|exact Hall]; simpl; intros; lia. }
  destruct (truthy (strip raw)); simpl.
  - split; constructor; simpl; try assumption; try lia.
    eapply Forall_impl; [|exact Hall']; simpl; intros; lia.
  - split; [exact Hs|].
    eapply Forall_impl; [|exact Hall']; simpl; intros; lia.
Qed.

Lemma read_pages_app good rest page_num :
  forallb page_readable good = true ->
  read_pages page_num (good ++ None :: rest) = read_pages page_num good.
Proof.
  revert page_num; induction good as [|[raw|] good IH]; intros p H; simpl in *;
    try reflexivity; try discriminate.
  now rewrite IH.
Qed.

End PdfFacts.

(** X1. The pages [extract_text_with_pages_from_pdf] returns are pages of
    the opened document: the number of a returned page is its position
    counted from 1, its text is the stripped text of that page and is not
    empty, and the numbers are strictly increasing. *)
Theorem extract_text_pages_sound :
  forall (F : FileSystem) pdf_path,
    StronglySorted (fun a b => fst a < fst b)
      (snd (extract_text_with_pages_from_pdf pdf_path)) /\
    forall n text,
      In (n, text) (snd (extract_text_with_pages_from_pdf pdf_path)) ->
      exists doc raw,
        fitz_open pdf_path = Some doc /\
        1 <= n <= len doc /\
        nth_error doc (Z.to_nat (n - 1)) = Some (Some raw) /\
        text = strip raw /\ text <> [] /\ strip text = text.
Proof.
  intros F pdf_path.
  destruct (fitz_open pdf_path) as [doc|] eqn:Hopen.
  - rewrite (extract_text_pages_read _ _ Hopen); simpl.
    split; [apply read_pages_sorted|].
    intros n text Hin.
    apply read_pages_In in Hin as [k [raw [-> [Hk [-> [Hne _]]]]]].
    exists doc, raw; split; [reflexivity|].
    assert (Hlt : (k < length doc)%nat) by (apply nth_error_Some; congruence).
    unfold len; split; [lia|].
    replace (Z.to_nat (1 + Z.of_nat k - 1)) with k by lia.
    repeat split; try assumption; apply strip_idempotent.
  - unfold extract_text_with_pages_from_pdf; rewrite Hopen; simpl.
    split; [constructor | contradiction].
Qed.

(** X2. Nothing readable is lost before a failure: a page that is not
    blank, and before which every page can be read, is returned with its
    number counted from 1. *)
Theorem extract_text_pages_complete :
  forall (F : FileSystem) pdf_path doc k raw,
    fitz_open pdf_path = Some doc ->
    nth_error doc k = Some (Some raw) ->
    forallb page_readable (firstn k doc) = true ->
    strip raw <> [] ->
    In (Z.of_nat k + 1, strip raw)
       (snd (extract_text_with_pages_from_pdf pdf_path)).
Proof.
  intros F pdf_path doc k raw Hopen Hk Hr Hne.
  rewrite (extract_text_pages_read _ _ Hopen); simpl.
  rewrite Z.add_comm; now apply read_pages_complete.
Qed.

(** X3. [extract_text_with_pages_from_pdf] never raises.  A file that
    cannot be opened gives no page and one error message; a page that
    cannot be read ends the reading with one error message and the pages
    that a document cut before that page would give; a document read to
    the end gives no message. *)
Theorem extract_text_pages_failure :
  forall (F : FileSystem) pdf_path,
    (fitz_open pdf_path = None ->
     extract_text_with_pages_from_pdf pdf_path = ([MsgPdfError pdf_path], [])) /\
    (forall doc,
        fitz_open pdf_path = Some doc ->
        forallb page_readable doc = true ->
        fst (extract_text_with_pages_from_pdf pdf_path) = []) /\
    (forall good rest cut_path,
        fitz_open pdf_path = Some (good ++ None :: rest) ->
        forallb page_readable good = true ->
        fitz_open cut_path = Some good ->
        extract_text_with_pages_from_pdf pdf_path
        = ([MsgPdfError pdf_path],
           snd (extract_text_with_pages_from_pdf cut_path))).
Proof.
  intros F pdf_path; repeat split.
  - intros H; unfold extract_text_with_pages_from_pdf; now rewrite H.
  - intros doc Hopen Hr; rewrite (extract_text_pages_read _ _ Hopen), Hr.
    reflexivity.
  - intros good rest cut_path Hopen Hgood Hcut.
    rewrite (extract_text_pages_read _ _ Hopen), (extract_text_pages_read _ _ Hcut).
    simpl; rewrite forallb_app; simpl; rewrite andb_false_r.
    now rewrite read_pages_app.
Qed.

(** ** More on the section extractor *)

Section ExtractorInvariants.

Context {U : UnicodeTables}.
Variable cfg : Config.

(** The line loop keeps any property [R] of the sections that follows from
    a property [Q] of the heading lines met so far. *)
Lemma heading_loop_invariant (Q : str -> Prop) (R : DocSection -> Prop)
      page m lines :
  (forall line, In line lines -> strip line <> [] ->
                is_heading cfg (strip line) = true -> Q (strip line)) ->
  (forall t c, Q t -> t <> [] -> c <> [] -> m <= len (strip c) ->
               R (mk_section t (strip c) page)) ->
  forall st,
    (current_title st = [] \/ Q (current_title st)) ->
    Forall R (sections st) ->
    Forall R (flush page m (fold_left (line_step cfg page m) lines st)).
Proof.
  intros HQ HR.
  assert (Hflush : forall st,
             (current_title st = [] \/ Q (current_title st)) ->
             Forall R (sections st) -> Forall R (flush page m st)).
  { intros st Ht Hs; unfold flush.
    destruct (current_title st) as [|c t] eqn:Htitle; simpl; [exact Hs|].
    destruct (current_section st) as [|d b] eqn:Hbody; simpl; [exact Hs|].
    destruct (Z.leb_spec m (len (strip (d :: b)))); [|exact Hs].
    apply Forall_app; split; [exact Hs|].
    constructor; [|constructor].
    destruct Ht as [Ht|Ht]; [discriminate|].
    apply HR; try assumption; discriminate. }
  induction lines as [|line lines IH]; intros st Ht Hs; simpl.
  - now apply Hflush.
  - assert (HQ' : forall l, In l lines -> strip l <> [] ->
                            is_heading cfg (strip l) = true -> Q (strip l))
      by (intros l Hl; apply HQ; now right).
    apply (IH HQ'); unfold line_step.
    + destruct (strip line) as [|c r] eqn:Hline; simpl; [exact Ht|].
      destruct (is_heading cfg (c :: r)) eqn:Hh; simpl; [|exact Ht].
      right; rewrite <- Hline; apply HQ; [now left | congruence | congruence].
    + destruct (strip line) as [|c r] eqn:Hline; simpl; [exact Hs|].
      destruct (is_heading cfg (c :: r)) eqn:Hh; simpl; [|exact Hs].
      now apply Hflush.
Qed.

Lemma heading_sections_invariant (Q : str -> Prop) (R : DocSection -> Prop)
      text page m :
  (forall line, In line (split [chr_nl] text) -> strip line <> [] ->
                is_heading cfg (strip line) = true -> Q (strip line)) ->
  (forall t c, Q t -> t <> [] -> c <> [] -> m <= len (strip c) ->
               R (mk_section t (strip c) page)) ->
  Forall R (heading_sections cfg text page m).
Proof.
  intros HQ HR; unfold heading_sections.
  apply (heading_loop_invariant Q R); try assumption; [now left | constructor].
Qed.

(** Words. *)
Lemma words_aux_first cur s :
  cur <> [] -> exists w ws, words_aux cur s = w :: ws /\ w <> [].
Proof.
  revert cur; induction s as [|c s IH]; intros cur Hcur; simpl.
  - destruct cur as [|d cur]; [congruence|].
    do 2 eexists; split; [reflexivity|].
    intros H; apply (f_equal (@length char)) in H.
    rewrite length_rev in H; discriminate.
  - destruct (isspace c).
    + destruct cur as [|d cur]; [congruence|].
      do 2 eexists; split; [reflexivity|].
      intros H; apply (f_equal (@length char)) in H.
      rewrite length_rev in H; discriminate.
    + apply IH; discriminate.
Qed.

Lemma split_ws_first s :
  s <> [] -> starts_with_ws s = false ->
  exists w ws, split_ws s = w :: ws /\ w <> [].
Proof.
  destruct s as [|c s]; [congruence|]; simpl; intros _ Hc.
  unfold split_ws; simpl; rewrite Hc; apply words_aux_first; discriminate.
Qed.

Lemma title_of_words_nonempty k s :
  s <> [] -> starts_with_ws s = false ->
  title_of_words (S k) (split_ws s) <> [].
Proof.
  intros Hs Hc; destruct (split_ws_first s Hs Hc) as [w [ws [-> Hw]]].
  unfold title_of_words; simpl.
  destruct w as [|c w]; [congruence|].
  destruct (firstn k ws); simpl; discriminate.
Qed.

Lemma strip_nonempty_of_len m s : 1 <= m -> m <= len (strip s) -> strip s <> [].
Proof. intros H1 H2 H; rewrite H in H2; unfold len in H2; simpl in H2; lia. Qed.

End ExtractorInvariants.

Lemma extract_sections_fields_all :
  forall (U : UnicodeTables) cfg text page_number0 min_section_length s,
    In s (extract_sections_from_text cfg text page_number0 min_section_length) ->
    page_number s = page_number0 /\
    document s = None /\
    (1 <= effective_min cfg min_section_length ->
     title s <> [] /\ content s <> []).
Proof.
  intros U cfg text page msl s; unfold extract_sections_from_text.
  set (m := effective_min cfg msl).
  set (hs := heading_sections cfg text page m).
  set (R := fun s => page_number s = page /\ document s = None /\
                     (1 <= m -> title s <> [] /\ content s <> [])).
  intros Hs; change (R s).
  assert (H : Forall R ((hs ++ strategy3_added text page m hs)
                        ++ strategy4_added text page m
                             (hs ++ strategy3_added text page m hs))).
  { repeat (apply Forall_app; split).
    - apply (heading_sections_invariant cfg (fun _ => True)); [trivial|].
      intros t c _ Ht Hc Hm; unfold R; simpl; repeat split; try assumption.
      now apply strip_nonempty_of_len with m.
    - unfold strategy3_added.
      destruct (negb (truthy hs) && truthy (paragraphs_of text)); [|constructor].
      apply Forall_forall; intros x Hx.
      apply in_paragraph_sections in Hx as [p [Hp [Hm ->]]].
      apply paragraphs_of_stripped in Hp as [Hp Hne].
      unfold R; simpl; repeat split; try assumption.
      apply title_of_words_nonempty; [exact Hne|].
      rewrite <- Hp; apply strip_starts.
    - unfold strategy4_added.
      destruct (negb (truthy (hs ++ strategy3_added text page m hs)));
        simpl; [|constructor].
      destruct (Z.leb_spec m (len (strip text))); constructor; [|constructor].
      unfold R; simpl; repeat split.
      + apply title_of_words_nonempty;
          [now apply strip_nonempty_of_len with m | apply strip_starts].
      + now apply strip_nonempty_of_len with m. }
  rewrite Forall_forall in H; exact (H s Hs).
Qed.

Lemma extract_sections_long_enough_all :
  forall (U : UnicodeTables) cfg text page msl,
    Forall (long_enough (effective_min cfg msl))
           (extract_sections_from_text cfg text page msl).
Proof.
  intros U cfg text page msl; unfold extract_sections_from_text.
  repeat (apply Forall_app; split).
  - apply heading_sections_long_enough.
  - apply strategy3_added_long_enough.
  - apply strategy4_added_long_enough.
Qed.

(** X4. Every section [extract_sections_from_text] returns carries the page
    number it was called with and no document yet; when the threshold in
    force is at least 1, its title and its content are not empty. *)
Theorem extract_sections_fields :
  forall (U : UnicodeTables) cfg text page_number0 min_section_length s,
    In s (extract_sections_from_text cfg text page_number0 min_section_length) ->
    page_number s = page_number0 /\
    document s = None /\
    (1 <= effective_min cfg min_section_length ->
     title s <> [] /\ content s <> []).
Proof.
  intros U cfg text page msl s Hs.
  exact (extract_sections_fields_all U cfg text page msl s Hs).
Qed.

(** X5. The title of every section found by headings is a line of the page,
    stripped, that the heading test accepts. *)
Theorem heading_sections_titles :
  forall (U : UnicodeTables) cfg text page_number0 min_section_length s,
    In s (heading_sections cfg text page_number0 min_section_length) ->
    is_heading cfg (title s) = true /\
    exists line, In line (split [chr_nl] text) /\ title s = strip line.
Proof.
  intros U cfg text page m s Hs.
  set (Q := fun t => is_heading cfg t = true /\
                     exists line, In line (split [chr_nl] text) /\ t = strip line).
  assert (H : Forall (fun s => Q (title s)) (heading_sections cfg text page m)).
  { apply (heading_sections_invariant cfg Q).
    - intros line Hl _ Hh; split; [exact Hh | now exists line].
    - intros t c Ht _ _ _; exact Ht. }
  rewrite Forall_forall in H; exact (H s Hs).
Qed.

(** X6. A page none of whose lines passes the heading test has no heading
    section, so its sections come from the paragraphs or from the whole
    page: content before a first heading is never a section by itself. *)
Theorem no_heading_no_heading_section :
  forall (U : UnicodeTables) cfg text page_number0 min_section_length,
    (forall line, In line (split [chr_nl] text) ->
                  is_heading cfg (strip line) = false) ->
    heading_sections cfg text page_number0 min_section_length = [] /\
    extract_sections_from_text cfg text page_number0 (Some min_section_length)
    = strategy3_added text page_number0 min_section_length []
      ++ strategy4_added text page_number0 min_section_length
           (strategy3_added text page_number0 min_section_length []).
Proof.
  intros U cfg text page m Hno.
  assert (H : heading_sections cfg text page m = []).
  { pose proof (heading_sections_invariant cfg (fun _ => False)
                  (fun _ => False) text page m) as Hinv.
    destruct (heading_sections cfg text page m) as [|s ss]; [reflexivity|].
    assert (Hf : Forall (fun _ : DocSection => False) (s :: ss)).
    { apply Hinv.
      - intros line Hl _ Hh; rewrite (Hno line Hl) in Hh; discriminate.
      - intros t c []. }
    inversion Hf; contradiction. }
  split; [exact H|].
  unfold extract_sections_from_text; simpl; now rewrite H.
Qed.

(** ** The loader *)

Section LoaderFacts.

Context {U : UnicodeTables} {F : FileSystem}.
Variable cfg : Config.

Lemma load_fold folder_path docs acc :
  fold_left (load_step cfg folder_path) docs acc
  = (fst acc ++ flat_map (fun d => fst (load_document cfg folder_path d)) docs,
     snd acc ++ flat_map (fun d => snd (load_document cfg folder_path d)) docs).
Proof.
  revert acc; induction docs as [|d docs IH]; intros [msgs secs]; simpl.
  - now rewrite !app_nil_r.
  - rewrite IH; unfold load_step.
    destruct (load_document cfg folder_path d) as [m x]; simpl.
    now rewrite !app_assoc.
Qed.

Lemma load_documents_flat folder_path docs :
  load_documents_with_sections cfg folder_path docs
  = (flat_map (fun d => fst (load_document cfg folder_path d)) docs,
     flat_map (fun d => snd (load_document cfg folder_path d)) docs).
Proof. unfold load_documents_with_sections; now rewrite load_fold. Qed.

Lemma load_document_unusable folder_path d :
  usable folder_path d = false ->
  load_document cfg folder_path d = ([skip_warning folder_path d], []).
Proof.
  unfold usable, load_document, skip_warning.
  destruct (path_exists (path_join folder_path (filename d))); simpl;
    [|reflexivity].
  now intros ->.
Qed.

Lemma load_document_usable folder_path d :
  usable folder_path d = true ->
  load_document cfg folder_path d
  = (fst (extract_text_with_pages_from_pdf (path_join folder_path (filename d))),
     flat_map (page_sections cfg (filename d))
       (snd (extract_text_with_pages_from_pdf
               (path_join folder_path (filename d))))).
Proof.
  unfold usable, load_document; intros H; apply andb_prop in H as [-> ->]; simpl.
  now destruct (extract_text_with_pages_from_pdf
                  (path_join folder_path (filename d))).
Qed.

(** The loader prints warnings only. *)
Lemma load_messages_kind folder_path docs msg :
  In msg (fst (load_documents_with_sections cfg folder_path docs)) ->
  match msg with
  | MsgPdfError _ | MsgFileNotFound _ | MsgUnsupported _ => True
  | _ => False
  end.
Proof.
  rewrite load_documents_flat; cbn [fst]; intros H.
  apply in_flat_map in H as [d [_ H]].
  unfold load_document, extract_text_with_pages_from_pdf in H.
  destruct (path_exists _); cbn [negb] in H.
  - destruct (endswith _ _).
    + destruct (fitz_open _) as [doc|].
      * destruct (pages_loop 1 doc []) as [pages [|]]; cbn [fst] in H;
          [destruct H as [<-|[]]; exact I | destruct H].
      * destruct H as [<-|[]]; exact I.
    + destruct H as [<-|[]]; exact I.
  - destruct H as [<-|[]]; exact I.
Qed.

(** Where a section of one document comes from. *)
Lemma load_document_In folder_path d s :
  In s (snd (load_document cfg folder_path d)) ->
  usable folder_path d = true /\
  exists doc raw s0,
    fitz_open (path_join folder_path (filename d)) = Some doc /\
    1 <= page_number s <= len doc /\
    nth_error doc (Z.to_nat (page_number s - 1)) = Some (Some raw) /\
    In s0 (extract_sections_from_text cfg (strip raw) (page_number s) None) /\
    s = set_document (filename d) s0.
Proof.
  destruct (usable folder_path d) eqn:Hu;
    [|rewrite (load_document_unusable _ _ Hu); contradiction].
  rewrite (load_document_usable _ _ Hu); simpl.
  rewrite in_flat_map; intros [[n text] [Hpage Hs]].
  split; [reflexivity|].
  destruct (fitz_open (path_join folder_path (filename d))) as [doc|] eqn:Hopen.
  - rewrite (extract_text_pages_read _ _ Hopen) in Hpage; simpl in Hpage.
    apply read_pages_In in Hpage as [k [raw [-> [Hk [-> [Hne _]]]]]].
    unfold page_sections in Hs; apply in_map_iff in Hs as [s0 [<- Hs0]].
    pose proof (extract_sections_fields_all U cfg _ _ _ _ Hs0) as [Hp _].
    assert (Hlt : (k < length doc)%nat) by (apply nth_error_Some; congruence).
    exists doc, raw, s0; simpl; rewrite Hp.
    split; [reflexivity|]; split; [unfold len; lia|].
    replace (Z.to_nat (1 + Z.of_nat k - 1)) with k by lia.
    repeat split; assumption.
  - unfold extract_text_with_pages_from_pdf in Hpage; rewrite Hopen in Hpage.
    contradiction.
Qed.

End LoaderFacts.

(** X7. Every section of the pool comes from a requested document that
    exists and whose name ends with [".pdf"]: it is tagged with that name,
    its page number is a page of that PDF counted from 1, and without the
    tag it is a section the extractor finds, with the default threshold,
    in the stripped text of that page; so its content has at least
    [MIN_SECTION_LENGTH] characters. *)
Theorem load_documents_provenance :
  forall (U : UnicodeTables) (F : FileSystem) cfg folder_path input_documents s,
    In s (snd (load_documents_with_sections cfg folder_path input_documents)) ->
    exists d doc raw s0,
      In d input_documents /\
      usable folder_path d = true /\
      document s = Some (filename d) /\
      fitz_open (path_join folder_path (filename d)) = Some doc /\
      1 <= page_number s <= len doc /\
      nth_error doc (Z.to_nat (page_number s - 1)) = Some (Some raw) /\
      In s0 (extract_sections_from_text cfg (strip raw) (page_number s) None) /\
      s = set_document (filename d) s0 /\
      MIN_SECTION_LENGTH cfg <= len (content s) /\
      strip (content s) = content s.
Proof.
  intros U F cfg folder docs s Hs.
  rewrite load_documents_flat in Hs; simpl in Hs.
  apply in_flat_map in Hs as [d [Hd Hs]].
  apply load_document_In in Hs as [Hu [doc [raw [s0 [Ho [Hp [Hn [Hs0 ->]]]]]]]].
  exists d, doc, raw, s0; simpl in *.
  pose proof (extract_sections_long_enough_all U cfg (strip raw)
                (page_number s0) None) as Hall.
  rewrite Forall_forall in Hall; destruct (Hall _ Hs0) as [H1 H2]; simpl in H1.
  repeat split; try assumption; try tauto.
  now rewrite <- H2.
Qed.

(** X8. The pool follows the order of the request: loading two lists of
    documents one after the other gives the messages and the sections of the
    first followed by those of the second. *)
Theorem load_documents_app :
  forall (U : UnicodeTables) (F : FileSystem) cfg folder_path docs1 docs2,
    load_documents_with_sections cfg folder_path (docs1 ++ docs2)
    = (fst (load_documents_with_sections cfg folder_path docs1)
         ++ fst (load_documents_with_sections cfg folder_path docs2),
       snd (load_documents_with_sections cfg folder_path docs1)
         ++ snd (load_documents_with_sections cfg folder_path docs2)).
Proof.
  intros U F cfg folder docs1 docs2.
  rewrite !load_documents_flat; simpl; now rewrite !flat_map_app.
Qed.

(** X9. What the loader prints and collects, document by document, in the
    order of the request.  A requested document that is missing, or whose
    name does not end with [".pdf"] in lower case, adds no section and
    prints exactly one warning, at its place among the messages: [File not
    found] when it is missing, whatever its name, and [Unsupported file
    type] otherwise.  A document that exists and is named [".pdf"] prints
    what the page reader prints and adds the sections of its pages.  So the
    pool is that of the other documents, and a request with no readable
    document gives its warnings and an empty pool. *)
Theorem load_documents_skips :
  forall (U : UnicodeTables) (F : FileSystem) cfg folder_path input_documents,
    let path := fun d => path_join folder_path (filename d) in
    let read := fun d =>
      path_exists (path d) && endswith (of_string ".pdf") (filename d) in
    let warning := fun d =>
      if path_exists (path d) then MsgUnsupported (filename d)
      else MsgFileNotFound (filename d) in
    let load := load_documents_with_sections cfg folder_path in
    snd (load input_documents)
    = snd (load (filter (usable folder_path) input_documents)) /\
    ((forall d, In d input_documents -> usable folder_path d = false) ->
     load input_documents = (map (skip_warning folder_path) input_documents, [])) /\
    fst (load input_documents)
    = flat_map (fun d =>
                  if read d then fst (extract_text_with_pages_from_pdf (path d))
                  else [warning d])
               input_documents /\
    snd (load input_documents)
    = flat_map (fun d =>
                  if read d
                  then flat_map (page_sections cfg (filename d))
                         (snd (extract_text_with_pages_from_pdf (path d)))
                  else [])
               input_documents /\
    (forall before d after,
        input_documents = before ++ d :: after ->
        read d = false ->
        load input_documents
        = (fst (load before) ++ [warning d] ++ fst (load after),
           snd (load before) ++ snd (load after))) /\
    (forall before d after,
        input_documents = before ++ d :: after ->
        read d = true ->
        load input_documents
        = (fst (load before)
             ++ fst (extract_text_with_pages_from_pdf (path d))
             ++ fst (load after),
           snd (load before)
             ++ flat_map (page_sections cfg (filename d))
                  (snd (extract_text_with_pages_from_pdf (path d)))
             ++ snd (load after))) /\
    (forall d, In d input_documents -> read d = false ->
               In (warning d) (fst (load input_documents))).
Proof.
  intros U F cfg folder docs path read warning load.
  assert (Hdoc : forall d,
             load_document cfg folder d
             = if read d
               then (fst (extract_text_with_pages_from_pdf (path d)),
                     flat_map (page_sections cfg (filename d))
                       (snd (extract_text_with_pages_from_pdf (path d))))
               else ([warning d], [])).
  { intros d; destruct (read d) eqn:Hr.
    - now apply load_document_usable.
    - now apply load_document_unusable. }
  assert (Happ : forall before d after,
             load (before ++ d :: after)
             = (fst (load before) ++ fst (load_document cfg folder d)
                  ++ fst (load after),
                snd (load before) ++ snd (load_document cfg folder d)
                  ++ snd (load after))).
  { intros before d after; unfold load; rewrite !load_documents_flat.
    cbn [fst snd]; rewrite !flat_map_app; reflexivity. }
  assert (Hflat : forall l,
             load l = (flat_map (fun d => fst (load_document cfg folder d)) l,
                       flat_map (fun d => snd (load_document cfg folder d)) l))
    by (intros l; apply load_documents_flat).
  split; [|split; [|split; [|split; [|split; [|split]]]]].
  - rewrite !Hflat; cbn [fst snd].
    induction docs as [|d docs IH]; simpl; [reflexivity|].
    destruct (usable folder d) eqn:Hu; simpl; [now rewrite IH|].
    now rewrite (load_document_unusable cfg _ _ Hu).
  - rewrite Hflat.
    induction docs as [|d docs IH]; simpl; intros H; [reflexivity|].
    rewrite (load_document_unusable cfg _ _ (H d (or_introl eq_refl))); simpl.
    assert (H' : forall d', In d' docs -> usable folder d' = false)
      by (intros; apply H; now right).
    specialize (IH H'); injection IH as -> ->; reflexivity.
  - rewrite Hflat; cbn [fst snd].
    induction docs as [|d docs IH]; simpl; [reflexivity|].
    rewrite IH, Hdoc; now destruct (read d).
  - rewrite Hflat; cbn [fst snd].
    induction docs as [|d docs IH]; simpl; [reflexivity|].
    rewrite IH, Hdoc; now destruct (read d).
  - intros before d after -> Hr; rewrite Happ, Hdoc, Hr; reflexivity.
  - intros before d after -> Hr; rewrite Happ, Hdoc, Hr; reflexivity.
  - intros d Hin Hr; rewrite Hflat; cbn [fst snd].
    apply in_flat_map; exists d; split; [exact Hin|].
    rewrite Hdoc, Hr; now left.
Qed.

(** ** From the pool to the report *)

Section PipelineFacts.

Lemma extracted_loop_None k l :
  extracted_loop k l = None <->
  exists item, In item l /\ document (section item) = None.
Proof.
  revert k; induction l as [|x l IH]; intros k; simpl.
  - split; [discriminate | intros [item [[] _]]].
  - destruct (document (section x)) as [d|] eqn:Hd.
    + destruct (extracted_loop (k + 1) l) eqn:Hl; split.
      * discriminate.
      * intros [item [[<-|Hin] Hnone]]; [congruence|].
        assert (Hex : exists item, In item l /\ document (section item) = None)
          by now exists item.
        apply (IH (k + 1)) in Hex; congruence.
      * intros _; destruct (proj1 (IH (k + 1)) Hl) as [item [Hin Hnone]].
        exists item; split; [now right | exact Hnone].
      * reflexivity.
    + split; [|reflexivity].
      intros _; exists x; split; [now left | exact Hd].
Qed.

Lemma analysis_loop_None cfg l :
  analysis_loop cfg l = None <->
  exists item, In item l /\ document (section item) = None.
Proof.
  induction l as [|x l IH]; simpl.
  - split; [discriminate | intros [item [[] _]]].
  - destruct (document (section x)) as [d|] eqn:Hd.
    + destruct (analysis_loop cfg l) eqn:Hl; split.
      * discriminate.
      * intros [item [[<-|Hin] Hnone]]; [congruence|].
        assert (Hex : exists item, In item l /\ document (section item) = None)
          by now exists item.
        apply IH in Hex; congruence.
      * intros _; destruct (proj1 IH eq_refl) as [item [Hin Hnone]].
        exists item; split; [now right | exact Hnone].
      * reflexivity.
    + split; [|reflexivity].
      intros _; exists x; split; [now left | exact Hd].
Qed.

Lemma create_output_json_None cfg now input_data relevant :
  create_output_json cfg now input_data relevant = None <->
  exists item, In item relevant /\ document (section item) = None.
Proof.
  unfold create_output_json.
  destruct (extracted_loop 1 relevant) as [ex|] eqn:Hex.
  - destruct (analysis_loop cfg relevant) as [an|] eqn:Han.
    + split; [discriminate|].
      intros H; apply (analysis_loop_None cfg) in H; congruence.
    + split; [|reflexivity].
      intros _; now apply (analysis_loop_None cfg).
  - split; [|reflexivity].
    intros _; now apply (extracted_loop_None 1).
Qed.

(** The documents named in the lists of a report. *)
Lemma extracted_loop_In k l out e :
  extracted_loop k l = Some out -> In e out ->
  exists item, In item l /\ document (section item) = Some (es_document e).
Proof.
  intros H He; apply In_nth_error in He as [i Hi].
  destruct (extracted_loop_nth _ _ _ H) as [Hlen Hnth].
  assert (Hlt : (i < length l)%nat).
  { rewrite <- Hlen; apply nth_error_Some; congruence. }
  destruct (nth_error l i) as [item|] eqn:Hitem;
    [|apply nth_error_None in Hitem; lia].
  destruct (Hnth _ _ Hitem) as [d [Hd Hout]].
  exists item; split; [eapply nth_error_In; eauto|].
  rewrite Hi in Hout; injection Hout as ->; exact Hd.
Qed.

Lemma analysis_loop_In_document cfg l out a :
  analysis_loop cfg l = Some out -> In a out ->
  exists item, In item l /\ document (section item) = Some (sa_document a).
Proof.
  intros H Ha; apply In_nth_error in Ha as [i Hi].
  destruct (analysis_loop_nth _ _ _ H) as [Hlen Hnth].
  assert (Hlt : (i < length l)%nat).
  { rewrite <- Hlen; apply nth_error_Some; congruence. }
  destruct (nth_error l i) as [item|] eqn:Hitem;
    [|apply nth_error_None in Hitem; lia].
  destruct (Hnth _ _ Hitem) as [d [Hd Hout]].
  exists item; split; [eapply nth_error_In; eauto|].
  rewrite Hi in Hout; injection Hout as ->; exact Hd.
Qed.

Context {E : Encoder}.

(** What is returned was kept by the filter, and comes from the pool. *)
Lemma result_In_cleared task sections model_name top_n t result a :
  Run.result (find_relevant_sections task sections model_name top_n t)
    = Some result ->
  In a result ->
  exists m,
    SentenceTransformer model_name = Some m /\
    In a (scored_sections t sections
            (cos_sim_row (encode m task)
               (encode_batch m (map combined_text sections)))).
Proof.
  intros Hres Ha; rewrite find_relevant_sections_result in Hres.
  destruct (SentenceTransformer model_name) as [m|]; [|discriminate].
  injection Hres as Hres; exists m; split; [reflexivity|].
  destruct (truthy sections); [|rewrite <- Hres in Ha; contradiction].
  apply (Permutation_in a (list_sort_reverse_perm _)).
  destruct (slice_to_prefix top_n
              (list_sort_reverse
                 (scored_sections t sections
                    (cos_sim_row (encode m task)
                       (encode_batch m (map combined_text sections))))))
    as [r Hr].
  rewrite Hr; apply in_or_app; left; now rewrite Hres.
Qed.

Lemma result_In_pool task sections model_name top_n t result a :
  Run.result (find_relevant_sections task sections model_name top_n t)
    = Some result ->
  In a result -> In (section a) sections.
Proof.
  intros Hres Ha.
  destruct (result_In_cleared _ _ _ _ _ _ _ Hres Ha) as [m [_ Hc]].
  unfold scored_sections in Hc.
  apply score_loop_In in Hc as [k [s [sim [Hk [_ ->]]]]]; simpl.
  apply nth_error_combine in Hk as [Hk _]; eapply nth_error_In; eauto.
Qed.

End PipelineFacts.

Section PoolFacts.

Context {U : UnicodeTables} {F : FileSystem} {E : Encoder}.

(** Every entry of a ranking of a loaded pool carries the name of a
    requested document that was read. *)
Lemma pool_ranking_documents cfg folder docs task name top_n t relevant :
  Run.result
    (find_relevant_sections task
       (snd (load_documents_with_sections cfg folder docs)) name top_n t)
    = Some relevant ->
  forall item, In item relevant ->
    exists d, In d docs /\ usable folder d = true /\
              document (section item) = Some (filename d).
Proof.
  intros Hres item Hitem.
  pose proof (result_In_pool _ _ _ _ _ _ _ Hres Hitem) as Hpool.
  rewrite load_documents_flat in Hpool; simpl in Hpool.
  apply in_flat_map in Hpool as [d [Hd Hs]].
  apply load_document_In in Hs as [Hu [doc [raw [s0 [_ [_ [_ [_ Heq]]]]]]]].
  exists d; rewrite Heq; now repeat split.
Qed.

Lemma pool_report_produced_aux cfg cfg' folder docs task name top_n t now
      input_data relevant :
  Run.result
    (find_relevant_sections task
       (snd (load_documents_with_sections cfg folder docs)) name top_n t)
    = Some relevant ->
  exists report, create_output_json cfg' now input_data relevant = Some report.
Proof.
  intros Hres.
  destruct (create_output_json cfg' now input_data relevant) as [r|] eqn:Hrep;
    [now exists r|].
  apply create_output_json_None in Hrep as [item [Hitem Hnone]].
  destruct (pool_ranking_documents _ _ _ _ _ _ _ _ Hres _ Hitem)
    as [d [_ [_ Hd]]]; congruence.
Qed.

Lemma result_length task sections name top_n t relevant :
  0 <= top_n ->
  Run.result (find_relevant_sections task sections name top_n t) = Some relevant ->
  len relevant <= top_n.
Proof.
  intros Htop Hres; rewrite find_relevant_sections_result in Hres.
  destruct (SentenceTransformer name); [|discriminate].
  injection Hres as <-.
  destruct (truthy sections); [now apply slice_to_length | unfold len; simpl; lia].
Qed.

End PoolFacts.

(** X10. [create_output_json] raises exactly when some ranked section has
    no ['document']; otherwise it returns a report. *)
Theorem create_output_json_raises_iff :
  forall cfg now input_data relevant,
    create_output_json cfg now input_data relevant = None <->
    exists item, In item relevant /\ document (section item) = None.
Proof. intros; apply create_output_json_None. Qed.

(** X11. Ranking a loaded pool and assembling the result always gives a
    report: no section of the pool lacks its document.  Every document the
    report names, in either list, is a requested document that the loader
    read. *)
Theorem pool_report_produced :
  forall (U : UnicodeTables) (F : FileSystem) (E : Encoder)
         cfg folder_path now input_data task model_name top_n min_similarity
         relevant,
    Run.result
      (find_relevant_sections task
         (snd (load_documents_with_sections cfg folder_path
                 (documents input_data)))
         model_name top_n min_similarity) = Some relevant ->
    exists report,
      create_output_json cfg now input_data relevant = Some report /\
      (forall e, In e (extracted_sections report) ->
         exists d, In d (documents input_data) /\
                   usable folder_path d = true /\ es_document e = filename d) /\
      (forall a, In a (subsection_analysis report) ->
         exists d, In d (documents input_data) /\
                   usable folder_path d = true /\ sa_document a = filename d).
Proof.
  intros U F E cfg folder now input_data task name top_n t relevant Hres.
  pose proof (pool_ranking_documents _ _ _ _ _ _ _ _ Hres) as Hdoc.
  destruct (create_output_json cfg now input_data relevant) as [report|] eqn:Hrep.
  - exists report; split; [reflexivity|].
    apply create_output_json_analysis in Hrep as [Hex Han]; split.
    + intros e He.
      destruct (extracted_loop_In _ _ _ _ Hex He) as [item [Hitem Hd]].
      destruct (Hdoc _ Hitem) as [d [Hin [Hu Hd']]].
      exists d; repeat split; try assumption; congruence.
    + intros a Ha.
      destruct (analysis_loop_In_document _ _ _ _ Han Ha) as [item [Hitem Hd]].
      destruct (Hdoc _ Hitem) as [d [Hin [Hu Hd']]].
      exists d; repeat split; try assumption; congruence.
  - apply create_output_json_None in Hrep as [item [Hitem Hnone]].
    destruct (Hdoc _ Hitem) as [d [_ [_ Hd]]]; congruence.
Qed.

(** ** The run *)

Section MainFacts.

Context {U : UnicodeTables} {F : FileSystem} {E : Encoder} {X : Faults}.
Variable cfg : Config.
Variable paths : ConfigPaths.

(** What the ranker of a run returns and what it logs. *)
Lemma run_find_relevant_sections_result task sections model_name top_n t :
  Run.result (run_find_relevant_sections task sections model_name top_n t)
  = match SentenceTransformer model_name with
    | None => None
    | Some m =>
        if truthy sections
        then if encode_raises m task
                || encode_batch_raises m (map combined_text sections)
                || cos_sim_raises (encode m task)
                     (encode_batch m (map combined_text sections))
             then None
             else Some (slice_to top_n
                          (list_sort_reverse
                             (scored_sections t sections
                                (cos_sim_row (encode m task)
                                   (encode_batch m (map combined_text sections))))))
        else Some []
    end.
Proof.
  unfold Run.result, run_find_relevant_sections, construct_model, run_encode, run_encode_batch, run_cos_sim, Run.bind,
    Run.emit, Run.ret, Run.raise; simpl.
  destruct (SentenceTransformer model_name) as [m|]; [|reflexivity].
  destruct sections as [|s sections]; [reflexivity|]; cbn [truthy negb].
  destruct (encode_raises m task); [reflexivity|].
  destruct (encode_batch_raises m _); [reflexivity|].
  destruct (cos_sim_raises _ _); reflexivity.
Qed.

Lemma run_find_relevant_sections_trace task sections model_name top_n t :
  Run.trace (run_find_relevant_sections task sections model_name top_n t)
  = EvConstruct model_name
    :: match SentenceTransformer model_name with
       | None => []
       | Some m =>
           if truthy sections
           then EvEncode task
                :: (if encode_raises m task then []
                    else EvEncodeBatch (map combined_text sections)
                         :: (if encode_batch_raises m (map combined_text sections)
                             then [] else [EvCosSim]))
           else []
       end.
Proof.
  unfold Run.trace, run_find_relevant_sections, construct_model, run_encode,
    run_encode_batch, run_cos_sim, Run.bind, Run.emit, Run.ret, Run.raise; simpl.
  destruct (SentenceTransformer model_name) as [m|]; [|reflexivity].
  destruct sections as [|s sections]; [reflexivity|]; cbn [truthy negb].
  destruct (encode_raises m task); [reflexivity|].
  destruct (encode_batch_raises m _); [reflexivity|].
  destruct (cos_sim_raises _ _); reflexivity.
Qed.

(** When the ranker of a run returns, it returns what
    [find_relevant_sections] returns. *)
Lemma run_find_relevant_sections_agrees task sections model_name top_n t relevant :
  Run.result (run_find_relevant_sections task sections model_name top_n t)
    = Some relevant ->
  Run.result (find_relevant_sections task sections model_name top_n t)
    = Some relevant.
Proof.
  rewrite run_find_relevant_sections_result, find_relevant_sections_result.
  destruct (SentenceTransformer model_name) as [m|]; [|discriminate].
  destruct (truthy sections); [|exact (fun H => H)].
  destruct (encode_raises m task
            || encode_batch_raises m (map combined_text sections)
            || cos_sim_raises (encode m task)
                 (encode_batch m (map combined_text sections)));
    [discriminate | exact (fun H => H)].
Qed.

(** The ways a run ends, with its log. *)
Lemma main_process_cases now input_data :
  let loaded :=
    load_documents_with_sections cfg (FOLDER_PATH paths) (documents input_data) in
  let run :=
    run_find_relevant_sections (job_task input_data) (snd loaded)
      (SIMILARITY_MODEL cfg) (TOP_N_SECTIONS cfg) (MIN_SIMILARITY_THRESHOLD cfg) in
  let ranking :=
    find_relevant_sections (job_task input_data) (snd loaded)
      (SIMILARITY_MODEL cfg) (TOP_N_SECTIONS cfg) (MIN_SIMILARITY_THRESHOLD cfg) in
  let head :=
    map Printed (fst loaded)
    ++ [Printed (MsgExtracted (len (snd loaded)) (len (documents input_data)))] in
  (snd loaded = [] /\
   main_process cfg paths now input_data
   = (head ++ [Printed MsgNoSections], Exited)) \/
  (snd loaded <> [] /\
   Run.result run = None /\
   main_process cfg paths now input_data
   = ((head ++ [Printed (MsgFinding (job_task input_data))])
        ++ map Encoder_use (Run.trace run), Raised)) \/
  (snd loaded <> [] /\
   exists relevant report,
     Run.result run = Some relevant /\
     Run.result ranking = Some relevant /\
     create_output_json cfg now input_data relevant = Some report /\
     write_raises (OUTPUT_FILE paths) report = true /\
     main_process cfg paths now input_data
     = ((head ++ [Printed (MsgFinding (job_task input_data))])
          ++ map Encoder_use (Run.trace run), Raised)) \/
  (snd loaded <> [] /\
   exists relevant report,
     Run.result run = Some relevant /\
     Run.result ranking = Some relevant /\
     create_output_json cfg now input_data relevant = Some report /\
     write_raises (OUTPUT_FILE paths) report = false /\
     main_process cfg paths now input_data
     = (((head ++ [Printed (MsgFinding (job_task input_data))])
           ++ map Encoder_use (Run.trace run))
          ++ [Written (OUTPUT_FILE paths) report;
              Printed (MsgSaved (OUTPUT_FILE paths))], Finished)).
Proof.
  intros loaded run ranking head; subst head ranking run loaded.
  unfold main_process.
  destruct (load_documents_with_sections cfg (FOLDER_PATH paths)
              (documents input_data)) as [warnings pool] eqn:Hl.
  cbn [fst snd].
  destruct pool as [|s pool]; [left; split; reflexivity|].
  right; cbn [truthy negb].
  assert (Hpool : s :: pool
            = snd (load_documents_with_sections cfg (FOLDER_PATH paths)
                     (documents input_data))) by now rewrite Hl.
  set (run := run_find_relevant_sections (job_task input_data) (s :: pool)
                (SIMILARITY_MODEL cfg) (TOP_N_SECTIONS cfg)
                (MIN_SIMILARITY_THRESHOLD cfg)).
  destruct (Run.result run) as [relevant|] eqn:Hres.
  - right.
    assert (Hplain := Hres); unfold run in Hplain.
    apply run_find_relevant_sections_agrees in Hplain.
    assert (Hplain' := Hplain); rewrite Hpool in Hplain'.
    destruct (pool_report_produced_aux _ cfg _ _ _ _ _ _ now input_data _ Hplain')
      as [report Hrep].
    rewrite Hrep.
    destruct (write_raises (OUTPUT_FILE paths) report) eqn:Hw.
    + left; split; [discriminate|].
      exists relevant, report; repeat split; assumption.
    + right; split; [discriminate|].
      exists relevant, report; repeat split; assumption.
  - left; split; [discriminate|]; split; reflexivity.
Qed.

End MainFacts.

(** When no call raises, the ranker of a run is [find_relevant_sections]. *)
Lemma run_find_relevant_sections_no_faults
      (E : Encoder) task sections model_name top_n t tr :
  run_find_relevant_sections (X := no_faults) task sections model_name top_n t tr
  = find_relevant_sections task sections model_name top_n t tr.
Proof.
  unfold run_find_relevant_sections, find_relevant_sections, construct_model,
    run_encode, run_encode_batch, run_cos_sim, call_encode, call_encode_batch,
    call_cos_sim, Run.bind, Run.emit, Run.ret, Run.raise; simpl.
  destruct (SentenceTransformer model_name); [|reflexivity].
  destruct sections; reflexivity.
Qed.

Ltac log_in H :=
  repeat match type of H with
         | In _ (_ ++ _) => apply in_app_or in H; destruct H as [H|H]
         | In _ (map _ _) =>
             let x := fresh "x" in
             let Hx := fresh "Hx" in
             apply in_map_iff in H; destruct H as [x [Hx H]]; try discriminate Hx
         | In _ (_ :: _) => destruct H as [H|H]; try discriminate H
         | In _ [] => destruct H
         end.

(** X12. How a run ends.  It exits exactly when the loader found no
    section.  Otherwise it finishes exactly when the model is constructed,
    no call of the encoder raises and the report is written; it raises when
    the model cannot be constructed, when a call of the encoder raises, or
    when the writing of the report raises ([open] or [json.dump], for
    instance on an output file that cannot be written), though pool and
    model are fine.  The assembler is not among the causes: it returns a
    report for every ranking of the loaded pool.  A run that raises has
    written no report and has not printed that the output is saved. *)
Theorem main_process_outcome :
  forall (U : UnicodeTables) (F : FileSystem) (E : Encoder) (X : Faults)
         cfg paths now input_data,
    let pool :=
      snd (load_documents_with_sections cfg (FOLDER_PATH paths)
             (documents input_data)) in
    let task := job_task input_data in
    let ranking :=
      Run.result
        (find_relevant_sections task pool (SIMILARITY_MODEL cfg)
           (TOP_N_SECTIONS cfg) (MIN_SIMILARITY_THRESHOLD cfg)) in
    let encoder_raises := fun m : model =>
      encode_raises m task
      || encode_batch_raises m (map combined_text pool)
      || cos_sim_raises (encode m task)
           (encode_batch m (map combined_text pool)) in
    let outcome := snd (main_process cfg paths now input_data) in
    let log := fst (main_process cfg paths now input_data) in
    outcome
    = match pool with
      | [] => Exited
      | _ :: _ =>
          match SentenceTransformer (SIMILARITY_MODEL cfg) with
          | None => Raised
          | Some m =>
              if encoder_raises m then Raised
              else
                match ranking with
                | None => Raised
                | Some relevant =>
                    match create_output_json cfg now input_data relevant with
                    | None => Raised
                    | Some report =>
                        if write_raises (OUTPUT_FILE paths) report
                        then Raised else Finished
                    end
                end
          end
      end /\
    (outcome = Exited <-> pool = []) /\
    (outcome = Finished <->
     pool <> [] /\
     exists m relevant report,
       SentenceTransformer (SIMILARITY_MODEL cfg) = Some m /\
       encoder_raises m = false /\
       ranking = Some relevant /\
       create_output_json cfg now input_data relevant = Some report /\
       write_raises (OUTPUT_FILE paths) report = false) /\
    (outcome = Raised <->
     pool <> [] /\
     (SentenceTransformer (SIMILARITY_MODEL cfg) = None \/
      (exists m,
          SentenceTransformer (SIMILARITY_MODEL cfg) = Some m /\
          encoder_raises m = true) \/
      (exists m relevant report,
          SentenceTransformer (SIMILARITY_MODEL cfg) = Some m /\
          encoder_raises m = false /\
          ranking = Some relevant /\
          create_output_json cfg now input_data relevant = Some report /\
          write_raises (OUTPUT_FILE paths) report = true))) /\
    (forall relevant,
        ranking = Some relevant ->
        exists report,
          create_output_json cfg now input_data relevant = Some report) /\
    (outcome = Raised ->
     (forall f r, ~ In (Written f r) log) /\
     (forall f, ~ In (Printed (MsgSaved f)) log)).
Proof.
  intros U F E X cfg paths now input_data pool task ranking encoder_raises
         outcome log.
  assert (Hasm : forall relevant,
             ranking = Some relevant ->
             exists report,
               create_output_json cfg now input_data relevant = Some report).
  { intros relevant Hr.
    exact (pool_report_produced_aux _ cfg _ _ _ _ _ _ now input_data _ Hr). }
  assert (Hmatch :
    outcome
    = match pool with
      | [] => Exited
      | _ :: _ =>
          match SentenceTransformer (SIMILARITY_MODEL cfg) with
          | None => Raised
          | Some m =>
              if encoder_raises m then Raised
              else
                match ranking with
                | None => Raised
                | Some relevant =>
                    match create_output_json cfg now input_data relevant with
                    | None => Raised
                    | Some report =>
                        if write_raises (OUTPUT_FILE paths) report
                        then Raised else Finished
                    end
                end
          end
      end).
  { unfold outcome.
    destruct (main_process_cases cfg paths now input_data)
      as [[Hp ->]|[[Hp [Hres ->]]
                  |[[Hp [relevant [report [Hres [Hpl [Hrep [Hw ->]]]]]]]
                   |[Hp [relevant [report [Hres [Hpl [Hrep [Hw ->]]]]]]]]]];
      cbn [snd]; fold pool in Hp.
    - now rewrite Hp.
    - rewrite run_find_relevant_sections_result in Hres.
      fold pool task in Hres.
      destruct pool as [|s pool']; [congruence|].
      destruct (SentenceTransformer (SIMILARITY_MODEL cfg)) as [m|];
        [|reflexivity].
      cbn [truthy] in Hres; fold (encoder_raises m) in Hres.
      destruct (encoder_raises m); [reflexivity | discriminate].
    - rewrite run_find_relevant_sections_result in Hres.
      fold pool task in Hres, Hpl; fold ranking in Hpl.
      destruct pool as [|s pool']; [congruence|].
      destruct (SentenceTransformer (SIMILARITY_MODEL cfg)) as [m|];
        [|discriminate].
      cbn [truthy] in Hres; fold (encoder_raises m) in Hres.
      destruct (encoder_raises m); [reflexivity|].
      now rewrite Hpl, Hrep, Hw.
    - rewrite run_find_relevant_sections_result in Hres.
      fold pool task in Hres, Hpl; fold ranking in Hpl.
      destruct pool as [|s pool']; [congruence|].
      destruct (SentenceTransformer (SIMILARITY_MODEL cfg)) as [m|];
        [|discriminate].
      cbn [truthy] in Hres; fold (encoder_raises m) in Hres.
      destruct (encoder_raises m); [discriminate|].
      now rewrite Hpl, Hrep, Hw. }
  split; [exact Hmatch|].
  split; [|split; [|split; [|split; [exact Hasm|]]]].
  - rewrite Hmatch; destruct pool as [|s pool']; [tauto|].
    split; [|discriminate].
    destruct (SentenceTransformer (SIMILARITY_MODEL cfg)) as [m|]; [|discriminate].
    destruct (encoder_raises m); [discriminate|].
    destruct ranking as [relevant|]; [|discriminate].
    destruct (create_output_json cfg now input_data relevant) as [report|];
      [|discriminate].
    destruct (write_raises (OUTPUT_FILE paths) report); discriminate.
  - rewrite Hmatch; destruct pool as [|s pool'].
    { split; [discriminate | intros [H _]; congruence]. }
    destruct (SentenceTransformer (SIMILARITY_MODEL cfg)) as [m|].
    2:{ split; [discriminate | intros [_ [m [_ [_ [H _]]]]]; discriminate]. }
    destruct (encoder_raises m) eqn:Henc.
    { split; [discriminate|].
      intros [_ [m' [_ [_ [Hm [He _]]]]]]; injection Hm as <-; congruence. }
    destruct ranking as [relevant|].
    2:{ split; [discriminate|].
        intros [_ [_ [rel [_ [_ [_ [H _]]]]]]]; discriminate. }
    destruct (create_output_json cfg now input_data relevant) as [report|] eqn:Hrep.
    2:{ split; [discriminate|].
        intros [_ [_ [rel [rep [_ [_ [Hr [H _]]]]]]]].
        injection Hr as <-; congruence. }
    destruct (write_raises (OUTPUT_FILE paths) report) eqn:Hw.
    { split; [discriminate|].
      intros [_ [_ [rel [rep [_ [_ [Hr [H Hw']]]]]]]].
      injection Hr as <-; rewrite Hrep in H; injection H as <-; congruence. }
    split; [intros _|reflexivity].
    split; [discriminate|].
    exists m, relevant, report; repeat split; assumption.
  - rewrite Hmatch; destruct pool as [|s pool'].
    { split; [discriminate | intros [H _]; congruence]. }
    destruct (SentenceTransformer (SIMILARITY_MODEL cfg)) as [m|] eqn:Hm.
    2:{ split; [intros _; split; [discriminate | now left] | reflexivity]. }
    destruct (encoder_raises m) eqn:Henc.
    { split; [intros _; split; [discriminate|] | reflexivity].
      right; left; now exists m. }
    destruct ranking as [relevant|] eqn:Hrank.
    2:{ exfalso; unfold ranking in Hrank.
        rewrite find_relevant_sections_result, Hm in Hrank; discriminate. }
    destruct (Hasm relevant eq_refl) as [report Hrep]; rewrite Hrep.
    destruct (write_raises (OUTPUT_FILE paths) report) eqn:Hw.
    { split; [intros _; split; [discriminate|] | reflexivity].
      right; right; exists m, relevant, report; repeat split; assumption. }
    split; [discriminate|].
    intros [_ [H|[[m' [Hm' He]]|[m' [rel [rep [_ [_ [Hr [H Hw']]]]]]]]]].
    + discriminate.
    + injection Hm' as <-; congruence.
    + injection Hr as <-; rewrite Hrep in H; injection H as <-; congruence.
  - unfold outcome, log.
    destruct (main_process_cases cfg paths now input_data)
      as [[Hp ->]|[[Hp [Hres ->]]
                  |[[Hp [relevant [report [Hres [Hpl [Hrep [Hw ->]]]]]]]
                   |[Hp [relevant [report [Hres [Hpl [Hrep [Hw ->]]]]]]]]]];
      cbn [fst snd]; try discriminate;
      intros _; (split; [intros f r H; log_in H | intros f H]).
    all: repeat (apply in_app_or in H; destruct H as [H|H]).
    all: try (apply in_map_iff in H; destruct H as [x [Hx H]]).
    all: try discriminate Hx.
    all: try (injection Hx as ->;
              exact (load_messages_kind cfg _ _ _ H)).
    all: repeat (destruct H as [H|H]; try discriminate H).
    all: destruct H.
Qed.

(** X13. What a run touches.  When the loader found no section the run
    exits without any use of the encoder, the model is not even
    constructed.  A report is written only by a run that finishes, to
    [OUTPUT_FILE], and it is the report assembled from the ranking of the
    pool; with a non-negative [TOP_N_SECTIONS] it lists at most that many
    sections.  A run that finishes has written one. *)
Theorem main_process_effects :
  forall (U : UnicodeTables) (F : FileSystem) (E : Encoder) (X : Faults)
         cfg paths now input_data,
    (snd (load_documents_with_sections cfg (FOLDER_PATH paths)
            (documents input_data)) = [] ->
     forall e, ~ In (Encoder_use e) (fst (main_process cfg paths now input_data))) /\
    (forall f r,
        In (Written f r) (fst (main_process cfg paths now input_data)) ->
        snd (main_process cfg paths now input_data) = Finished /\
        f = OUTPUT_FILE paths /\
        exists relevant,
          Run.result
            (find_relevant_sections (job_task input_data)
               (snd (load_documents_with_sections cfg (FOLDER_PATH paths)
                       (documents input_data)))
               (SIMILARITY_MODEL cfg) (TOP_N_SECTIONS cfg)
               (MIN_SIMILARITY_THRESHOLD cfg)) = Some relevant /\
          create_output_json cfg now input_data relevant = Some r /\
          (0 <= TOP_N_SECTIONS cfg ->
           len (extracted_sections r) <= TOP_N_SECTIONS cfg /\
           len (subsection_analysis r) <= TOP_N_SECTIONS cfg)) /\
    (snd (main_process cfg paths now input_data) = Finished ->
     exists r,
       In (Written (OUTPUT_FILE paths) r)
          (fst (main_process cfg paths now input_data))).
Proof.
  intros U F E X cfg paths now input_data.
  destruct (main_process_cases cfg paths now input_data)
    as [[Hp ->]|[[Hp [Hm ->]]
                |[[Hp [relevant [report [_ [Hres [Hrep [Hw ->]]]]]]]
                 |[Hp [relevant [report [_ [Hres [Hrep [Hw ->]]]]]]]]]];
    cbn [fst snd]; (split; [|split]).
  - intros _ e H; log_in H.
  - intros f r H; log_in H.
  - discriminate.
  - congruence.
  - intros f r H; log_in H.
  - discriminate.
  - congruence.
  - intros f r H; log_in H.
  - discriminate.
  - congruence.
  - intros f r H; log_in H; injection H as <- <-.
    split; [reflexivity|]; split; [reflexivity|].
    exists relevant; split; [exact Hres|]; split; [exact Hrep|].
    intros Htop; pose proof (result_length _ _ _ _ _ _ Htop Hres) as Hlen.
    apply create_output_json_analysis in Hrep as [Hex Han].
    apply extracted_loop_nth in Hex as [Hl1 _].
    apply analysis_loop_nth in Han as [Hl2 _].
    unfold len in *; lia.
  - intros _; exists report; apply in_or_app; right; now left.
Qed.

(** ** More on refined texts *)

Section RefineFacts.

Lemma forallb_isspace_rev s : forallb isspace (rev s) = forallb isspace s.
Proof.
  apply eq_true_iff_eq; rewrite !forallb_forall; split; intros H x Hx;
    apply H; [rewrite <- in_rev | rewrite in_rev]; exact Hx.
Qed.

Lemma lstrip_all_ws s : forallb isspace s = true -> lstrip s = [].
Proof.
  induction s as [|c s IH]; simpl; [reflexivity|].
  intros H; apply andb_prop in H as [-> H]; now apply IH.
Qed.

Lemma lstrip_app a b :
  lstrip (a ++ b) = if forallb isspace a then lstrip b else lstrip a ++ b.
Proof.
  induction a as [|c a IH]; simpl; [reflexivity|].
  destruct (isspace c); simpl; [exact IH | reflexivity].
Qed.

Lemma rstrip_all_ws s : forallb isspace s = true -> rstrip s = [].
Proof.
  intros H; unfold rstrip; rewrite lstrip_all_ws; [reflexivity|].
  now rewrite forallb_isspace_rev.
Qed.

Lemma rstrip_cons c s :
  rstrip (c :: s) = if forallb isspace (c :: s) then [] else c :: rstrip s.
Proof.
  unfold rstrip; simpl rev; rewrite lstrip_app, forallb_isspace_rev.
  cbn [forallb]; destruct (forallb isspace s) eqn:Hs.
  - rewrite andb_true_r.
    rewrite (lstrip_all_ws (rev s)) by now rewrite forallb_isspace_rev.
    simpl; destruct (isspace c); reflexivity.
  - rewrite andb_false_r, rev_app_distr; reflexivity.
Qed.

Lemma lstrip_rstrip_comm s : lstrip (rstrip s) = rstrip (lstrip s).
Proof.
  induction s as [|c s IH]; [reflexivity|].
  rewrite rstrip_cons; cbn [lstrip forallb].
  destruct (isspace c) eqn:Hc; cbn [andb].
  - destruct (forallb isspace s) eqn:Hs.
    + now rewrite (lstrip_all_ws s Hs).
    + cbn [lstrip]; rewrite Hc; exact IH.
  - cbn [lstrip]; rewrite Hc, rstrip_cons; cbn [forallb]; now rewrite Hc.
Qed.

Lemma sub_ws_aux_true_lstrip s : sub_ws_aux true s = sub_ws_aux false (lstrip s).
Proof.
  induction s as [|c s IH]; simpl; [reflexivity|].
  destruct (isspace c) eqn:Hc; [exact IH|].
  simpl; now rewrite Hc.
Qed.

Lemma words_aux_all_ws cur s :
  forallb isspace s = true ->
  words_aux cur s = match cur with [] => [] | _ => [rev cur] end.
Proof.
  revert cur; induction s as [|c s IH]; intros cur H; simpl in *; [reflexivity|].
  apply andb_prop in H as [-> H].
  destruct cur; rewrite (IH [] H); reflexivity.
Qed.

Lemma words_aux_nil s : words_aux [] s = [] -> forallb isspace s = true.
Proof.
  induction s as [|c s IH]; simpl; [reflexivity|].
  destruct (isspace c); simpl; [exact IH|].
  intros H; destruct (words_aux_first [c] s) as [w [ws [Hw _]]];
    [discriminate | congruence].
Qed.

Lemma join_cons sep w l :
  join sep (w :: l) = w ++ match l with [] => [] | _ => sep ++ join sep l end.
Proof. destruct l; simpl; [now rewrite app_nil_r | reflexivity]. Qed.

(** Joining the words is collapsing the stripped string. *)
Lemma join_words_aux s :
  join [chr_space] (words_aux [] s) = sub_ws_aux false (rstrip (lstrip s)) /\
  forall cur, cur <> [] ->
    join [chr_space] (words_aux cur s) = rev cur ++ sub_ws_aux false (rstrip s).
Proof.
  induction s as [|c s [IHA IHB]].
  - split; [reflexivity|].
    intros [|d cur] H; [congruence|]; simpl; now rewrite app_nil_r.
  - split.
    + simpl; destruct (isspace c) eqn:Hc; [exact IHA|].
      rewrite (IHB [c]) by discriminate.
      rewrite rstrip_cons; simpl; rewrite Hc; simpl; now rewrite Hc.
    + intros cur Hcur; cbn [words_aux]; destruct (isspace c) eqn:Hc.
      * destruct cur as [|d cur]; [congruence|].
        rewrite join_cons, rstrip_cons; cbn [forallb]; rewrite Hc; cbn [andb].
        destruct (forallb isspace s) eqn:Hs.
        -- rewrite (words_aux_all_ws [] s Hs); reflexivity.
        -- destruct (words_aux [] s) as [|w ws] eqn:Hw.
           ++ apply words_aux_nil in Hw; congruence.
           ++ rewrite IHA; cbn [sub_ws_aux app]; rewrite Hc.
              now rewrite sub_ws_aux_true_lstrip, lstrip_rstrip_comm.
      * rewrite (IHB (c :: cur)) by discriminate.
        rewrite rstrip_cons; cbn [forallb]; rewrite Hc; cbn [andb sub_ws_aux].
        rewrite Hc; cbn [rev]; rewrite <- app_assoc; reflexivity.
Qed.

Lemma join_split_ws s : join [chr_space] (split_ws s) = sub_ws (strip s).
Proof. exact (proj1 (join_words_aux s)). Qed.

Lemma sub_ws_aux_true_starts s : starts_with_ws (sub_ws_aux true s) = false.
Proof.
  induction s as [|c s IH]; simpl; [reflexivity|].
  destruct (isspace c) eqn:Hc; [exact IH | simpl; exact Hc].
Qed.

Lemma sub_ws_aux_single_spaced b s : single_spaced (sub_ws_aux b s) = true.
Proof.
  revert b; induction s as [|c s IH]; intros b; simpl; [reflexivity|].
  destruct (isspace c) eqn:Hc.
  - destruct b; [apply IH|].
    cbn [single_spaced]; rewrite isspace_space, sub_ws_aux_true_starts, IH.
    reflexivity.
  - simpl; rewrite Hc; apply IH.
Qed.

Lemma single_spaced_at pre c post :
  single_spaced (pre ++ c :: post) = true -> isspace c = true ->
  c = chr_space /\ starts_with_ws post = false.
Proof.
  induction pre as [|d pre IH]; simpl; intros H Hc.
  - rewrite Hc in H; apply andb_prop in H as [H _].
    apply andb_prop in H as [H1 H2].
    apply N.eqb_eq in H1; apply negb_true_iff in H2; now split.
  - apply andb_prop in H as [_ H]; now apply IH.
Qed.

End RefineFacts.

(** X14. The refined text is the words of the cut joined by single spaces:
    it is [' '.join(content[:MAX_REFINED_TEXT_LENGTH].split())]. *)
Theorem refine_text_join_words :
  forall cfg content,
    refine_text cfg content
    = join [chr_space] (split_ws (slice_to (MAX_REFINED_TEXT_LENGTH cfg) content)).
Proof. intros cfg content; unfold refine_text; now rewrite join_split_ws. Qed.

(** X15. In a refined text every whitespace character is a plain space
    standing between two characters that are not whitespace: no tab or
    newline survives and no two spaces are adjacent. *)
Theorem refine_text_spaces :
  forall cfg content pre c post,
    refine_text cfg content = pre ++ c :: post ->
    isspace c = true ->
    c = chr_space /\
    pre <> [] /\ ends_with_ws pre = false /\
    post <> [] /\ starts_with_ws post = false.
Proof.
  intros cfg content pre c post Heq Hc.
  pose proof (refine_text_starts cfg content) as Hstart.
  pose proof (refine_text_ends cfg content) as Hend.
  assert (Hss : single_spaced (refine_text cfg content) = true)
    by apply sub_ws_aux_single_spaced.
  rewrite Heq in Hstart, Hend, Hss.
  destruct (single_spaced_at _ _ _ Hss Hc) as [H1 H2].
  split; [exact H1|]; split; [|split; [|split; [|exact H2]]].
  - intros ->; simpl in Hstart; congruence.
  - unfold ends_with_ws; destruct (rev pre) as [|d r] eqn:Hr; [reflexivity|].
    apply (f_equal (@rev char)) in Hr; rewrite rev_involutive in Hr; simpl in Hr.
    simpl; destruct (isspace d) eqn:Hd; [|reflexivity].
    rewrite Hr, <- app_assoc in Hss; simpl in Hss.
    destruct (single_spaced_at _ _ _ Hss Hd) as [_ H]; simpl in H; congruence.
  - intros ->.
    change (pre ++ [c]) with (pre ++ [] ++ [c]) in Hend.
    rewrite ends_with_ws_app in Hend; congruence.
Qed.

(** ** More on the ranker *)

Section RankerCuts.

Context {E : Encoder}.

(** The result is always a slice of the whole ranking. *)
Lemma find_relevant_sections_result_cut task sections model_name top_n t :
  Run.result (find_relevant_sections task sections model_name top_n t)
  = match SentenceTransformer model_name with
    | None => None
    | Some m =>
        Some (slice_to top_n
                (list_sort_reverse
                   (scored_sections t sections
                      (cos_sim_row (encode m task)
                         (encode_batch m (map combined_text sections))))))
    end.
Proof.
  rewrite find_relevant_sections_result.
  destruct (SentenceTransformer model_name); [|reflexivity].
  destruct sections; [|reflexivity].
  unfold slice_to; simpl; destruct (0 <=? top_n); now rewrite ?firstn_nil.
Qed.

Lemma score_loop_length t i l : (length (score_loop t i l) <= length l)%nat.
Proof.
  revert i; induction l as [|[s sim] l IH]; intros i; simpl; [lia|].
  specialize (IH (i + 1)); destruct (SFleb t sim); simpl; lia.
Qed.

Lemma ranked_length t sections sims :
  (length (list_sort_reverse (scored_sections t sections sims))
   <= length sections)%nat.
Proof.
  rewrite (Permutation_length (list_sort_reverse_perm _)).
  unfold scored_sections.
  etransitivity; [apply score_loop_length|].
  rewrite length_combine; lia.
Qed.

Lemma score_loop_nan t i l : is_nan t = true -> score_loop t i l = [].
Proof.
  intros Ht; revert i; induction l as [|[s sim] l IH]; intros i; simpl;
    [reflexivity|].
  destruct (SFleb t sim) eqn:Hle; [|apply IH].
  apply SFleb_not_nan in Hle as [H _]; congruence.
Qed.

Lemma StronglySorted_lt_NoDup (l : list Z) :
  StronglySorted Z.lt l -> NoDup l.
Proof.
  induction 1 as [|x l Hs IH Hall]; constructor; [|exact IH].
  intros Hin; rewrite Forall_forall in Hall; specialize (Hall x Hin); lia.
Qed.

Lemma StronglySorted_map {A B} (f : A -> B) (R : B -> B -> Prop) l :
  StronglySorted (fun a b => R (f a) (f b)) l -> StronglySorted R (map f l).
Proof.
  induction 1 as [|x l Hs IH Hall]; simpl; constructor; [exact IH|].
  rewrite Forall_forall in *; intros y Hy.
  apply in_map_iff in Hy as [z [<- Hz]]; now apply Hall.
Qed.

Lemma NoDup_firstn {A} n (l : list A) : NoDup l -> NoDup (firstn n l).
Proof.
  revert l; induction n as [|n IH]; intros [|x l] H; simpl; try constructor.
  - inversion H; subst; intros Hin; apply H2.
    rewrite <- (firstn_skipn n l); apply in_or_app; now left.
  - inversion H; subst; now apply IH.
Qed.

Lemma slice_to_is_firstn {A} n (l : list A) : exists k, slice_to n l = firstn k l.
Proof. unfold slice_to; destruct (0 <=? n); eexists; reflexivity. Qed.

End RankerCuts.


(** X17. A similarity that is not a number is never returned, and a
    threshold that is not a number lets nothing through. *)
Theorem find_relevant_sections_nan_free :
  forall (E : Encoder) task sections model_name top_n min_similarity result,
    Run.result
      (find_relevant_sections task sections model_name top_n min_similarity)
      = Some result ->
    (forall a, In a result -> is_nan (similarity a) = false) /\
    (is_nan min_similarity = true -> result = []).
Proof.
  intros E task sections name top_n t result Hres; split.
  - intros a Ha.
    destruct (result_In_cleared _ _ _ _ _ _ _ Hres Ha) as [m [_ Hc]].
    now apply scored_sections_cleared in Hc as [_ Hv].
  - intros Ht; rewrite find_relevant_sections_result_cut in Hres.
    destruct (SentenceTransformer name); [|discriminate].
    injection Hres as <-; unfold scored_sections.
    rewrite (score_loop_nan _ _ _ Ht); unfold slice_to; simpl.
    destruct (0 <=? top_n); now rewrite ?firstn_nil.
Qed.

(** X18. [top_n] only cuts the ranking.  Whatever [top_n] is, the result is
    the slice [[:top_n]] of the result obtained with a [top_n] that is at
    least the size of the pool.  A negative [top_n] therefore does not give
    an empty list: it drops the last [-top_n] entries of the ranking. *)
Theorem find_relevant_sections_top_n_cut :
  forall (E : Encoder) task sections model_name top_n top_all min_similarity
         ranking,
    len sections <= top_all ->
    Run.result
      (find_relevant_sections task sections model_name top_all min_similarity)
      = Some ranking ->
    Run.result
      (find_relevant_sections task sections model_name top_n min_similarity)
      = Some (slice_to top_n ranking) /\
    (top_n < 0 -> len (slice_to top_n ranking) = Z.max 0 (len ranking + top_n)).
Proof.
  intros E task sections name top_n top_all t ranking Hall Hres.
  rewrite find_relevant_sections_result_cut in *.
  destruct (SentenceTransformer name) as [m|]; [|discriminate].
  injection Hres as <-.
  rewrite (slice_to_all top_all).
  - split; [reflexivity|].
    intros Hneg; unfold slice_to, len.
    destruct (Z.leb_spec 0 top_n); [lia|].
    rewrite length_firstn; lia.
  - pose proof (ranked_length t sections
                  (cos_sim_row (encode m task)
                     (encode_batch m (map combined_text sections)))).
    unfold len in *; lia.
Qed.

(** X19. Asking for more never reorders: for [0 <= n1 <= n2] the result for
    [top_n = n1] is the first [n1] entries of the result for [top_n = n2]. *)
Theorem find_relevant_sections_top_n_prefix :
  forall (E : Encoder) task sections model_name n1 n2 min_similarity r1 r2,
    0 <= n1 <= n2 ->
    Run.result (find_relevant_sections task sections model_name n1 min_similarity)
      = Some r1 ->
    Run.result (find_relevant_sections task sections model_name n2 min_similarity)
      = Some r2 ->
    r1 = firstn (Z.to_nat n1) r2.
Proof.
  intros E task sections name n1 n2 t r1 r2 Hn H1 H2.
  rewrite find_relevant_sections_result_cut in *.
  destruct (SentenceTransformer name) as [m|]; [|discriminate].
  injection H1 as <-; injection H2 as <-.
  rewrite !slice_to_firstn by lia.
  rewrite firstn_firstn; f_equal; lia.
Qed.

(** X20. No section is returned twice: the pool indices of the returned
    entries are pairwise different. *)
Theorem find_relevant_sections_distinct :
  forall (E : Encoder) task sections model_name top_n min_similarity result,
    Run.result
      (find_relevant_sections task sections model_name top_n min_similarity)
      = Some result ->
    NoDup (map index result).
Proof.
  intros E task sections name top_n t result Hres.
  rewrite find_relevant_sections_result_cut in Hres.
  destruct (SentenceTransformer name) as [m|]; [|discriminate].
  injection Hres as <-.
  set (cleared := scored_sections t sections
                    (cos_sim_row (encode m task)
                       (encode_batch m (map combined_text sections)))).
  destruct (slice_to_is_firstn top_n (list_sort_reverse cleared)) as [k ->].
  rewrite <- firstn_map; apply NoDup_firstn.
  apply (Permutation_NoDup (l := map index cleared)).
  - apply Permutation_map, Permutation_sym, list_sort_reverse_perm.
  - apply StronglySorted_lt_NoDup, StronglySorted_map.
    unfold cleared, scored_sections; apply score_loop_sorted.
Qed.

Section ThresholdFacts.

Lemma score_loop_filter t t' i l :
  SFleb t t' = true ->
  score_loop t' i l
  = filter (fun a => SFleb t' (similarity a)) (score_loop t i l).
Proof.
  intros Ht; revert i; induction l as [|[s sim] l IH]; intros i; simpl;
    [reflexivity|].
  destruct (SFleb t' sim) eqn:H'.
  - rewrite (SFleb_trans _ _ _ Ht H'); simpl; rewrite H'; now rewrite IH.
  - destruct (SFleb t sim); simpl; [rewrite H'|]; apply IH.
Qed.

Lemma filter_perm {A} (f : A -> bool) l l' :
  Permutation l l' -> Permutation (filter f l) (filter f l').
Proof.
  induction 1 as [|x l l' H IH|x y l|l l' l'' H1 IH1 H2 IH2]; simpl.
  - constructor.
  - destruct (f x); [now constructor | exact IH].
  - destruct (f x), (f y); try reflexivity; apply perm_swap.
  - etransitivity; eauto.
Qed.

Lemma StronglySorted_filter {A} (R : A -> A -> Prop) (f : A -> bool) l :
  StronglySorted R l -> StronglySorted R (filter f l).
Proof.
  induction 1 as [|x l Hs IH Hall]; simpl; [constructor|].
  destruct (f x); [|exact IH].
  constructor; [exact IH|].
  rewrite Forall_forall in *; intros y Hy.
  apply filter_In in Hy as [Hy _]; now apply Hall.
Qed.

(** Ranking after raising the threshold is filtering the ranking. *)
Lemma ranking_filter t t' sections sims :
  SFleb t t' = true ->
  list_sort_reverse (scored_sections t' sections sims)
  = filter (fun a => SFleb t' (similarity a))
           (list_sort_reverse (scored_sections t sections sims)).
Proof.
  intros Ht; symmetry; apply list_sort_reverse_unique.
  - unfold scored_sections at 2; rewrite (score_loop_filter t t' _ _ Ht).
    apply filter_perm, list_sort_reverse_perm.
  - apply StronglySorted_filter, ranked_sorted.
Qed.

End ThresholdFacts.

(** X21. A higher threshold only removes entries.  If [t'] is at least [t],
    the result for [t'] is the ranking obtained for [t] without a cut, from
    which the entries below [t'] are taken out, order unchanged, and which
    is then cut to [top_n]. *)
Theorem find_relevant_sections_threshold_filter :
  forall (E : Encoder) task sections model_name top_n top_all t t' ranking,
    SFleb t t' = true ->
    len sections <= top_all ->
    Run.result (find_relevant_sections task sections model_name top_all t)
      = Some ranking ->
    Run.result (find_relevant_sections task sections model_name top_n t')
    = Some (slice_to top_n
              (filter (fun a => SFleb t' (similarity a)) ranking)).
Proof.
  intros E task sections name top_n top_all t t' ranking Ht Hall Hres.
  rewrite find_relevant_sections_result_cut in *.
  destruct (SentenceTransformer name) as [m|]; [|discriminate].
  injection Hres as <-.
  rewrite (slice_to_all top_all).
  - now rewrite (ranking_filter t t' _ _ Ht).
  - pose proof (ranked_length t sections
                  (cos_sim_row (encode m task)
                     (encode_batch m (map combined_text sections)))).
    unfold len in *; lia.
Qed.

(** ** The patterns of the heading test *)

Section PatternFacts.

Context {U : UnicodeTables}.

Lemma star_cls_forallb p s : matches (Star (Cls p)) s <-> forallb p s = true.
Proof.
  split.
  - intros H; remember (Star (Cls p)) as r eqn:Hr.
    induction H as [| | | | | |r0 s1 s2 H1 _ H2 IH2]; try discriminate.
    + reflexivity.
    + injection Hr as ->; inversion H1; subst; simpl.
      rewrite H0; now apply IH2.
  - induction s as [|c s IH]; simpl; intros H; [constructor|].
    apply andb_prop in H as [Hc Hs].
    change (c :: s) with ([c] ++ s); constructor; [now constructor | auto].
Qed.

Lemma cat_cls_inv p r s :
  matches (Cat (Cls p) r) s <-> exists c s', s = c :: s' /\ p c = true /\ matches r s'.
Proof.
  split.
  - inversion 1 as [| |? ? s1 s2 H1 H2| | | |]; subst.
    inversion H1; subst; now exists c, s2.
  - intros [c [s' [-> [Hc Hr]]]].
    change (c :: s') with ([c] ++ s'); constructor; [now constructor | exact Hr].
Qed.

Lemma cat_star_cls_inv p r s :
  matches (Cat (Star (Cls p)) r) s <->
  exists s1 s2, s = s1 ++ s2 /\ forallb p s1 = true /\ matches r s2.
Proof.
  split.
  - inversion 1 as [| |? ? s1 s2 H1 H2| | | |]; subst.
    exists s1, s2; split; [reflexivity|]; split; [|exact H2].
    now apply star_cls_forallb.
  - intros [s1 [s2 [-> [H1 H2]]]]; constructor; [|exact H2].
    now apply star_cls_forallb.
Qed.

Lemma cls_inv p s : matches (Cls p) s <-> exists c, s = [c] /\ p c = true.
Proof.
  split; [inversion 1; subst; eauto | intros [c [-> Hc]]; now constructor].
Qed.

End PatternFacts.

Section PatternShapes.

Context {U : UnicodeTables}.

Lemma cat_inv r1 r2 s :
  matches (Cat r1 r2) s <->
  exists s1 s2, s = s1 ++ s2 /\ matches r1 s1 /\ matches r2 s2.
Proof.
  split.
  - inversion 1; subst; eauto.
  - intros [s1 [s2 [-> [H1 H2]]]]; now constructor.
Qed.

Lemma ends_with_ws_no_newline line :
  ends_with_ws line = false -> endswith_char chr_nl line = false.
Proof.
  unfold ends_with_ws, endswith_char; destruct (rev line) as [|d r]; simpl;
    [reflexivity|].
  intros Hd; destruct (N.eqb_spec d chr_nl) as [->|]; [discriminate | reflexivity].
Qed.

Lemma title_case_shape line :
  matches pat_title_case line <->
  exists c rest, line = c :: rest /\ is_AZ c = true /\ rest <> [] /\
                 forallb not_sentence_end rest = true.
Proof.
  unfold pat_title_case; rewrite cat_cls_inv; split.
  - intros [c [s' [-> [Hc H]]]].
    apply cat_star_cls_inv in H as [s1 [s2 [-> [H1 H2]]]].
    apply cls_inv in H2 as [d [-> Hd]].
    exists c, (s1 ++ [d]); repeat split; try assumption.
    + destruct s1; discriminate.
    + rewrite forallb_app, H1; simpl; now rewrite Hd.
  - intros [c [rest [-> [Hc [Hne Hall]]]]].
    exists c, rest; repeat split; try assumption.
    destruct (exists_last Hne) as [s1 [d ->]].
    rewrite forallb_app in Hall; apply andb_prop in Hall as [H1 H2].
    simpl in H2; rewrite andb_true_r in H2.
    apply cat_star_cls_inv; exists s1, [d]; repeat split; try assumption.
    now apply cls_inv; exists d.
Qed.

Lemma numbered_shape p :
  matches pat_numbered p <->
  exists ds sep ws c,
    p = ds ++ sep :: ws ++ [c] /\ ds <> [] /\
    forallb uni_isdecimal ds = true /\
    (sep = chr_dot \/ sep = chr_rparen) /\
    forallb isspace ws = true /\ is_AZ c = true.
Proof.
  unfold pat_numbered, Plus; rewrite cat_inv; split.
  - intros [s1 [s2 [-> [H1 H2]]]].
    apply cat_cls_inv in H1 as [d [ds [-> [Hd Hds]]]].
    apply star_cls_forallb in Hds.
    apply cat_cls_inv in H2 as [sep [s3 [-> [Hsep H3]]]].
    apply cat_star_cls_inv in H3 as [ws [s4 [-> [Hws H4]]]].
    apply cls_inv in H4 as [c [-> Hc]].
    exists (d :: ds), sep, ws, c; repeat split; try assumption.
    + discriminate.
    + simpl; now rewrite Hd.
    + apply orb_prop in Hsep as [H|H]; apply N.eqb_eq in H; auto.
  - intros [ds [sep [ws [c [-> [Hne [Hds [Hsep [Hws Hc]]]]]]]]].
    destruct ds as [|d ds]; [congruence|]; simpl in Hds.
    apply andb_prop in Hds as [Hd Hds].
    exists (d :: ds), (sep :: ws ++ [c]); repeat split.
    + apply cat_cls_inv; exists d, ds; repeat split; try assumption.
      now apply star_cls_forallb.
    + apply cat_cls_inv; exists sep, (ws ++ [c]); repeat split.
      * destruct Hsep as [->| ->]; reflexivity.
      * apply cat_star_cls_inv; exists ws, [c]; repeat split; try assumption.
        now apply cls_inv; exists c.
Qed.

Lemma bullet_shape p :
  matches pat_bullet p <->
  exists b ws c,
    p = b :: ws ++ [c] /\
    (b = chr_bullet \/ b = chr_minus \/ b = chr_star) /\
    forallb isspace ws = true /\ is_AZ c = true.
Proof.
  unfold pat_bullet; rewrite cat_cls_inv; split.
  - intros [b [s' [-> [Hb H]]]].
    apply cat_star_cls_inv in H as [ws [s2 [-> [Hws H2]]]].
    apply cls_inv in H2 as [c [-> Hc]].
    exists b, ws, c; repeat split; try assumption.
    apply orb_prop in Hb as [Hb|Hb]; [apply orb_prop in Hb as [Hb|Hb]|];
      apply N.eqb_eq in Hb; auto.
  - intros [b [ws [c [-> [Hb [Hws Hc]]]]]].
    exists b, (ws ++ [c]); repeat split.
    + destruct Hb as [->|[->| ->]]; reflexivity.
    + apply cat_star_cls_inv; exists ws, [c]; repeat split; try assumption.
      now apply cls_inv; exists c.
Qed.

End PatternShapes.

(** X22. The second heading pattern, on a line without whitespace at its
    end (as every line the loop tests): it holds exactly when the line
    starts with a letter from A to Z, has at least one more character, has
    none of ['.'], ['!'], ['?'] after the first character, and has at most
    [MAX_HEADING_WORDS] words.  So a single capital letter is not a title,
    and neither is a sentence with its final punctuation. *)
Theorem pattern_title_case_shape :
  forall cfg line,
    ends_with_ws line = false ->
    (pattern_title_case cfg line = true <->
     (exists c rest,
         line = c :: rest /\ is_AZ c = true /\ rest <> [] /\
         forallb not_sentence_end rest = true) /\
     len (split_ws line) <= MAX_HEADING_WORDS cfg).
Proof.
  intros cfg line Hend; unfold pattern_title_case, match_to_end.
  rewrite (ends_with_ws_no_newline _ Hend); simpl; rewrite orb_false_r.
  now rewrite andb_true_iff, fullmatch_matches, title_case_shape, Z.leb_le.
Qed.

(** X23. The numbered and the bullet patterns.  A line is a numbered
    heading exactly when it starts with one or more decimal digits, then
    ['.'] or [')'], then any whitespace, then a letter from A to Z.  It is a
    bullet heading exactly when it starts with one of the bullet, ['-'] or
    ['*'], then any whitespace, then a letter from A to Z, and has at most
    8 words. *)
Theorem pattern_numbered_bullet_shape :
  forall (U : UnicodeTables) line,
    (pattern_numbered line = true <->
     exists ds sep ws c rest,
       line = (ds ++ sep :: ws ++ [c]) ++ rest /\ ds <> [] /\
       forallb uni_isdecimal ds = true /\
       (sep = chr_dot \/ sep = chr_rparen) /\
       forallb isspace ws = true /\ is_AZ c = true) /\
    (pattern_bullet line = true <->
     (exists b ws c rest,
         line = (b :: ws ++ [c]) ++ rest /\
         (b = chr_bullet \/ b = chr_minus \/ b = chr_star) /\
         forallb isspace ws = true /\ is_AZ c = true) /\
     len (split_ws line) <= 8).
Proof.
  intros U line; split.
  - unfold pattern_numbered; rewrite match_prefix_matches; split.
    + intros [p [q [-> H]]]; apply numbered_shape in H
        as [ds [sep [ws [c [-> H]]]]].
      now exists ds, sep, ws, c, q.
    + intros [ds [sep [ws [c [rest [-> H]]]]]].
      exists (ds ++ sep :: ws ++ [c]), rest; split; [reflexivity|].
      apply numbered_shape; now exists ds, sep, ws, c.
  - unfold pattern_bullet.
    rewrite andb_true_iff, match_prefix_matches, Z.leb_le; split.
    + intros [[p [q [-> H]]] Hw]; split; [|exact Hw].
      apply bullet_shape in H as [b [ws [c [-> H]]]].
      now exists b, ws, c, q.
    + intros [[b [ws [c [rest [-> H]]]]] Hw]; split; [|exact Hw].
      exists (b :: ws ++ [c]), rest; split; [reflexivity|].
      apply bullet_shape; now exists b, ws, c.
Qed.

(** ** Sections are pieces of the page *)

Section InfixFacts.

(** A piece that starts and ends with a character that is not whitespace
    survives stripping. *)
Lemma lstrip_keeps u w v :
  w <> [] -> starts_with_ws w = false ->
  exists u', lstrip (u ++ w ++ v) = u' ++ w ++ v.
Proof.
  intros Hne Hw; induction u as [|c u IH]; simpl.
  - exists []; apply lstrip_fixed.
    destruct w; [congruence | exact Hw].
  - destruct (isspace c); [exact IH | now exists (c :: u)].
Qed.

Lemma strip_keeps u w v :
  w <> [] -> starts_with_ws w = false -> ends_with_ws w = false ->
  exists u' v', strip (u ++ w ++ v) = u' ++ w ++ v'.
Proof.
  intros Hne Hs He.
  destruct (lstrip_keeps u w v Hne Hs) as [u' Hu].
  assert (Hrev : rev w <> []).
  { intros H; apply (f_equal (@rev char)) in H; rewrite rev_involutive in H.
    now apply Hne. }
  destruct (lstrip_keeps (rev v) (rev w) (rev u') Hrev He) as [v' Hv].
  exists u', (rev v'); unfold strip, rstrip; rewrite Hu.
  rewrite !rev_app_distr, <- app_assoc, Hv.
  now rewrite !rev_app_distr, !rev_involutive, <- app_assoc.
Qed.

(** Every string is its stripped part between two runs of whitespace. *)
Lemma strip_split s : exists a b, s = a ++ strip s ++ b.
Proof.
  destruct (lstrip_split s) as [a [Ha _]].
  destruct (rstrip_split (lstrip s)) as [b [Hb _]].
  exists a, b; unfold strip; now rewrite <- Hb.
Qed.

Lemma strip_infix_length u y v :
  len (strip y) <= len (strip (u ++ y ++ v)).
Proof.
  destruct (strip y) as [|c r] eqn:Hy; [unfold len; simpl; lia|].
  destruct (strip_split y) as [a [b Hab]].
  assert (Hw : strip y <> []) by (rewrite Hy; discriminate).
  destruct (strip_keeps (u ++ a) (strip y) (b ++ v) Hw
              (strip_starts y) (strip_ends y)) as [u' [v' H]].
  rewrite <- Hy.
  replace (u ++ y ++ v) with ((u ++ a) ++ strip y ++ b ++ v)
    by (rewrite Hab at 2; now rewrite <- !app_assoc).
  rewrite H; unfold len; rewrite !length_app; lia.
Qed.

(** Two parts with something to keep, and a character between them. *)
Lemma strip_join_length x c y :
  strip x <> [] -> strip y <> [] ->
  len (strip x) + 1 + len (strip y) <= len (strip (x ++ [c] ++ y)).
Proof.
  intros Hx Hy.
  destruct (strip_split x) as [a [b Hab]], (strip_split y) as [a' [b' Hab']].
  set (w := strip x ++ (b ++ [c] ++ a') ++ strip y).
  assert (Hne : w <> []) by (unfold w; destruct (strip x); [congruence|discriminate]).
  assert (Hs : starts_with_ws w = false).
  { unfold w; pose proof (strip_starts x) as H.
    destruct (strip x); [congruence | exact H]. }
  assert (He : ends_with_ws w = false).
  { unfold w, ends_with_ws; rewrite !rev_app_distr.
    pose proof (strip_ends y) as H; unfold ends_with_ws in H.
    destruct (rev (strip y)) eqn:Hr; [|exact H].
    apply (f_equal (@rev char)) in Hr; rewrite rev_involutive in Hr.
    simpl in Hr; congruence. }
  destruct (strip_keeps a w b' Hne Hs He) as [u' [v' H]].
  replace (x ++ [c] ++ y) with (a ++ w ++ b').
  - rewrite H; unfold len, w; rewrite !length_app; simpl; lia.
  - unfold w; rewrite Hab at 2; rewrite Hab' at 2.
    now rewrite <- !app_assoc.
Qed.

(** The pieces of a split are pieces of the string. *)
Lemma split_aux_infix sep skip cur s p :
  In p (split_aux sep skip cur s) ->
  exists a b, rev cur ++ skipn skip s = a ++ p ++ b.
Proof.
  revert skip cur; induction s as [|c s IH]; intros skip cur; simpl.
  - intros [<-|[]]; exists [], []; destruct skip; simpl; now rewrite !app_nil_r.
  - destruct skip as [|k]; [|apply IH].
    destruct (is_prefix sep (c :: s)).
    + intros [<-|H]; [now exists [], (c :: s)|].
      apply IH in H as [a [b H]]; simpl in H.
      exists (rev cur ++ c :: firstn (length sep - 1) s ++ a), b.
      rewrite <- (firstn_skipn (length sep - 1) s) at 1.
      rewrite H; rewrite <- !app_assoc; simpl; rewrite <- ?app_assoc.
      reflexivity.
    + intros H; apply IH in H as [a [b H]]; simpl in H.
      exists a, b; rewrite <- H, <- app_assoc; reflexivity.
Qed.

Lemma split_infix sep s p :
  In p (split sep s) -> exists a b, s = a ++ p ++ b.
Proof. intros H; apply split_aux_infix in H; exact H. Qed.

Lemma split_aux_nonempty sep skip cur s : split_aux sep skip cur s <> [].
Proof.
  revert skip cur; induction s as [|c s IH]; intros skip cur; simpl;
    [discriminate|].
  destruct skip; [|apply IH].
  destruct (is_prefix sep (c :: s)); [discriminate | apply IH].
Qed.

(** Splitting on one character and joining again. *)
Lemma join_split_aux_char c cur s :
  join [c] (split_aux [c] 0 cur s) = rev cur ++ s.
Proof.
  revert cur; induction s as [|d s IH]; intros cur; cbn [split_aux].
  - simpl; now rewrite app_nil_r.
  - cbn [is_prefix]; destruct (N.eqb_spec c d) as [->|Hne]; cbn [andb].
    + change (length [d] - 1)%nat with 0%nat.
      rewrite join_cons.
      destruct (split_aux [d] 0 [] s) eqn:Hs;
        [now apply split_aux_nonempty in Hs|].
      rewrite <- Hs, IH; reflexivity.
    + rewrite IH; cbn [rev]; now rewrite <- app_assoc.
Qed.

Lemma join_split_char c s : join [c] (split [c] s) = s.
Proof. apply (join_split_aux_char c [] s). Qed.

Lemma join_snoc sep l x :
  l <> [] -> join sep (l ++ [x]) = join sep l ++ sep ++ x.
Proof.
  induction l as [|w l IH]; [congruence|]; intros _.
  destruct l as [|w' l]; [reflexivity|].
  change (join sep ((w :: w' :: l) ++ [x]))
    with (w ++ sep ++ join sep ((w' :: l) ++ [x])).
  rewrite IH by discriminate.
  change (join sep (w :: w' :: l)) with (w ++ sep ++ join sep (w' :: l)).
  now rewrite <- !app_assoc.
Qed.

End InfixFacts.

Section BoundFacts.

Context {U : UnicodeTables}.
Variable cfg : Config.

Lemma body_strip body :
  body <> [] -> starts_with_ws body = false -> ends_with_ws body = false ->
  strip (body ++ [chr_space]) = body.
Proof.
  intros Hne Hs He; unfold strip.
  rewrite lstrip_fixed by (destruct body; [congruence | exact Hs]).
  unfold rstrip; rewrite rev_app_distr; simpl.
  rewrite (lstrip_fixed (rev body)) by exact He.
  apply rev_involutive.
Qed.

Lemma lines_bound_mono P line :
  len (strip (join [chr_nl] P)) <= len (strip (join [chr_nl] (P ++ [line]))).
Proof.
  destruct P as [|w P]; [unfold len; simpl; lia|].
  rewrite join_snoc by discriminate.
  exact (strip_infix_length [] (join [chr_nl] (w :: P)) ([chr_nl] ++ line)).
Qed.

Lemma lines_bound_line P line :
  len (strip line) <= len (strip (join [chr_nl] (P ++ [line]))).
Proof.
  destruct P as [|w P]; [simpl; lia|].
  rewrite join_snoc by discriminate.
  pose proof (strip_infix_length (join [chr_nl] (w :: P) ++ [chr_nl]) line [])
    as H.
  rewrite app_nil_r, <- app_assoc in H; exact H.
Qed.

Lemma lines_bound_join P line :
  1 <= len (strip (join [chr_nl] P)) -> strip line <> [] ->
  len (strip (join [chr_nl] P)) + 1 + len (strip line)
  <= len (strip (join [chr_nl] (P ++ [line]))).
Proof.
  intros HP Hl.
  destruct P as [|w P]; [unfold len in HP; simpl in HP; lia|].
  rewrite join_snoc by discriminate.
  apply strip_join_length; [|exact Hl].
  intros H; rewrite H in HP; unfold len in HP; simpl in HP; lia.
Qed.

(** The state of the line loop after the lines [P]: the contents of the
    sections, and the buffer without its last space, are no longer than
    the stripped text of these lines. *)
Lemma line_step_bound page m P st line :
  Forall (fun s => len (content s) <= len (strip (join [chr_nl] P)))
         (sections st) ->
  (current_section st = [] \/
   exists body, current_section st = body ++ [chr_space] /\ body <> [] /\
                starts_with_ws body = false /\ ends_with_ws body = false /\
                len body <= len (strip (join [chr_nl] P))) ->
  Forall (fun s => len (content s) <= len (strip (join [chr_nl] (P ++ [line]))))
         (sections (line_step cfg page m st line)) /\
  (current_section (line_step cfg page m st line) = [] \/
   exists body,
     current_section (line_step cfg page m st line) = body ++ [chr_space] /\
     body <> [] /\
     starts_with_ws body = false /\ ends_with_ws body = false /\
     len body <= len (strip (join [chr_nl] (P ++ [line])))).
Proof.
  intros Hs Hb.
  pose proof (lines_bound_mono P line) as Hmono.
  assert (Hs' : Forall (fun s => len (content s)
                                 <= len (strip (join [chr_nl] (P ++ [line]))))
                       (sections st)).
  { eapply Forall_impl; [|exact Hs]; simpl; intros; lia. }
  assert (Hb' : current_section st = [] \/
                exists body, current_section st = body ++ [chr_space] /\
                  body <> [] /\ starts_with_ws body = false /\
                  ends_with_ws body = false /\
                  len body <= len (strip (join [chr_nl] (P ++ [line])))).
  { destruct Hb as [Hb|[body [H1 [H2 [H3 [H4 H5]]]]]]; [now left|].
    right; exists body; repeat split; try assumption; lia. }
  unfold line_step.
  destruct (strip line) as [|c r] eqn:Hl; simpl; [now split|].
  destruct (is_heading cfg (c :: r)); simpl.
  - split; [|now left].
    unfold flush.
    destruct (truthy (current_title st) && truthy (current_section st)
              && (m <=? len (strip (current_section st)))) eqn:Hc; [|exact Hs'].
    apply Forall_app; split; [exact Hs'|].
    constructor; [|constructor]; simpl.
    destruct Hb' as [Hb'|[body [H1 [H2 [H3 [H4 H5]]]]]].
    + rewrite Hb'; unfold len; simpl; lia.
    + rewrite H1, body_strip by assumption; exact H5.
  - split; [exact Hs'|].
    right.
    assert (Hne : strip line <> []) by (rewrite Hl; discriminate).
    pose proof (strip_starts line) as Hst; pose proof (strip_ends line) as Hen.
    rewrite Hl in Hst, Hen, Hne.
    destruct Hb as [Hb|[body [H1 [H2 [H3 [H4 H5]]]]]].
    + exists (c :: r); rewrite Hb; repeat split; try assumption.
      rewrite <- Hl; apply lines_bound_line.
    + exists (body ++ [chr_space] ++ c :: r); rewrite H1; repeat split.
      * now rewrite <- !app_assoc.
      * destruct body; discriminate.
      * destruct body; [congruence | exact H3].
      * unfold ends_with_ws in *; rewrite !rev_app_distr.
        destruct (rev (c :: r)) eqn:Hr; [|exact Hen].
        apply (f_equal (@rev char)) in Hr; rewrite rev_involutive in Hr.
        discriminate.
      * assert (H1' : 1 <= len (strip (join [chr_nl] P))).
        { destruct body; [congruence|]. unfold len in *; simpl in H5; lia. }
        pose proof (lines_bound_join P line H1') as Hj.
        rewrite Hl in Hj; specialize (Hj Hne).
        unfold len in *; rewrite !length_app; simpl in *; lia.
Qed.

Lemma line_loop_bound page m rest :
  forall P st,
    Forall (fun s => len (content s) <= len (strip (join [chr_nl] P)))
           (sections st) ->
    (current_section st = [] \/
     exists body, current_section st = body ++ [chr_space] /\ body <> [] /\
                  starts_with_ws body = false /\ ends_with_ws body = false /\
                  len body <= len (strip (join [chr_nl] P))) ->
    Forall (fun s => len (content s) <= len (strip (join [chr_nl] (P ++ rest))))
           (flush page m (fold_left (line_step cfg page m) rest st)).
Proof.
  induction rest as [|line rest IH]; intros P st Hs Hb; simpl.
  - rewrite app_nil_r; unfold flush.
    destruct (truthy (current_title st) && truthy (current_section st)
              && (m <=? len (strip (current_section st)))); [|exact Hs].
    apply Forall_app; split; [exact Hs|].
    constructor; [|constructor]; simpl.
    destruct Hb as [Hb|[body [H1 [H2 [H3 [H4 H5]]]]]].
    + rewrite Hb; unfold len; simpl; lia.
    + rewrite H1, body_strip by assumption; exact H5.
  - destruct (line_step_bound page m P st line Hs Hb) as [Hs' Hb'].
    specialize (IH (P ++ [line]) _ Hs' Hb').
    now rewrite <- app_assoc in IH.
Qed.

Lemma extract_sections_bounded_all text page msl :
  Forall (fun s => len (content s) <= len (strip text))
         (extract_sections_from_text cfg text page msl).
Proof.
  unfold extract_sections_from_text.
  set (m := effective_min cfg msl).
  repeat (apply Forall_app; split).
  - unfold heading_sections.
    pose proof (line_loop_bound page m (split [chr_nl] text) [] initial_state)
      as H.
    simpl app in H; rewrite join_split_char in H.
    apply H; [constructor | now left].
  - unfold strategy3_added.
    destruct (negb (truthy (heading_sections cfg text page m))
              && truthy (paragraphs_of text)); [|constructor].
    apply Forall_forall; intros s Hs.
    apply in_paragraph_sections in Hs as [p [Hp [_ ->]]]; simpl.
    unfold paragraphs_of in Hp; apply in_flat_map in Hp as [q [Hq Hp]].
    destruct (truthy (strip q)); [|contradiction].
    destruct Hp as [<-|[]].
    apply split_infix in Hq as [a [b ->]]; apply strip_infix_length.
  - unfold strategy4_added.
    match goal with |- context [negb ?x && ?y] => destruct (negb x && y) end;
      constructor; [simpl; lia | constructor].
Qed.

End BoundFacts.

(** X24. No section is longer than the page: the content of every section
    [extract_sections_from_text] returns has at most as many characters as
    the stripped text of the page. *)
Theorem extract_sections_content_bounded :
  forall (U : UnicodeTables) cfg text page_number0 min_section_length s,
    In s (extract_sections_from_text cfg text page_number0 min_section_length) ->
    len (content s) <= len (strip text).
Proof.
  intros U cfg text page msl s Hs.
  pose proof (extract_sections_bounded_all cfg text page msl) as H.
  rewrite Forall_forall in H; exact (H s Hs).
Qed.

(** X25. A page gives no section exactly when its stripped text is shorter
    than the threshold in force: a page that reaches the threshold always
    gives at least one section, and a shorter page never does. *)
Theorem extract_sections_empty_iff :
  forall (U : UnicodeTables) cfg text page_number0 min_section_length,
    extract_sections_from_text cfg text page_number0 min_section_length = [] <->
    len (strip text) < effective_min cfg min_section_length.
Proof.
  intros U cfg text page msl; split.
  - unfold extract_sections_from_text.
    set (m := effective_min cfg msl).
    intros H; apply app_eq_nil in H as [H1 H2].
    unfold strategy4_added in H2; rewrite H1 in H2; simpl in H2.
    destruct (Z.leb_spec m (len (strip text))); [discriminate | assumption].
  - intros Hlt.
    destruct (extract_sections_from_text cfg text page msl) as [|s l] eqn:He;
      [reflexivity|].
    pose proof (extract_sections_bounded_all cfg text page msl) as Hb.
    pose proof (extract_sections_long_enough_all U cfg text page msl) as Hl.
    rewrite He in Hb, Hl; inversion Hb; inversion Hl; subst.
    unfold long_enough in *.
    match goal with
    | H : _ /\ strip (content s) = content s |- _ => destruct H as [Hm Hc]
    end.
    rewrite Hc in Hm; lia.
Qed.

(** ** [Config.update_config] *)

Section UpdateConfigFacts.

Variable PyValue : Type.
Variable upper : str -> str.

Lemma str_eqb_eq a b : str_eqb a b = true <-> a = b.
Proof.
  unfold str_eqb; destruct (list_eq_dec N.eq_dec a b); split; congruence.
Qed.

Lemma str_eqb_refl a : str_eqb a a = true.
Proof. now apply str_eqb_eq. Qed.

Lemma setattr_names (attrs : Attributes PyValue) name value :
  hasattr PyValue attrs name = true ->
  map fst (setattr PyValue attrs name value) = map fst attrs.
Proof.
  unfold hasattr; induction attrs as [|[n v] attrs IH]; simpl; [discriminate|].
  destruct (str_eqb n name); simpl; [reflexivity|].
  intros H; now rewrite IH.
Qed.

Lemma hasattr_names (attrs attrs' : Attributes PyValue) name :
  map fst attrs = map fst attrs' ->
  hasattr PyValue attrs name = hasattr PyValue attrs' name.
Proof.
  unfold hasattr; revert attrs'.
  induction attrs as [|[n v] attrs IH]; intros [|[n' v'] attrs'] H;
    simpl in *; try discriminate; [reflexivity|].
  injection H as -> H; destruct (str_eqb n' name); [reflexivity | now apply IH].
Qed.

Lemma getattr_setattr (attrs : Attributes PyValue) n value name :
  hasattr PyValue attrs n = true ->
  getattr PyValue (setattr PyValue attrs n value) name
  = if str_eqb n name then Some value else getattr PyValue attrs name.
Proof.
  unfold hasattr; induction attrs as [|[k v] attrs IH]; simpl; [discriminate|].
  destruct (str_eqb k n) eqn:Hkn; simpl.
  - apply str_eqb_eq in Hkn; subst k; intros _.
    destruct (str_eqb n name); reflexivity.
  - intros H; destruct (str_eqb k name) eqn:Hk.
    + destruct (str_eqb n name) eqn:Hn; [|reflexivity].
      apply str_eqb_eq in Hk, Hn; subst.
      rewrite str_eqb_refl in Hkn; discriminate.
    + now apply IH.
Qed.

Lemma update_config_snoc attrs kwargs kv :
  update_config PyValue upper attrs (kwargs ++ [kv])
  = update_step PyValue upper (update_config PyValue upper attrs kwargs) kv.
Proof. unfold update_config; now rewrite fold_left_app. Qed.

Lemma update_config_names attrs kwargs :
  map fst (snd (update_config PyValue upper attrs kwargs)) = map fst attrs.
Proof.
  induction kwargs as [|[k v] kwargs IH] using rev_ind; [reflexivity|].
  rewrite update_config_snoc; unfold update_step.
  destruct (hasattr PyValue (snd (update_config PyValue upper attrs kwargs))
              (upper k)) eqn:Hh; simpl; [|exact IH].
  now rewrite setattr_names.
Qed.

End UpdateConfigFacts.

(** X26. [update_config] never adds or removes an attribute: the names of
    the attributes are the same afterwards, in the same order.  It prints
    one warning for each keyword whose upper-case form is not an attribute,
    in the order of the keywords, and nothing else. *)
Theorem update_config_names_and_warnings :
  forall (PyValue : Type) (upper : str -> str)
         (attrs : Attributes PyValue) (kwargs : list (str * PyValue)),
    map fst (snd (update_config PyValue upper attrs kwargs)) = map fst attrs /\
    fst (update_config PyValue upper attrs kwargs)
    = map MsgUnknownParameter
        (filter (fun key => negb (hasattr PyValue attrs (upper key)))
                (map fst kwargs)).
Proof.
  intros PyValue upper attrs kwargs; split; [apply update_config_names|].
  induction kwargs as [|[k v] kwargs IH] using rev_ind; [reflexivity|].
  rewrite update_config_snoc, map_app, filter_app, map_app; simpl.
  unfold update_step.
  rewrite (hasattr_names PyValue
             (snd (update_config PyValue upper attrs kwargs)) attrs)
    by apply update_config_names.
  destruct (hasattr PyValue attrs (upper k)); simpl.
  - now rewrite IH, app_nil_r.
  - now rewrite IH.
Qed.

(** X27. After [update_config] an attribute has the value of the last
    keyword whose upper-case form is its name, and its old value when there
    is none; keywords are matched without regard to the case they are
    written in, so of two keywords for one attribute the later wins. *)
Theorem update_config_value :
  forall (PyValue : Type) (upper : str -> str)
         (attrs : Attributes PyValue) (kwargs : list (str * PyValue)) name,
    getattr PyValue (snd (update_config PyValue upper attrs kwargs)) name
    = match getattr PyValue attrs name,
            find (fun kv => str_eqb (upper (fst kv)) name) (rev kwargs) with
      | Some _, Some (_, value) => Some value
      | old, _ => old
      end.
Proof.
  intros PyValue upper attrs kwargs name.
  induction kwargs as [|[k v] kwargs IH] using rev_ind.
  - simpl; now destruct (getattr PyValue attrs name).
  - rewrite update_config_snoc, rev_app_distr; simpl.
    unfold update_step.
    pose proof (hasattr_names PyValue
                  (snd (update_config PyValue upper attrs kwargs)) attrs
                  (upper k) (update_config_names PyValue upper attrs kwargs))
      as Hh.
    destruct (hasattr PyValue (snd (update_config PyValue upper attrs kwargs))
                (upper k)) eqn:Hh'; simpl.
    + rewrite getattr_setattr by exact Hh'.
      destruct (str_eqb (upper k) name) eqn:Hk; [|exact IH].
      apply str_eqb_eq in Hk; subst name.
      unfold hasattr in Hh; symmetry in Hh.
      destruct (getattr PyValue attrs (upper k)); [reflexivity | discriminate].
    + rewrite IH.
      destruct (str_eqb (upper k) name) eqn:Hk; [|reflexivity].
      apply str_eqb_eq in Hk; subst name.
      unfold hasattr in Hh; symmetry in Hh.
      destruct (getattr PyValue attrs (upper k)); [discriminate | reflexivity].
Qed.

(** ** The further properties at concrete inputs *)

Lemma extract_text_pages_complete_witness :
  @fitz_open toy_disk toy_path = Some toy_pdf /\
  nth_error toy_pdf 1 = Some (Some toy_page2) /\
  forallb page_readable (firstn 1 toy_pdf) = true /\
  strip toy_page2 <> [] /\
  In (Z.of_nat 1 + 1, strip toy_page2)
     (snd (@extract_text_with_pages_from_pdf toy_disk toy_path)).
Proof.
  assert (H : strip toy_page2 <> []) by (vm_compute; discriminate).
  split; [reflexivity|]; split; [reflexivity|]; split; [reflexivity|].
  split; [exact H|].
  apply (extract_text_pages_complete toy_disk toy_path toy_pdf 1 toy_page2);
    [reflexivity | reflexivity | reflexivity | exact H].
Defined.

Lemma extract_sections_fields_witness :
  In demo_section
     (extract_sections_from_text (U := ascii_tables) default_config demo_page 1
        (Some 10)) /\
  page_number demo_section = 1 /\
  document demo_section = None /\
  (1 <= effective_min default_config (Some 10) ->
   title demo_section <> [] /\ content demo_section <> []).
Proof.
  split; [vm_compute; left; reflexivity|].
  apply (extract_sections_fields ascii_tables default_config demo_page 1
           (Some 10) demo_section).
  vm_compute; left; reflexivity.
Defined.

Lemma heading_sections_titles_witness :
  In demo_section
     (heading_sections (U := ascii_tables) default_config demo_page 1 10) /\
  is_heading (U := ascii_tables) default_config (title demo_section) = true /\
  exists line, In line (split [chr_nl] demo_page) /\
               title demo_section = strip line.
Proof.
  split; [vm_compute; left; reflexivity|].
  apply (heading_sections_titles ascii_tables default_config demo_page 1 10
           demo_section).
  vm_compute; left; reflexivity.
Defined.

Lemma no_heading_no_heading_section_witness :
  (forall line, In line (split [chr_nl] short_page) ->
                is_heading (U := ascii_tables) default_config (strip line)
                = false) /\
  heading_sections (U := ascii_tables) default_config short_page 1 10 = [] /\
  extract_sections_from_text (U := ascii_tables) default_config short_page 1
    (Some 10)
  = strategy3_added short_page 1 10 []
    ++ strategy4_added short_page 1 10 (strategy3_added short_page 1 10 []).
Proof.
  assert (H : forall line, In line (split [chr_nl] short_page) ->
                is_heading (U := ascii_tables) default_config (strip line)
                = false).
  { intros line [<-|[]]; reflexivity. }
  split; [exact H|].
  apply (no_heading_no_heading_section ascii_tables default_config short_page
           1 10 H).
Defined.

Lemma load_documents_provenance_witness :
  In toy_loaded_section
     (snd (load_documents_with_sections (U := ascii_tables) (F := toy_disk)
             default_config (of_string "./pdfs") (documents toy_request))) /\
  exists d doc raw s0,
    In d (documents toy_request) /\
    usable (F := toy_disk) (of_string "./pdfs") d = true /\
    document toy_loaded_section = Some (filename d) /\
    @fitz_open toy_disk
      (@path_join toy_disk (of_string "./pdfs") (filename d)) = Some doc /\
    1 <= page_number toy_loaded_section <= len doc /\
    nth_error doc (Z.to_nat (page_number toy_loaded_section - 1))
      = Some (Some raw) /\
    In s0 (extract_sections_from_text (U := ascii_tables) default_config
             (strip raw) (page_number toy_loaded_section) None) /\
    toy_loaded_section = set_document (filename d) s0 /\
    MIN_SECTION_LENGTH default_config <= len (content toy_loaded_section) /\
    strip (content toy_loaded_section) = content toy_loaded_section.
Proof.
  split; [vm_compute; left; reflexivity|].
  apply (load_documents_provenance ascii_tables toy_disk default_config
           (of_string "./pdfs") (documents toy_request) toy_loaded_section).
  vm_compute; left; reflexivity.
Defined.

Lemma pool_report_produced_witness :
  Run.result
    (find_relevant_sections (E := toy_encoder) (of_string "task")
       (snd (load_documents_with_sections (U := ascii_tables) (F := toy_disk)
               default_config (of_string "./pdfs") (documents toy_request)))
       (SIMILARITY_MODEL default_config) 5 float_0_1) = Some toy_loaded_ranking /\
  exists report,
    create_output_json default_config (of_string "2026-01-01T00:00:00")
      toy_request toy_loaded_ranking = Some report /\
    (forall e, In e (extracted_sections report) ->
       exists d, In d (documents toy_request) /\
                 usable (F := toy_disk) (of_string "./pdfs") d = true /\
                 es_document e = filename d) /\
    (forall a, In a (subsection_analysis report) ->
       exists d, In d (documents toy_request) /\
                 usable (F := toy_disk) (of_string "./pdfs") d = true /\
                 sa_document a = filename d).
Proof.
  split; [reflexivity|].
  apply (pool_report_produced ascii_tables toy_disk toy_encoder default_config
           (of_string "./pdfs") (of_string "2026-01-01T00:00:00") toy_request
           (of_string "task") (SIMILARITY_MODEL default_config) 5 float_0_1
           toy_loaded_ranking).
  reflexivity.
Defined.

Lemma refine_text_spaces_witness :
  refine_text short_config (of_string "ab   cdefgh")
    = of_string "ab" ++ chr_space :: of_string "cd" /\
  isspace chr_space = true /\
  chr_space = chr_space /\
  of_string "ab" <> [] /\ ends_with_ws (of_string "ab") = false /\
  of_string "cd" <> [] /\ starts_with_ws (of_string "cd") = false.
Proof.
  split; [reflexivity|]; split; [reflexivity|].
  apply (refine_text_spaces short_config (of_string "ab   cdefgh")
           (of_string "ab") chr_space (of_string "cd")); reflexivity.
Defined.

Lemma find_relevant_sections_nan_free_witness :
  Run.result
    (find_relevant_sections (E := toy_encoder) (of_string "task") toy_pool
       (SIMILARITY_MODEL default_config) 3 (float_of_nat 4)) = Some toy_ranking /\
  (forall a, In a toy_ranking -> is_nan (similarity a) = false) /\
  (is_nan (float_of_nat 4) = true -> toy_ranking = []).
Proof.
  split; [reflexivity|].
  apply (find_relevant_sections_nan_free toy_encoder (of_string "task") toy_pool
           (SIMILARITY_MODEL default_config) 3 (float_of_nat 4) toy_ranking).
  reflexivity.
Defined.

Lemma find_relevant_sections_top_n_cut_witness :
  len toy_pool <= 6 /\
  Run.result
    (find_relevant_sections (E := toy_encoder) (of_string "task") toy_pool
       (SIMILARITY_MODEL default_config) 6 (float_of_nat 4))
    = Some toy_full_ranking /\
  Run.result
    (find_relevant_sections (E := toy_encoder) (of_string "task") toy_pool
       (SIMILARITY_MODEL default_config) (-1) (float_of_nat 4))
    = Some (slice_to (-1) toy_full_ranking) /\
  (-1 < 0 ->
   len (slice_to (-1) toy_full_ranking) = Z.max 0 (len toy_full_ranking + -1)).
Proof.
  split; [vm_compute; discriminate|]; split; [reflexivity|].
  apply (find_relevant_sections_top_n_cut toy_encoder (of_string "task")
           toy_pool (SIMILARITY_MODEL default_config) (-1) 6 (float_of_nat 4)
           toy_full_ranking); [vm_compute; discriminate | reflexivity].
Defined.

Lemma find_relevant_sections_top_n_prefix_witness :
  0 <= 3 <= 6 /\
  Run.result
    (find_relevant_sections (E := toy_encoder) (of_string "task") toy_pool
       (SIMILARITY_MODEL default_config) 3 (float_of_nat 4)) = Some toy_ranking /\
  Run.result
    (find_relevant_sections (E := toy_encoder) (of_string "task") toy_pool
       (SIMILARITY_MODEL default_config) 6 (float_of_nat 4))
    = Some toy_full_ranking /\
  toy_ranking = firstn (Z.to_nat 3) toy_full_ranking.
Proof.
  split; [lia|]; split; [reflexivity|]; split; [reflexivity|].
  apply (find_relevant_sections_top_n_prefix toy_encoder (of_string "task")
           toy_pool (SIMILARITY_MODEL default_config) 3 6 (float_of_nat 4)
           toy_ranking toy_full_ranking); [lia | reflexivity | reflexivity].
Defined.

Lemma find_relevant_sections_distinct_witness :
  Run.result
    (find_relevant_sections (E := toy_encoder) (of_string "task") toy_pool
       (SIMILARITY_MODEL default_config) 3 (float_of_nat 4)) = Some toy_ranking /\
  NoDup (map index toy_ranking).
Proof.
  split; [reflexivity|].
  apply (find_relevant_sections_distinct toy_encoder (of_string "task") toy_pool
           (SIMILARITY_MODEL default_config) 3 (float_of_nat 4) toy_ranking).
  reflexivity.
Defined.

Lemma find_relevant_sections_threshold_filter_witness :
  SFleb (float_of_nat 4) (float_of_nat 6) = true /\
  len toy_pool <= 6 /\
  Run.result
    (find_relevant_sections (E := toy_encoder) (of_string "task") toy_pool
       (SIMILARITY_MODEL default_config) 6 (float_of_nat 4))
    = Some toy_full_ranking /\
  Run.result
    (find_relevant_sections (E := toy_encoder) (of_string "task") toy_pool
       (SIMILARITY_MODEL default_config) 3 (float_of_nat 6))
  = Some (slice_to 3
            (filter (fun a => SFleb (float_of_nat 6) (similarity a))
                    toy_full_ranking)).
Proof.
  split; [reflexivity|]; split; [vm_compute; discriminate|].
  split; [reflexivity|].
  apply (find_relevant_sections_threshold_filter toy_encoder (of_string "task")
           toy_pool (SIMILARITY_MODEL default_config) 3 6 (float_of_nat 4)
           (float_of_nat 6) toy_full_ranking);
    [reflexivity | vm_compute; discriminate | reflexivity].
Defined.

Lemma pattern_title_case_shape_witness :
  ends_with_ws (of_string "Hello world") = false /\
  (pattern_title_case default_config (of_string "Hello world") = true <->
   (exists c rest,
       of_string "Hello world" = c :: rest /\ is_AZ c = true /\ rest <> [] /\
       forallb not_sentence_end rest = true) /\
   len (split_ws (of_string "Hello world")) <= MAX_HEADING_WORDS default_config).
Proof.
  split; [reflexivity|].
  apply (pattern_title_case_shape default_config (of_string "Hello world")).
  reflexivity.
Defined.

Lemma extract_sections_content_bounded_witness :
  In demo_section
     (extract_sections_from_text (U := ascii_tables) default_config demo_page 1
        (Some 10)) /\
  len (content demo_section) <= len (strip demo_page).
Proof.
  split; [vm_compute; left; reflexivity|].
  apply (extract_sections_content_bounded ascii_tables default_config demo_page
           1 (Some 10) demo_section).
  vm_compute; left; reflexivity.
Defined.

(** The loader and the run on the toy disk: of the four requested documents
    one is read, up to the page that fails; the missing one and the two
    whose names do not end with [".pdf"] are skipped. *)
Example load_toy_request :
  load_documents_with_sections (U := ascii_tables) (F := toy_disk)
    default_config (of_string "./pdfs") (documents toy_request)
  = ([ MsgPdfError toy_path; MsgFileNotFound (of_string "missing.pdf");
       MsgUnsupported (of_string "B.PDF");
       MsgUnsupported (of_string "notes.txt") ],
     [ toy_loaded_section ]).
Proof. reflexivity. Qed.

Example main_toy_request :
  snd (main_process (U := ascii_tables) (F := toy_disk) (E := toy_encoder)
         (X := no_faults)
         default_config default_paths (of_string "2026-01-01T00:00:00")
         toy_request) = Finished.
Proof. reflexivity. Qed.

(** The same run when the output file cannot be written, and when the
    encoding of the sections raises: the run raises, after the uses of the
    encoder that were made, and no report is written. *)
Example main_toy_request_unwritable :
  main_process (U := ascii_tables) (F := toy_disk) (E := toy_encoder)
    (X := unwritable)
    default_config default_paths (of_string "2026-01-01T00:00:00") toy_request
  = ([ Printed (MsgPdfError toy_path);
       Printed (MsgFileNotFound (of_string "missing.pdf"));
       Printed (MsgUnsupported (of_string "B.PDF"));
       Printed (MsgUnsupported (of_string "notes.txt"));
       Printed (MsgExtracted 1 4);
       Printed (MsgFinding (of_string "task"));
       Encoder_use (EvConstruct (SIMILARITY_MODEL default_config));
       Encoder_use (EvEncode (of_string "task"));
       Encoder_use (EvEncodeBatch [combined_text toy_loaded_section]);
       Encoder_use EvCosSim ],
     Raised).
Proof. reflexivity. Qed.

Example main_toy_request_batch_fails :
  main_process (U := ascii_tables) (F := toy_disk) (E := toy_encoder)
    (X := batch_fails)
    default_config default_paths (of_string "2026-01-01T00:00:00") toy_request
  = ([ Printed (MsgPdfError toy_path);
       Printed (MsgFileNotFound (of_string "missing.pdf"));
       Printed (MsgUnsupported (of_string "B.PDF"));
       Printed (MsgUnsupported (of_string "notes.txt"));
       Printed (MsgExtracted 1 4);
       Printed (MsgFinding (of_string "task"));
       Encoder_use (EvConstruct (SIMILARITY_MODEL default_config));
       Encoder_use (EvEncode (of_string "task"));
       Encoder_use (EvEncodeBatch [combined_text toy_loaded_section]) ],
     Raised).
Proof. reflexivity. Qed.

(** ** The fallbacks at concrete pages *)

Lemma extract_sections_fallback_order_witness :
  (heading_sections (U := ascii_tables) default_config two_paragraph_page 1
     (effective_min default_config None) = [] /\
   extract_sections_from_text (U := ascii_tables) default_config
     two_paragraph_page 1 None = [two_par_section_1; two_par_section_2] /\
   strategy3_added two_paragraph_page 1 (effective_min default_config None) []
   = [two_par_section_1; two_par_section_2]) /\
  (heading_sections (U := ascii_tables) default_config short_paragraphs_page 1
     (effective_min default_config None) = [] /\
   extract_sections_from_text (U := ascii_tables) default_config
     short_paragraphs_page 1 None = [short_paragraphs_section] /\
   strategy3_added short_paragraphs_page 1 (effective_min default_config None) []
   = [] /\
   strategy4_added short_paragraphs_page 1 (effective_min default_config None) []
   = [short_paragraphs_section]).
Proof.
  split.
  - destruct (extract_sections_fallback_order ascii_tables default_config
                two_paragraph_page 1 None)
      as [_ [H [_ [_ [Hps _]]]]].
    assert (Hh : heading_sections (U := ascii_tables) default_config
                   two_paragraph_page 1 (effective_min default_config None)
                 = []) by reflexivity.
    rewrite Hh in H, Hps; rewrite H, Hps.
    split; [reflexivity|]; split; reflexivity.
  - destruct (extract_sections_fallback_order ascii_tables default_config
                short_paragraphs_page 1 None)
      as [_ [H [_ [_ [Hps [Hws _]]]]]].
    assert (Hh : heading_sections (U := ascii_tables) default_config
                   short_paragraphs_page 1 (effective_min default_config None)
                 = []) by reflexivity.
    rewrite Hh in H, Hps, Hws; rewrite Hps in Hws; simpl app in Hws.
    rewrite H, Hps, Hws.
    split; [reflexivity|]; split; [reflexivity|]; split; reflexivity.
Defined.

(** ** The refined text: cutting, then collapsing *)

Section CollapseFacts.

Lemma words_aux_run cur run rest :
  run <> [] -> forallb isspace run = true ->
  words_aux cur (run ++ rest)
  = match cur with [] => [] | _ :: _ => [rev cur] end ++ words_aux [] rest.
Proof.
  intros Hne; revert cur; induction run as [|c run IH]; [congruence|].
  intros cur H; simpl in H; apply andb_prop in H as [Hc Hrun].
  simpl; rewrite Hc.
  destruct run as [|d run].
  - destruct cur; reflexivity.
  - destruct cur; rewrite (IH ltac:(discriminate) [] Hrun); reflexivity.
Qed.

(** A run of whitespace separates the words on its two sides. *)
Lemma words_aux_app_run cur a run b :
  run <> [] -> forallb isspace run = true ->
  words_aux cur (a ++ run ++ b) = words_aux cur a ++ words_aux [] b.
Proof.
  intros Hne Hrun; revert cur; induction a as [|c a IH]; intros cur.
  - simpl app; rewrite (words_aux_run cur run b Hne Hrun).
    destruct cur; reflexivity.
  - simpl; destruct (isspace c).
    + destruct cur; rewrite IH; reflexivity.
    + apply IH.
Qed.

Lemma join_app sep l1 l2 :
  l1 <> [] -> l2 <> [] ->
  join sep (l1 ++ l2) = join sep l1 ++ sep ++ join sep l2.
Proof.
  intros H1 H2; induction l1 as [|w l1 IH]; [congruence|].
  destruct l1 as [|w' l1].
  - simpl app; rewrite join_cons.
    destruct l2; [congruence | reflexivity].
  - change (join sep ((w :: w' :: l1) ++ l2))
      with (w ++ sep ++ join sep ((w' :: l1) ++ l2)).
    rewrite IH by discriminate.
    change (join sep (w :: w' :: l1)) with (w ++ sep ++ join sep (w' :: l1)).
    now rewrite <- !app_assoc.
Qed.

Lemma split_ws_nonempty s : forallb isspace s = false -> split_ws s <> [].
Proof.
  intros H Hnil; apply words_aux_nil in Hnil; congruence.
Qed.

(** Collapsing on the two sides of a run of whitespace. *)
Lemma sub_ws_strip_run a run b :
  run <> [] -> forallb isspace run = true ->
  forallb isspace a = false -> forallb isspace b = false ->
  sub_ws (strip (a ++ run ++ b))
  = sub_ws (strip a) ++ [chr_space] ++ sub_ws (strip b).
Proof.
  intros Hne Hrun Ha Hb.
  rewrite <- !join_split_ws; unfold split_ws.
  rewrite (words_aux_app_run [] a run b Hne Hrun).
  apply join_app; now apply split_ws_nonempty.
Qed.

Lemma solid_not_ws x : x <> [] -> solid x = true -> forallb isspace x = false.
Proof.
  destruct x as [|c x]; [congruence|]; simpl; intros _ H.
  apply andb_prop in H as [Hc _]; apply negb_true_iff in Hc; now rewrite Hc.
Qed.

Lemma solid_fixed x : solid x = true -> sub_ws (strip x) = x.
Proof.
  intros H; destruct x as [|c x]; [reflexivity|].
  assert (Hs : strip (c :: x) = c :: x).
  { destruct (strip_keeps_solid_end [] (c :: x)) as [r Hr];
      [discriminate | exact H |].
    simpl in Hr.
    pose proof (strip_length (c :: x)) as Hl; rewrite Hr in Hl.
    rewrite length_app in Hl; destruct r; [exact Hr | simpl in Hl; lia]. }
  rewrite Hs; unfold sub_ws; now apply sub_ws_aux_solid.
Qed.

Lemma filter_solid_lstrip s :
  filter (fun c => negb (isspace c)) (lstrip s)
  = filter (fun c => negb (isspace c)) s.
Proof.
  induction s as [|c s IH]; simpl; [reflexivity|].
  destruct (isspace c) eqn:Hc; simpl; [exact IH | now rewrite Hc].
Qed.

Lemma filter_solid_strip s :
  filter (fun c => negb (isspace c)) (strip s)
  = filter (fun c => negb (isspace c)) s.
Proof.
  unfold strip, rstrip.
  rewrite <- (rev_involutive (filter _ (rev (lstrip (rev (lstrip s)))))).
  rewrite <- filter_rev, rev_involutive, filter_solid_lstrip.
  rewrite filter_rev, rev_involutive; apply filter_solid_lstrip.
Qed.

Lemma filter_solid_sub_ws b s :
  filter (fun c => negb (isspace c)) (sub_ws_aux b s)
  = filter (fun c => negb (isspace c)) s.
Proof.
  revert b; induction s as [|c s IH]; intros b; simpl; [reflexivity|].
  destruct (isspace c) eqn:Hc; simpl.
  - destruct b; [apply IH|].
    cbn [filter]; rewrite isspace_space; simpl; apply IH.
  - rewrite Hc; simpl; now rewrite IH.
Qed.

End CollapseFacts.

(** C7. With a non-negative limit, the refined text is made from the
    content cut to its first [MAX_REFINED_TEXT_LENGTH] characters wherever
    that falls, and from nothing beyond the cut; the cut is stripped, and
    only then collapsed.  Collapsing turns every run of whitespace into one
    plain space: the refined text is the words of the cut joined by single
    spaces; a run of whitespace between two parts of the cut becomes one
    space between what the two parts become; every whitespace character of
    the refined text is a plain space between two other characters; and the
    other characters of the cut are all kept, in order.  The refined text is
    no longer than the limit, and when the cut ends with a whitespace-free
    fragment of a word it ends with that fragment. *)
Theorem refined_text_cut_then_collapse :
  forall cfg content,
    0 <= MAX_REFINED_TEXT_LENGTH cfg ->
    let cut := firstn (Z.to_nat (MAX_REFINED_TEXT_LENGTH cfg)) content in
    let refined := refine_text cfg content in
    refined = sub_ws (strip cut) /\
    len refined <= MAX_REFINED_TEXT_LENGTH cfg /\
    (forall content',
        firstn (Z.to_nat (MAX_REFINED_TEXT_LENGTH cfg)) content' = cut ->
        refine_text cfg content' = refined) /\
    (forall pre w,
        cut = pre ++ w -> w <> [] -> solid w = true ->
        exists r, refined = r ++ w) /\
    refined = join [chr_space] (split_ws cut) /\
    (forall a run b,
        cut = a ++ run ++ b ->
        run <> [] -> forallb isspace run = true ->
        forallb isspace a = false -> forallb isspace b = false ->
        refined = sub_ws (strip a) ++ [chr_space] ++ sub_ws (strip b)) /\
    (forall x run y,
        cut = x ++ run ++ y ->
        x <> [] -> solid x = true ->
        run <> [] -> forallb isspace run = true ->
        y <> [] -> solid y = true ->
        refined = x ++ [chr_space] ++ y) /\
    (forall pre c post,
        refined = pre ++ c :: post -> isspace c = true ->
        c = chr_space /\
        pre <> [] /\ ends_with_ws pre = false /\
        post <> [] /\ starts_with_ws post = false) /\
    filter (fun c => negb (isspace c)) refined
    = filter (fun c => negb (isspace c)) cut.
Proof.
  intros cfg content Hmax cut refined.
  assert (Heq : forall c, refine_text cfg c
                 = sub_ws (strip (firstn (Z.to_nat (MAX_REFINED_TEXT_LENGTH cfg)) c))).
  { intros c; unfold refine_text; now rewrite slice_to_firstn. }
  assert (Hr : refined = sub_ws (strip cut)) by apply Heq.
  split; [exact Hr|].
  split; [now apply refine_text_length|].
  split; [intros content' H; unfold refined; now rewrite !Heq, H|].
  split.
  { intros pre w Hcut Hne Hw.
    destruct (strip_keeps_solid_end pre w Hne Hw) as [r Hr'].
    exists (sub_ws_aux false r).
    rewrite Hr, Hcut, Hr'; unfold sub_ws; now apply sub_ws_aux_app_solid. }
  split; [rewrite Hr; symmetry; apply join_split_ws|].
  split.
  { intros a run b Hcut Hne Hrun Ha Hb.
    rewrite Hr, Hcut; now apply sub_ws_strip_run. }
  split.
  { intros x run y Hcut Hx Hsx Hne Hrun Hy Hsy.
    rewrite Hr, Hcut.
    rewrite (sub_ws_strip_run x run y Hne Hrun
               (solid_not_ws x Hx Hsx) (solid_not_ws y Hy Hsy)).
    now rewrite !solid_fixed. }
  split.
  { intros pre c post Heq' Hc.
    pose proof (refine_text_starts cfg content) as Hstart.
    pose proof (refine_text_ends cfg content) as Hend.
    assert (Hss : single_spaced (refine_text cfg content) = true)
      by apply sub_ws_aux_single_spaced.
    fold refined in Hstart, Hend, Hss; rewrite Heq' in Hstart, Hend, Hss.
    destruct (single_spaced_at _ _ _ Hss Hc) as [H1 H2].
    split; [exact H1|]; split; [|split; [|split; [|exact H2]]].
    - intros ->; simpl in Hstart; congruence.
    - unfold ends_with_ws; destruct (rev pre) as [|d r] eqn:Hrev; [reflexivity|].
      apply (f_equal (@rev char)) in Hrev; rewrite rev_involutive in Hrev.
      simpl in Hrev; simpl; destruct (isspace d) eqn:Hd; [|reflexivity].
      rewrite Hrev, <- app_assoc in Hss; simpl in Hss.
      destruct (single_spaced_at _ _ _ Hss Hd) as [_ H]; simpl in H; congruence.
    - intros ->.
      change (pre ++ [c]) with (pre ++ [] ++ [c]) in Hend.
      rewrite ends_with_ws_app in Hend; congruence. }
  rewrite Hr; unfold sub_ws.
  now rewrite filter_solid_sub_ws, filter_solid_strip.
Qed.

Lemma refined_text_cut_then_collapse_witness :
  0 <= MAX_REFINED_TEXT_LENGTH short_config /\
  (
   let cut := firstn (Z.to_nat (MAX_REFINED_TEXT_LENGTH short_config)) (of_string "ab   cdefgh") in
   let refined := refine_text short_config (of_string "ab   cdefgh") in
   refined = sub_ws (strip cut) /\
   len refined <= MAX_REFINED_TEXT_LENGTH short_config /\
   (forall content',
       firstn (Z.to_nat (MAX_REFINED_TEXT_LENGTH short_config)) content' = cut ->
       refine_text short_config content' = refined) /\
   (forall pre w,
       cut = pre ++ w -> w <> [] -> solid w = true ->
       exists r, refined = r ++ w) /\
   refined = join [chr_space] (split_ws cut) /\
   (forall a run b,
       cut = a ++ run ++ b ->
       run <> [] -> forallb isspace run = true ->
       forallb isspace a = false -> forallb isspace b = false ->
       refined = sub_ws (strip a) ++ [chr_space] ++ sub_ws (strip b)) /\
   (forall x run y,
       cut = x ++ run ++ y ->
       x <> [] -> solid x = true ->
       run <> [] -> forallb isspace run = true ->
       y <> [] -> solid y = true ->
       refined = x ++ [chr_space] ++ y) /\
   (forall pre c post,
       refined = pre ++ c :: post -> isspace c = true ->
       c = chr_space /\
       pre <> [] /\ ends_with_ws pre = false /\
       post <> [] /\ starts_with_ws post = false) /\
   filter (fun c => negb (isspace c)) refined
   = filter (fun c => negb (isspace c)) cut).
Proof.
  split; [simpl; lia|].
  apply (refined_text_cut_then_collapse short_config (of_string "ab   cdefgh")).
  simpl; lia.
Defined.

(** Collapsing is not the identity: the three spaces of the cut
    ["ab   cd"] become one. *)
Example refine_text_collapses :
  firstn (Z.to_nat (MAX_REFINED_TEXT_LENGTH short_config))
         (of_string "ab   cdefgh") = of_string "ab   cd" /\
  refine_text short_config (of_string "ab   cdefgh") = of_string "ab cd".
Proof. split; reflexivity. Qed.
